(** * InsightHub BI dashboard: aggregation engine and dashboard controller

    A shallow embedding of the load-bearing TypeScript of the repository:
    - [src/utils/dataProcessor.ts] and its variant found in the unnamed part
      (both export [aggregateData]);
    - the file-name helper [getFileNameWithoutExtension];
    - the state handlers of [src/App.tsx] ([handleFileUpload],
      [handleSaveChart], [handleClearDashboard], [sortedCharts] and the
      restore-on-authentication effect).

    Around these stand the components that call them: the chart form
    ([ChartConfigModal]), the Add button of the assistant, the toolbox drag
    and the drop on the dashboard, the login form and the session, the
    names of the exported files ([createSafeFileName]) and the auto-save
    effect with [JSON.stringify]; [Session] runs them as the events of a
    page, and [Startup] gives the restore effect on the cells as they are
    stored, without the types.

    JavaScript built-ins the code calls ([String], [Number], [isNaN],
    [localeCompare], [parseInt], arithmetic on doubles, the members of
    [Object.prototype]) are collected in the class [Runtime]; the code is
    embedded once over any runtime, and [Engine] gives an executable runtime
    whose numbers are IEEE 754 binary64 values.  Plain objects keep their
    own properties in creation order and fall back on [Object.prototype];
    a call either returns or throws a [TypeError]. *)

From Stdlib Require Import ZArith NArith Lia Ascii String.
From Stdlib Require Import Uint63 PrimFloat FloatOps SpecFloat.
From stdpp Require Import base option list strings pretty gmap sorting.

Local Open Scope string_scope.
Local Open Scope list_scope.

(* ================================================================= *)
(** * The JavaScript fragment the code relies on *)

Module JS.

(** A member that every plain object [{}] inherits from [Object.prototype]
    ([constructor], [toString], [__proto__], ...).  [builtin_text] is the
    string it converts to; [builtin_accessor] tells an accessor pair (an
    assignment through it calls the setter and creates no own property)
    from a writable data property (an assignment shadows it). *)
Record builtin := Builtin { builtin_text : string; builtin_accessor : bool }.

Class Runtime := {
  num : Type;                               (* the Number type *)
  NaN : num;
  ofNat : nat → num;                        (* literals and [length] *)
  add : num → num → num;
  sub : num → num → num;
  div : num → num → num;
  isNaN : num → bool;
  toBoolean : num → bool;                   (* false on 0, -0 and NaN *)
  sign : num → comparison;                  (* [Lt] below 0, [Gt] above *)
  numToString : num → string;               (* String(n) *)
  stringToNumber : string → num;            (* Number(s) *)
  parseInt : string → num;
  localeCompare : string → string → num;
  objectPrototype : string → option builtin;
  arrayIndex : string → option N;           (* canonical array-index keys *)
}.

(** Completion of a call: it returns or it throws.  The only exception the
    embedded code can raise is a [TypeError]. *)
Inductive result (A : Type) := Return (a : A) | TypeError.
Arguments Return {A} a.
Arguments TypeError {A}.

Global Instance result_bind : MBind result := λ A B k m,
  match m with Return a => k a | TypeError => TypeError end.

(** [forEach] with a callback that may throw. *)
Fixpoint forEach {A S} (f : S → A → result S) (s : S) (l : list A) : result S :=
  match l with
  | [] => Return s
  | x :: l' => s' ← f s x; forEach f s' l'
  end.

(** ** Stable sorting, as [Array.prototype.sort] does it

    [stable_sort after] places [x] behind [y] exactly when [after x y];
    elements that are not ordered by [after] keep their relative order.
    For a consistent comparator every stable sort returns this list; for an
    inconsistent one ECMAScript leaves the order to the implementation, and
    the model fixes it as the order of insertion. *)
Fixpoint insert_by {A} (after : A → A → bool) (x : A) (l : list A) : list A :=
  match l with
  | [] => [x]
  | y :: l' => if after x y then y :: insert_by after x l' else x :: l
  end.

Definition stable_sort {A} (after : A → A → bool) (l : list A) : list A :=
  foldr (insert_by after) [] l.

(** [x] may stand before [y]. *)
Definition before {A} (after : A → A → bool) (x y : A) : Prop :=
  after x y = false.

(** [x] and [y] tie: neither has to stand behind the other. *)
Definition ties {A} (after : A → A → bool) (x y : A) : bool :=
  negb (after x y) && negb (after y x).

(** What reading [o[k]] finds. *)
Inductive lookup (V : Type) :=
  | Own (v : V)
  | Inherited (b : builtin)
  | Undefined.
Arguments Own {V} v.
Arguments Inherited {V} b.
Arguments Undefined {V}.

(** A plain object: its own enumerable properties in creation order. *)
Abbreviation obj V := (list (string * V)) (only parsing).

Section Objects.
Context `{Runtime}.

Definition zero : num := ofNat 0.
Definition one : num := ofNat 1.

Definition is_Gt (c : comparison) : bool :=
  match c with Gt => true | _ => false end.

(** [arr.sort(cmp)]: a positive [cmp a b] puts [a] behind [b]; zero, NaN and
    negative results leave the pair as it is. *)
Definition Array_sort {A} (cmp : A → A → num) (l : list A) : list A :=
  stable_sort (λ a b, is_Gt (sign (cmp a b))) l.

(** A cell of a data row: [string | number]. *)
Inductive cell := CNum (n : num) | CStr (s : string).


Fixpoint own {V} (o : obj V) (k : string) : option V :=
  match o with
  | [] => None
  | (k', v) :: o' => if decide (k' = k) then Some v else own o' k
  end.

Definition get {V} (o : obj V) (k : string) : lookup V :=
  match own o k with
  | Some v => Own v
  | None =>
      match objectPrototype k with
      | Some b => Inherited b
      | None => Undefined
      end
  end.

Fixpoint update {V} (o : obj V) (k : string) (v : V) : obj V :=
  match o with
  | [] => []
  | (k', v') :: o' =>
      if decide (k' = k) then (k', v) :: o' else (k', v') :: update o' k v
  end.

(** A property of an object literal [{[k]: v}]: always an own property;
    a repeated name overwrites the value and keeps the position. *)
Definition define {V} (o : obj V) (k : string) (v : V) : obj V :=
  match own o k with
  | Some _ => update o k v
  | None => o ++ [(k, v)]
  end.

(** The assignment [o[k] = v].  Through an inherited accessor
    ([__proto__]) the setter runs instead; the values the embedded code
    assigns this way are primitives, which the setter ignores. *)
Definition assign {V} (o : obj V) (k : string) (v : V) : obj V :=
  match own o k with
  | Some _ => update o k v
  | None =>
      match objectPrototype k with
      | Some b => if builtin_accessor b then o else o ++ [(k, v)]
      | None => o ++ [(k, v)]
      end
  end.

Definition is_index {V} (p : string * V) : bool :=
  match arrayIndex p.1 with Some _ => true | None => false end.

Definition index_of {V} (p : string * V) : N :=
  match arrayIndex p.1 with Some i => i | None => 0%N end.

(** Property enumeration ([for ... in], [Object.keys]): array-index keys in
    ascending numeric order, then the other keys in creation order.
    [Object.prototype] has no enumerable member, so nothing inherited
    shows up. *)
Definition entries {V} (o : obj V) : obj V :=
  stable_sort (λ p q, (index_of q <? index_of p)%N) (filter (λ p, is_index p) o)
  ++ filter (λ p, ¬ is_index p) o.

Definition Object_keys {V} (o : obj V) : list string := (entries o).*1.

(** ** Conversions *)

(** [String(o[k])] *)
Definition ToString (v : lookup cell) : string :=
  match v with
  | Own (CStr s) => s
  | Own (CNum n) => numToString n
  | Inherited b => builtin_text b
  | Undefined => "undefined"
  end.

(** [Number(o[k])] *)
Definition ToNumber (v : lookup cell) : num :=
  match v with
  | Own (CNum n) => n
  | Own (CStr s) => stringToNumber s
  | Inherited b => stringToNumber (builtin_text b)
  | Undefined => NaN
  end.

(** Truthiness of [o[k]]. *)
Definition truthy (v : lookup cell) : bool :=
  match v with
  | Own (CNum n) => toBoolean n
  | Own (CStr s) => negb (bool_decide (s = ""))
  | Inherited _ => true
  | Undefined => false
  end.

(** [v + n] for a number [n]: addition on numbers, concatenation as soon as
    the left operand is a string or converts to one. *)
Definition plus (v : lookup cell) (n : num) : cell :=
  match v with
  | Own (CNum m) => CNum (add m n)
  | Own (CStr s) => CStr (s +:+ numToString n)
  | Inherited b => CStr (builtin_text b +:+ numToString n)
  | Undefined => CNum (add NaN n)
  end.

(** [v || d] *)
Definition or_else (v : lookup cell) (d : num) : lookup cell :=
  if truthy v then v else Own (CNum d).

Definition is_string (v : lookup cell) : bool :=
  match v with Own (CStr _) => true | _ => false end.

End Objects.

End JS.

Import JS.

(* ================================================================= *)
(** * src/types.ts *)

Inductive AggregationType :=
  | Sum
  | Count
  | Average
  | OtherAggregation.   (* any run-time value outside the enum *)

Inductive ChartType := Bar | Line | Area | Pie | Donut | Scatter.

Record ChartConfig := mkChartConfig {
  id : string;
  title : string;
  type : ChartType;
  xAxis : string;
  yAxis : string;
  aggregation : AggregationType;
}.

Global Instance AggregationType_eq_dec : EqDecision AggregationType.
Proof. solve_decision. Defined.
Global Instance ChartType_eq_dec : EqDecision ChartType.
Proof. solve_decision. Defined.
Global Instance ChartConfig_eq_dec : EqDecision ChartConfig.
Proof. solve_decision. Defined.

(* ================================================================= *)
(** * src/utils/dataProcessor.ts *)

(** [DataRow = { [key: string]: string | number }] *)
Abbreviation DataRow := (obj cell) (only parsing).

Section Aggregation.
Context `{Runtime}.

(** The body of the first [forEach]:
    [counts[key] = (counts[key] || 0) + 1]. *)
Definition count_row (groupBy : string) (counts : obj cell) (row : DataRow)
  : obj cell :=
  let key := ToString (get row groupBy) in
  assign counts key (plus (or_else (get counts key) zero) one).

(** The body of the second [forEach]: open the group on first sight, then
    push the measure when it is a number.  [grouped[key].push] throws when
    [grouped[key]] is not an array. *)
Definition group_row (groupBy valueColumn : string)
    (grouped : obj (list num)) (row : DataRow) : result (obj (list num)) :=
  let key := ToString (get row groupBy) in
  let grouped :=
    match get grouped key with
    | Undefined => assign grouped key []
    | _ => grouped
    end in
  let value := ToNumber (get row valueColumn) in
  if isNaN value then Return grouped
  else
    match get grouped key with
    | Own values => Return (update grouped key (values ++ [value]))
    | _ => TypeError
    end.

(** The [switch (aggregation)]. *)
Definition reduce (aggregation : AggregationType) (values : list num) : num :=
  match aggregation with
  | Sum => foldl add zero values
  | Count => ofNat (length values)
  | Average => div (foldl add zero values) (ofNat (length values))
  | OtherAggregation => zero
  end.

(** [{ [groupBy]: key, [valueColumn]: v }] *)
Definition output_row (groupBy valueColumn : string) (key : string) (v : cell)
  : DataRow :=
  define (define [] groupBy (CStr key)) valueColumn v.

(** The comparator handed to [sort]. *)
Definition by_group (groupBy : string) (a b : DataRow) : num :=
  if is_string (get a groupBy) && is_string (get b groupBy)
  then localeCompare (ToString (get a groupBy)) (ToString (get b groupBy))
  else sub (ToNumber (get a groupBy)) (ToNumber (get b groupBy)).

Definition is_frequency (groupBy valueColumn : string)
    (aggregation : AggregationType) : bool :=
  bool_decide (aggregation = Count) && bool_decide (groupBy = valueColumn).

Definition frequency (rows : list DataRow) (groupBy valueColumn : string)
  : list DataRow :=
  let counts := foldl (count_row groupBy) [] rows in
  (λ p, output_row groupBy valueColumn p.1 p.2) <$> entries counts.

End Aggregation.

Module DataProcessor.
Section Code.
Context `{Runtime}.

(** The [for (const key in grouped)] loop. *)
Definition aggregated (groupBy valueColumn : string)
    (aggregation : AggregationType) (grouped : obj (list num)) : list DataRow :=
  (λ p, output_row groupBy valueColumn p.1 (CNum (reduce aggregation p.2)))
    <$> entries grouped.

Definition aggregateData (data : option (list DataRow))
    (groupBy valueColumn : string) (aggregation : AggregationType)
  : result (list DataRow) :=
  match data with
  | None => Return []
  | Some [] => Return []
  | Some rows =>
      if is_frequency groupBy valueColumn aggregation
      then Return (frequency rows groupBy valueColumn)
      else
        grouped ← forEach (group_row groupBy valueColumn) [] rows;
        Return (Array_sort (by_group groupBy)
                  (aggregated groupBy valueColumn aggregation grouped))
  end.

End Code.
End DataProcessor.

(** The variant of the same module carried by the unnamed source part: the
    loop skips a group whose array is empty. *)
Module DataProcessorVariant.
Section Code.
Context `{Runtime}.

Definition aggregated (groupBy valueColumn : string)
    (aggregation : AggregationType) (grouped : obj (list num)) : list DataRow :=
  (λ p, output_row groupBy valueColumn p.1 (CNum (reduce aggregation p.2)))
    <$> filter (λ p, length p.2 ≠ 0) (entries grouped).

Definition aggregateData (data : option (list DataRow))
    (groupBy valueColumn : string) (aggregation : AggregationType)
  : result (list DataRow) :=
  match data with
  | None => Return []
  | Some [] => Return []
  | Some rows =>
      if is_frequency groupBy valueColumn aggregation
      then Return (frequency rows groupBy valueColumn)
      else
        grouped ← forEach (group_row groupBy valueColumn) [] rows;
        Return (Array_sort (by_group groupBy)
                  (aggregated groupBy valueColumn aggregation grouped))
  end.

End Code.
End DataProcessorVariant.

(* ================================================================= *)
(** * The file-name helper: [getFileNameWithoutExtension] *)

Module FileUtils.

(** [s.lastIndexOf(c)], [-1] when [c] does not occur. *)
Fixpoint lastIndexOf_from (i : Z) (c : ascii) (s : string) (found : Z) : Z :=
  match s with
  | EmptyString => found
  | String a s' =>
      lastIndexOf_from (i + 1) c s' (if bool_decide (a = c) then i else found)
  end.

Definition lastIndexOf (s : string) (c : ascii) : Z :=
  lastIndexOf_from 0 c s (-1).

(** [s.substring(start, end)]: both ends are clamped to the string and
    swapped when out of order. *)
Definition substring (s : string) (start finish : Z) : string :=
  let len := Z.of_nat (String.length s) in
  let a := Z.min (Z.max start 0) len in
  let b := Z.min (Z.max finish 0) len in
  let from := Z.min a b in
  let to := Z.max a b in
  String.substring (Z.to_nat from) (Z.to_nat (to - from)) s.

(** [fileName.substring(0, fileName.lastIndexOf('.')) || fileName] *)
Definition getFileNameWithoutExtension (fileName : string) : string :=
  match substring fileName 0 (lastIndexOf fileName ".") with
  | EmptyString => fileName
  | stem => stem
  end.

(** [c] occurs in [s]. *)
Fixpoint occurs (c : ascii) (s : string) : bool :=
  match s with
  | EmptyString => false
  | String a s' => bool_decide (a = c) || occurs c s'
  end.

(** ** [createSafeFileName] *)

(** One code unit against [/[^a-z0-9]/gi].  Under the [i] flag the class
    [a-z0-9] holds the ASCII letters of both cases and the digits (no other
    8-bit code unit canonicalizes to one of them); the negated class matches
    every other code unit. *)
Definition is_alnum (a : ascii) : bool :=
  let c := N_of_ascii a in
  ((97 <=? c)%N && (c <=? 122)%N)
  || ((65 <=? c)%N && (c <=? 90)%N)
  || ((48 <=? c)%N && (c <=? 57)%N).

(** [title.replace(/[^a-z0-9]/gi, '_')] *)
Fixpoint replace_non_alnum (s : string) : string :=
  match s with
  | EmptyString => EmptyString
  | String a s' =>
      String (if is_alnum a then a else "_"%char) (replace_non_alnum s')
  end.

(** [toLowerCase] on 8-bit code units: the ASCII capitals and the capitals
    of Latin-1 (U+00C0 to U+00DE, the multiplication sign apart) move up by
    32; every other code unit stays. *)
Definition lower (a : ascii) : ascii :=
  let c := N_of_ascii a in
  if ((65 <=? c)%N && (c <=? 90)%N)
     || ((192 <=? c)%N && (c <=? 222)%N && negb (c =? 215)%N)
  then ascii_of_N (c + 32) else a.

Fixpoint toLowerCase (s : string) : string :=
  match s with
  | EmptyString => EmptyString
  | String a s' => String (lower a) (toLowerCase s')
  end.

(** [title.replace(/[^a-z0-9]/gi, '_').toLowerCase() || fallback], where an
    omitted [fallback] is ['file']. *)
Definition createSafeFileName (title : string) (fallback : option string)
  : string :=
  match toLowerCase (replace_non_alnum title) with
  | EmptyString => default "file" fallback
  | safe => safe
  end.

End FileUtils.

(** The two downloads of an export: [`${safeFileName}.png`] and
    [`${safeFileName}.pdf`]. *)
Inductive ExportFormat := png | pdf.

Definition download_name (safeFileName : string) (format : ExportFormat)
  : string :=
  match format with
  | png => safeFileName +:+ ".png"
  | pdf => safeFileName +:+ ".pdf"
  end.

(* ================================================================= *)
(** * The components around the controller *)

(** [src/components/Toast.tsx]: the kinds of toast.  [addToast] of the toast
    context appends to the toasts on display. *)
Module Toast.

Inductive ToastType := success | error | info.

Global Instance ToastType_eq_dec : EqDecision ToastType.
Proof. solve_decision. Defined.

End Toast.

(** [ChartSuggestion] of [src/types.ts]. *)
Record ChartSuggestion := mkChartSuggestion {
  suggestion_title : string;
  suggestion_description : string;
  suggestion_type : ChartType;
  suggestion_xAxis : string;
  suggestion_yAxis : string;
  suggestion_aggregation : AggregationType;
}.

(** The chart form, [ChartConfigModal]. *)
Module ChartConfigModal.

(** The [useState] cells of the form. *)
Record Form := mkForm {
  form_title : string;
  form_chartType : ChartType;
  form_xAxis : string;
  form_yAxis : string;
  form_aggregation : AggregationType;
}.

(** The effect that fills the form: the chart to edit, or a blank form with
    the dragged chart type ([newChartType || ChartType.Bar]). *)
Definition fillForm (chartToEdit : option ChartConfig)
    (newChartType : option ChartType) : Form :=
  match chartToEdit with
  | Some c => mkForm (title c) (type c) (xAxis c) (yAxis c) (aggregation c)
  | None => mkForm "" (default Bar newChartType) "" "" Count
  end.

Section Code.
Context `{Runtime}.

(** [handleSubmit], at the time [now] that [Date.now()] returns, over the
    callbacks the component is given. *)
Definition handleSubmit {S : Type}
    (addToast : string → Toast.ToastType → S → S)
    (onSave : ChartConfig → S → S) (onClose : S → S)
    (chartToEdit : option ChartConfig) (now : num) (form : Form) (s : S) : S :=
  if bool_decide (form_title form = "")
     || bool_decide (form_xAxis form = "")
     || bool_decide (form_yAxis form = "")
  then addToast "Please fill out all fields: Title, X-Axis, and Y-Axis."
         Toast.error s
  else
    let config :=
      mkChartConfig
        (match chartToEdit with
         | Some c => id c
         | None => numToString now
         end)
        (form_title form) (form_chartType form) (form_xAxis form)
        (form_yAxis form) (form_aggregation form) in
    onClose (onSave config s).

End Code.
End ChartConfigModal.

(** The assistant, [AiAssistantModal]. *)
Module AiAssistantModal.
Section Code.
Context `{Runtime}.

Definition handleAddChart {S : Type} (onAddChart : ChartConfig → S → S)
    (now : num) (suggestion : ChartSuggestion) (s : S) : S :=
  onAddChart
    (mkChartConfig (numToString now) (suggestion_title suggestion)
       (suggestion_type suggestion) (suggestion_xAxis suggestion)
       (suggestion_yAxis suggestion) (suggestion_aggregation suggestion)) s.

End Code.
End AiAssistantModal.

(* ================================================================= *)
(** * src/App.tsx: the state cells and their handlers *)

Module App.

Definition INSIGHTHUB_AUTOSAVE_KEY : string := "insighthub-autosave".

Definition ChartType_label (t : ChartType) : string :=
  match t with
  | Bar => "Bar" | Line => "Line" | Area => "Area"
  | Pie => "Pie" | Donut => "Donut" | Scatter => "Scatter"
  end.

(** Arrays live in a heap, so that the copy [[...charts]] and the in-place
    [sort] are told apart. *)
Abbreviation heap := (gmap nat (list ChartConfig)).

(** [localStorage]: string entries by key. *)
Abbreviation localStorage := (gmap string string).

(** [sessionStorage], and the [dataTransfer] of a drag: string entries by
    key. *)
Abbreviation sessionStorage := (gmap string string).
Abbreviation DataTransfer := (gmap string string).

Section Controller.
Context `{Runtime}.

(** The [useState] cells of the component that the handlers touch. *)
Record State := mkState {
  isAuthenticated : bool;
  data : option (list DataRow);
  columns : list string;
  charts : list ChartConfig;
  dashboardTitle : string;
  fileName : string;
  isRestored : bool;
  isBuilderOpen : bool;
  editingChart : option ChartConfig;
  draggedChartType : option ChartType;
}.

Definition setData v (st : State) : State :=
  mkState (isAuthenticated st) v (columns st) (charts st) (dashboardTitle st)
    (fileName st) (isRestored st) (isBuilderOpen st) (editingChart st)
    (draggedChartType st).
Definition setColumns v (st : State) : State :=
  mkState (isAuthenticated st) (data st) v (charts st) (dashboardTitle st)
    (fileName st) (isRestored st) (isBuilderOpen st) (editingChart st)
    (draggedChartType st).
Definition setCharts v (st : State) : State :=
  mkState (isAuthenticated st) (data st) (columns st) v (dashboardTitle st)
    (fileName st) (isRestored st) (isBuilderOpen st) (editingChart st)
    (draggedChartType st).
Definition setDashboardTitle v (st : State) : State :=
  mkState (isAuthenticated st) (data st) (columns st) (charts st) v
    (fileName st) (isRestored st) (isBuilderOpen st) (editingChart st)
    (draggedChartType st).
Definition setFileName v (st : State) : State :=
  mkState (isAuthenticated st) (data st) (columns st) (charts st)
    (dashboardTitle st) v (isRestored st) (isBuilderOpen st) (editingChart st)
    (draggedChartType st).
Definition setIsRestored v (st : State) : State :=
  mkState (isAuthenticated st) (data st) (columns st) (charts st)
    (dashboardTitle st) (fileName st) v (isBuilderOpen st) (editingChart st)
    (draggedChartType st).
Definition setIsBuilderOpen v (st : State) : State :=
  mkState (isAuthenticated st) (data st) (columns st) (charts st)
    (dashboardTitle st) (fileName st) (isRestored st) v (editingChart st)
    (draggedChartType st).
Definition setEditingChart v (st : State) : State :=
  mkState (isAuthenticated st) (data st) (columns st) (charts st)
    (dashboardTitle st) (fileName st) (isRestored st) (isBuilderOpen st) v
    (draggedChartType st).
Definition setIsAuthenticated v (st : State) : State :=
  mkState v (data st) (columns st) (charts st) (dashboardTitle st)
    (fileName st) (isRestored st) (isBuilderOpen st) (editingChart st)
    (draggedChartType st).

(** The body of [reader.onload] in [handleFileUpload], for a file called
    [name] whose first sheet decodes to [jsonData].  The handler reads
    [isRestored] and [fileName] from the render it was created in, that is
    from [st]. *)
Definition handleFileUpload (name : string) (jsonData : list DataRow)
    (st : State) : State :=
  let s1 := setData (Some jsonData) st in
  let s2 :=
    match jsonData with
    | first :: _ => setColumns (Object_keys first) s1
    | [] => s1
    end in
  let s3 :=
    if negb (isRestored st) || negb (bool_decide (fileName st = name))
    then setCharts []
           (setDashboardTitle (FileUtils.getFileNameWithoutExtension name) s2)
    else s2 in
  setIsRestored false (setFileName name s3).

Definition handleSaveChart (config : ChartConfig) (st : State) : State :=
  let s1 :=
    match editingChart st with
    | Some _ =>
        setCharts
          ((λ chart, if decide (id chart = id config) then config else chart)
             <$> charts st) st
    | None => setCharts (charts st ++ [config]) st
    end in
  setIsBuilderOpen false (setEditingChart None s1).

Definition removeChart (i : string) (st : State) : State :=
  setCharts (filter (λ chart, id chart ≠ i) (charts st)) st.

Definition handleClearDashboard (st : State) : State := setCharts [] st.

(** The check of [handleSubmit] in the chart form, which guards every
    [onSave]: [!title || !xAxis || !yAxis] rejects. *)
Definition valid (config : ChartConfig) : bool :=
  negb (bool_decide (title config = "")
        || bool_decide (xAxis config = "")
        || bool_decide (yAxis config = "")).

(** ** [sortedCharts] *)

Definition comparator (sortOption : string) (a b : ChartConfig) : num :=
  if bool_decide (sortOption = "date-asc") then
    sub (parseInt (id a)) (parseInt (id b))
  else if bool_decide (sortOption = "date-desc") then
    sub (parseInt (id b)) (parseInt (id a))
  else if bool_decide (sortOption = "title-asc") then
    localeCompare (title a) (title b)
  else if bool_decide (sortOption = "title-desc") then
    localeCompare (title b) (title a)
  else if bool_decide (sortOption = "type-asc") then
    localeCompare (ChartType_label (type a)) (ChartType_label (type b))
  else
    sub (parseInt (id b)) (parseInt (id a)).

Definition array_at (h : heap) (a : nat) : list ChartConfig :=
  default [] (h !! a).

(** [[...a]]: a fresh array with the same elements. *)
Definition spread (a : nat) (h : heap) : nat * heap :=
  let b := fresh (dom h) in (b, <[b := array_at h a]> h).

(** [a.sort(cmp)]: sorts the array at [a] in place and returns [a]. *)
Definition sort_in_place (cmp : ChartConfig → ChartConfig → num) (a : nat)
    (h : heap) : nat * heap :=
  (a, <[a := Array_sort cmp (array_at h a)]> h).

Definition sortedCharts (sortOption : string) (charts : nat) (h : heap)
  : nat * heap :=
  let '(sorted, h1) := spread charts h in
  sort_in_place (comparator sortOption) sorted h1.

(** The comparators of the two title sorts, as [sort] reads them. *)
Definition title_asc (a b : ChartConfig) : bool :=
  is_Gt (sign (localeCompare (title a) (title b))).
Definition title_desc (a b : ChartConfig) : bool :=
  is_Gt (sign (localeCompare (title b) (title a))).

(** The title of [c] collates as equal to [t]. *)
Definition tied (t : string) (c : ChartConfig) : bool :=
  match sign (localeCompare (title c) t) with Eq => true | _ => false end.

(** The list [sortedCharts] computes, read off the heap. *)
Definition sorted_list (sortOption : string) (l : list ChartConfig)
  : list ChartConfig :=
  Array_sort (comparator sortOption) l.

(** ** The restore-on-authentication effect *)

(** A value produced by [JSON.parse]. *)
Unset Elimination Schemes.
Inductive json :=
  | JNull
  | JBool (b : bool)
  | JNumber (n : num)
  | JString (s : string)
  | JArray (l : list json)
  | JObject (o : list (string * json)).
Set Elimination Schemes.

Definition json_truthy (v : option json) : bool :=
  match v with
  | None | Some JNull => false
  | Some (JBool b) => b
  | Some (JNumber n) => toBoolean n
  | Some (JString s) => negb (bool_decide (s = ""))
  | Some (JArray _) | Some (JObject _) => true
  end.

(** [v.k] for one of the names [charts], [fileName], [dashboardTitle], which
    no prototype defines: [None] is [undefined]; reading a member of [null]
    throws. *)
Definition member (v : json) (k : string) : result (option json) :=
  match v with
  | JNull => TypeError
  | JObject o => Return (own o k)
  | _ => Return None
  end.


Section Restore.
(** [JSON.parse]: [None] when it throws a [SyntaxError]. *)
Variable JSON_parse : string → option json.
(** The state cells are typed and JavaScript stores the parsed value
    unchecked: [asCharts] and [asString] are the values the cells then
    hold. *)
Variable asCharts : json → list ChartConfig.
Variable asString : json → string.

(** The body of the [try] block. *)
Definition restore_from (savedState : json) (st : State) : result State :=
  c ← member savedState "charts";
  f ← member savedState "fileName";
  if json_truthy c && json_truthy f then
    let s1 := setCharts (from_option asCharts [] c) st in
    let s2 := setFileName (from_option asString "" f) s1 in
    t ← member savedState "dashboardTitle";
    let s3 := if json_truthy t
              then setDashboardTitle (from_option asString "" t) s2 else s2 in
    Return (setIsRestored true s3)
  else Return st.

(** The effect that runs when [isAuthenticated] changes.  Only the first
    member access can throw, before any cell is set; the [catch] removes the
    entry. *)
Definition restore (st : State) (ls : localStorage) : State * localStorage :=
  if negb (isAuthenticated st) then (st, ls)
  else
    match ls !! INSIGHTHUB_AUTOSAVE_KEY with
    | None => (st, ls)
    | Some savedStateJSON =>
        if bool_decide (savedStateJSON = "") then (st, ls)
        else
          match JSON_parse savedStateJSON with
          | None => (st, delete INSIGHTHUB_AUTOSAVE_KEY ls)
          | Some savedState =>
              match restore_from savedState st with
              | Return st' => (st', ls)
              | TypeError => (st, delete INSIGHTHUB_AUTOSAVE_KEY ls)
              end
          end
    end.

End Restore.

Definition handleLogout (st : State) (ls : localStorage)
  : State * localStorage :=
  (mkState false None [] [] "Untitled Dashboard" "" false
     (isBuilderOpen st) (editingChart st) (draggedChartType st),
   delete INSIGHTHUB_AUTOSAVE_KEY ls).

(** ** The chart form and the assistant *)

Definition setDraggedChartType v (st : State) : State :=
  mkState (isAuthenticated st) (data st) (columns st) (charts st)
    (dashboardTitle st) (fileName st) (isRestored st) (isBuilderOpen st)
    (editingChart st) v.

(** [charts.find(c => c.id === id)] is the first chart with that id. *)
Definition handleOpenEditModal (i : string) (st : State) : State :=
  match List.find (λ c, bool_decide (id c = i)) (charts st) with
  | Some chartToEdit =>
      setIsBuilderOpen true
        (setDraggedChartType None (setEditingChart (Some chartToEdit) st))
  | None => st
  end.

Definition handleCloseModal (st : State) : State :=
  setDraggedChartType None (setEditingChart None (setIsBuilderOpen false st)).

Definition chartTypes : list string :=
  ["Bar"; "Line"; "Area"; "Pie"; "Donut"; "Scatter"].

(** The chart type that a string spells (the cast
    [as ChartConfig['type']] of a member of [chartTypes]). *)
Definition ChartType_of_label (s : string) : option ChartType :=
  List.find (λ t, bool_decide (ChartType_label t = s))
    [Bar; Line; Area; Pie; Donut; Scatter].

(** [dataTransfer.getData(format)]: the empty string when nothing was set. *)
Definition getData (dataTransfer : DataTransfer) (format : string) : string :=
  default "" (dataTransfer !! format).

Definition handleChartDrop (dataTransfer : DataTransfer) (st : State) : State :=
  let chartType := getData dataTransfer "chartType" in
  if negb (bool_decide (chartType = "")) && bool_decide (chartType ∈ chartTypes)
  then
    match ChartType_of_label chartType with
    | Some t =>
        setIsBuilderOpen true
          (setEditingChart None (setDraggedChartType (Some t) st))
    | None => st
    end
  else st.

(** The form that [ChartConfigModal] shows for the cells [st]
    ([chartToEdit={editingChart}], [newChartType={draggedChartType}]). *)
Definition chartForm (st : State) : ChartConfigModal.Form :=
  ChartConfigModal.fillForm (editingChart st) (draggedChartType st).

(** [exportDashboard]: the name of the file it saves. *)
Definition exportDashboard (format : ExportFormat) (st : State) : string :=
  download_name
    (FileUtils.createSafeFileName (dashboardTitle st) (Some "dashboard"))
    format.

(** ** The page: the cells, the two storages and the toasts on display *)

Definition INSIGHTHUB_AUTH_KEY : string := "insighthub-auth".

Record Page := mkPage {
  page_cells : State;
  page_localStorage : localStorage;
  page_sessionStorage : sessionStorage;
  page_toasts : list (string * Toast.ToastType);
}.

Definition onCells (f : State → State) (p : Page) : Page :=
  mkPage (f (page_cells p)) (page_localStorage p) (page_sessionStorage p)
    (page_toasts p).

Definition addToast (message : string) (kind : Toast.ToastType) (p : Page)
  : Page :=
  mkPage (page_cells p) (page_localStorage p) (page_sessionStorage p)
    (page_toasts p ++ [(message, kind)]).

(** The cells of a freshly loaded page. *)
Definition initialState : State :=
  mkState false None [] [] "Untitled Dashboard" "" false false None None.

(** Loading the page: the cells start afresh over the two storages of the
    browser. *)
Definition load (ls : localStorage) (ss : sessionStorage) : Page :=
  mkPage initialState ls ss [].

Definition INSIGHTHUB_THEME_KEY : string := "insighthub-theme".

(** The first value of the theme cell:
    [localStorage.getItem(INSIGHTHUB_THEME_KEY) || 'dark']. *)
Definition initialTheme (ls : localStorage) : string :=
  match ls !! INSIGHTHUB_THEME_KEY with
  | Some theme => if bool_decide (theme = "") then "dark" else theme
  | None => "dark"
  end.

(** The theme effect on mount:
    [localStorage.setItem(INSIGHTHUB_THEME_KEY, theme)].  No handler of the
    page reads the theme cell. *)
Definition saveTheme (p : Page) : Page :=
  mkPage (page_cells p)
    (<[INSIGHTHUB_THEME_KEY := initialTheme (page_localStorage p)]>
       (page_localStorage p))
    (page_sessionStorage p) (page_toasts p).

(** The effect on mount:
    [setIsAuthenticated(sessionStorage.getItem(INSIGHTHUB_AUTH_KEY) === 'true')]. *)
Definition readLogin (p : Page) : Page :=
  onCells
    (setIsAuthenticated
       (bool_decide (page_sessionStorage p !! INSIGHTHUB_AUTH_KEY = Some "true")))
    p.

Definition handleLogin (user pass : string) (p : Page) : bool * Page :=
  if bool_decide (user = "admin") && bool_decide (pass = "admin") then
    (true,
     addToast "Login successful. Welcome!" Toast.success
       (mkPage (setIsAuthenticated true (page_cells p)) (page_localStorage p)
          (<[INSIGHTHUB_AUTH_KEY := "true"]> (page_sessionStorage p))
          (page_toasts p)))
  else (false, p).

(** [handleLogout] with its session entry and its toast. *)
Definition logout (p : Page) : Page :=
  let '(st, ls) := handleLogout (page_cells p) (page_localStorage p) in
  addToast "You have been logged out." Toast.info
    (mkPage st ls (delete INSIGHTHUB_AUTH_KEY (page_sessionStorage p))
       (page_toasts p)).

(** [<ChartConfigModal onClose={handleCloseModal} onSave={handleSaveChart}
    chartToEdit={editingChart} ... />]: the submit button of the form. *)
Definition submitChart (now : num) (form : ChartConfigModal.Form) (p : Page)
  : Page :=
  ChartConfigModal.handleSubmit addToast
    (λ config, onCells (handleSaveChart config)) (onCells handleCloseModal)
    (editingChart (page_cells p)) now form p.

(** [<AiAssistantModal onAddChart={(config) => handleSaveChart(config)} />]:
    the Add button of a suggestion. *)
Definition addSuggestion (now : num) (suggestion : ChartSuggestion)
    (st : State) : State :=
  AiAssistantModal.handleAddChart handleSaveChart now suggestion st.

(** ** The auto-save effect *)

(** A member of the enum as the string it is at run time. *)
Definition AggregationType_label (a : AggregationType) : option string :=
  match a with
  | Sum => Some "Sum"
  | Count => Some "Count"
  | Average => Some "Average"
  | OtherAggregation => None
  end.

(** A chart as the object that [handleSubmit] and [handleAddChart] build;
    there is none for an aggregation outside the enum, whose run-time value
    the type does not tell. *)
Definition chart_json (c : ChartConfig) : option json :=
  a ← AggregationType_label (aggregation c);
  Some (JObject [("id", JString (id c));
                 ("title", JString (title c));
                 ("type", JString (ChartType_label (type c)));
                 ("xAxis", JString (xAxis c));
                 ("yAxis", JString (yAxis c));
                 ("aggregation", JString a)]).

(** [{ charts, fileName, dashboardTitle }] *)
Definition dashboardState (st : State) : option json :=
  cs ← mapM chart_json (charts st);
  Some (JObject [("charts", JArray cs);
                 ("fileName", JString (fileName st));
                 ("dashboardTitle", JString (dashboardTitle st))]).

Section AutoSave.
Variable JSON_stringify : json → string.

(** What the debounced save writes once the cells have been quiet for a
    second; nothing while no data is loaded. *)
Definition autosave (st : State) (ls : localStorage) : option localStorage :=
  match data st with
  | None => Some ls
  | Some _ =>
      v ← dashboardState st;
      Some (<[INSIGHTHUB_AUTOSAVE_KEY := JSON_stringify v]> ls)
  end.

End AutoSave.

End Controller.
End App.

(** [src/components/Toolbox.tsx] *)
Module Toolbox.

Definition handleDragStart (chartType : ChartType)
    (dataTransfer : App.DataTransfer) : App.DataTransfer :=
  <["chartType" := App.ChartType_label chartType]> dataTransfer.

End Toolbox.

(** [src/components/ChartWidget.tsx] *)
Module ChartWidget.
Section Code.
Context `{Runtime}.

Definition chartData (config : ChartConfig) (data : list DataRow)
  : result (list DataRow) :=
  DataProcessor.aggregateData (Some data) (xAxis config) (yAxis config)
    (aggregation config).

(** [exportChart]: the name of the file it saves. *)
Definition exportChart (format : ExportFormat) (config : ChartConfig)
  : string :=
  download_name (FileUtils.createSafeFileName (title config) (Some "chart"))
    format.

End Code.
End ChartWidget.

(** [src/components/Login.tsx] *)
Module Login.
Import App.

Definition REMEMBER_ME_KEY : string := "insighthub-remember-me".

(** The [useState] cells of the form. *)
Record Form := mkForm {
  username : string;
  password : string;
  rememberMe : bool;
}.

Definition blank : Form := mkForm "" "" false.

Section Code.
Context `{Runtime}.

(** The effect on mount: a remembered user name fills the form. *)
Definition remember (p : Page) (form : Form) : Form :=
  match page_localStorage p !! REMEMBER_ME_KEY with
  | Some savedUsername =>
      if bool_decide (savedUsername = "") then form
      else mkForm savedUsername (password form) true
  | None => form
  end.

Definition setItem (k v : string) (p : Page) : Page :=
  mkPage (page_cells p) (<[k := v]> (page_localStorage p))
    (page_sessionStorage p) (page_toasts p).

Definition removeItem (k : string) (p : Page) : Page :=
  mkPage (page_cells p) (delete k (page_localStorage p))
    (page_sessionStorage p) (page_toasts p).

Definition handleSubmit (onLogin : string → string → Page → bool * Page)
    (form : Form) (p : Page) : Page :=
  if bool_decide (username form = "") || bool_decide (password form = "")
  then addToast "Please enter both username and password." Toast.error p
  else
    let '(success, p') := onLogin (username form) (password form) p in
    if success then
      if rememberMe form then setItem REMEMBER_ME_KEY (username form) p'
      else removeItem REMEMBER_ME_KEY p'
    else addToast "Invalid credentials. Please try again." Toast.error p'.

End Code.
End Login.

(* ================================================================= *)
(** * The page as a whole: what the rendered elements are wired to *)

Module Session.
Import App.

Section Code.
Context `{Runtime}.
Variable JSON_parse : string → option json.
Variable asCharts : json → list ChartConfig.
Variable asString : json → string.
Variable JSON_stringify : json → string.

(** What can happen on the page.  [AutoSave other] is the timer of the
    auto-save effect firing; [other] is the text of the snapshot where a
    chart has an aggregation outside the enum, whose spelling the cells do
    not keep.  The events are taken in any order, also where the page shows
    no element for them. *)
Inductive Event :=
  | Upload (name : string) (jsonData : list DataRow)
  | SubmitChart (now : num) (form : ChartConfigModal.Form)
  | AddSuggestion (now : num) (suggestion : ChartSuggestion)
  | RemoveChart (i : string)
  | EditChart (i : string)
  | CloseModal
  | DropChart (dataTransfer : DataTransfer)
  | ClearDashboard
  | RenameDashboard (title : string)
  | LogIn (form : Login.Form)
  | LogOut
  | AutoSave (other : string).

(** The restore effect runs when [isAuthenticated] has changed. *)
Definition restored (before : State) (p : Page) : Page :=
  if bool_decide (isAuthenticated before = isAuthenticated (page_cells p))
  then p
  else
    let '(st, ls) :=
      restore JSON_parse asCharts asString (page_cells p)
        (page_localStorage p) in
    mkPage st ls (page_sessionStorage p) (page_toasts p).

Definition dispatch (p : Page) (e : Event) : Page :=
  restored (page_cells p)
    match e with
    | Upload name jsonData => onCells (handleFileUpload name jsonData) p
    | SubmitChart now form => submitChart now form p
    | AddSuggestion now suggestion => onCells (addSuggestion now suggestion) p
    | RemoveChart i => onCells (removeChart i) p
    | EditChart i => onCells (handleOpenEditModal i) p
    | CloseModal => onCells handleCloseModal p
    | DropChart dataTransfer => onCells (handleChartDrop dataTransfer) p
    | ClearDashboard => onCells handleClearDashboard p
    | RenameDashboard title => onCells (setDashboardTitle title) p
    | LogIn form => Login.handleSubmit handleLogin form p
    | LogOut => logout p
    | AutoSave other =>
        match
          autosave JSON_stringify (page_cells p) (page_localStorage p)
        with
        | Some ls =>
            mkPage (page_cells p) ls (page_sessionStorage p) (page_toasts p)
        | None => Login.setItem INSIGHTHUB_AUTOSAVE_KEY other p
        end
    end.

(** The page once the effects on mount have run: the login is read from
    the session, the theme is saved, and the restore effect follows the
    login. *)
Definition mount (ls : localStorage) (ss : sessionStorage) : Page :=
  restored initialState (saveTheme (readLogin (load ls ss))).

(** The page after a load and the events that follow. *)
Definition run (ls : localStorage) (ss : sessionStorage) (events : list Event)
  : Page :=
  foldl dispatch (mount ls ss) events.

End Code.
End Session.

(* ================================================================= *)
(** * The restore effect on the cells as they are stored

    [App.restore] reads a snapshot through the types of the cells.  The
    setters themselves check nothing: [setCharts(savedState.charts)] stores
    whatever [JSON.parse] returned.  Here the three cells of the snapshot
    hold either a value of their type or such a value, and a statement
    completes normally or throws. *)

Module Startup.

(** [JSON.parse] throws a [SyntaxError]; reading a member of [null] and
    spreading a value that is not iterable throw a [TypeError]. *)
Inductive exn := SyntaxError | TypeError.

Inductive completion (A : Type) := Normal (a : A) | Thrown (e : exn).
Arguments Normal {A} a.
Arguments Thrown {A} e.

Global Instance completion_bind : MBind completion := λ A B k m,
  match m with Normal a => k a | Thrown e => Thrown e end.

Definition completes {A} (r : result A) : completion A :=
  match r with Return a => Normal a | JS.TypeError => Thrown TypeError end.

(** [try { body } catch (e) { handler }] *)
Definition try_catch {A} (body : completion A) (handler : exn → completion A)
  : completion A :=
  match body with Normal a => Normal a | Thrown e => handler e end.

Section Code.
Context `{Runtime}.

(** A cell of type [A]: a value of that type, or a member of the parsed
    snapshot stored as it was read ([None] is [undefined]). *)
Inductive Stored (A : Type) :=
  | Typed (a : A)
  | Parsed (v : option App.json).
Arguments Typed {A} a.
Arguments Parsed {A} v.

(** The cells that the restore effect reads and sets. *)
Record Cells := mkCells {
  isAuthenticated : bool;
  charts : Stored (list ChartConfig);
  fileName : Stored string;
  dashboardTitle : Stored string;
  isRestored : bool;
}.

Definition setCharts v (c : Cells) : Cells :=
  mkCells (isAuthenticated c) v (fileName c) (dashboardTitle c) (isRestored c).
Definition setFileName v (c : Cells) : Cells :=
  mkCells (isAuthenticated c) (charts c) v (dashboardTitle c) (isRestored c).
Definition setDashboardTitle v (c : Cells) : Cells :=
  mkCells (isAuthenticated c) (charts c) (fileName c) v (isRestored c).
Definition setIsRestored v (c : Cells) : Cells :=
  mkCells (isAuthenticated c) (charts c) (fileName c) (dashboardTitle c) v.

(** The cells when the restore effect first runs: the user is logged in
    and nothing is loaded. *)
Definition loggedIn : Cells :=
  mkCells true (Typed []) (Typed "") (Typed "Untitled Dashboard") false.

Section Restore.
Variable JSON_parse : string → option App.json.

(** The body of the [try] block. *)
Definition try_block (savedStateJSON : string) (c : Cells)
  : completion Cells :=
  savedState ←
    match JSON_parse savedStateJSON with
    | Some v => Normal v
    | None => Thrown SyntaxError
    end;
  savedCharts ← completes (App.member savedState "charts");
  savedFileName ← completes (App.member savedState "fileName");
  if App.json_truthy savedCharts && App.json_truthy savedFileName then
    let c1 := setCharts (Parsed savedCharts) c in
    let c2 := setFileName (Parsed savedFileName) c1 in
    savedTitle ← completes (App.member savedState "dashboardTitle");
    let c3 := if App.json_truthy savedTitle
              then setDashboardTitle (Parsed savedTitle) c2 else c2 in
    Normal (setIsRestored true c3)
  else Normal c.

(** The effect that runs when [isAuthenticated] changes; the [catch]
    removes the entry. *)
Definition restore (c : Cells) (ls : App.localStorage)
  : completion (Cells * App.localStorage) :=
  if negb (isAuthenticated c) then Normal (c, ls)
  else
    match ls !! App.INSIGHTHUB_AUTOSAVE_KEY with
    | None => Normal (c, ls)
    | Some savedStateJSON =>
        if bool_decide (savedStateJSON = "") then Normal (c, ls)
        else
          try_catch
            (c' ← try_block savedStateJSON c; Normal (c', ls))
            (λ _, Normal (c, delete App.INSIGHTHUB_AUTOSAVE_KEY ls))
    end.

End Restore.

(** [const sorted = [...charts]], the first statement of [sortedCharts],
    which every render evaluates after a change of the cell: an array gives
    its elements and a string its characters; no other value that
    [JSON.parse] returns is iterable. *)
Definition spread (v : Stored (list ChartConfig))
  : completion (list (Stored ChartConfig)) :=
  match v with
  | Typed l => Normal (Typed <$> l)
  | Parsed (Some (App.JArray l)) => Normal ((λ x, Parsed (Some x)) <$> l)
  | Parsed (Some (App.JString s)) =>
      Normal ((λ a, Parsed (Some (App.JString (String a ""))))
                <$> list_ascii_of_string s)
  | Parsed _ => Thrown TypeError
  end.

(** The cells of [App.State] that a stored cell stands for, read through
    the types as [App.restore] reads them. *)
Definition typed {A} (as_A : App.json → A) (absent : A) (v : Stored A) : A :=
  match v with
  | Typed a => a
  | Parsed j => from_option as_A absent j
  end.

Definition typed_state (asCharts : App.json → list ChartConfig)
    (asString : App.json → string) (c : Cells) (st : App.State) : App.State :=
  App.mkState (isAuthenticated c) (App.data st) (App.columns st)
    (typed asCharts [] (charts c)) (typed asString "" (dashboardTitle c))
    (typed asString "" (fileName c)) (isRestored c) (App.isBuilderOpen st)
    (App.editingChart st) (App.draggedChartType st).

End Code.

Arguments Typed {_ A} a.
Arguments Parsed {_ A} v.

End Startup.

(* ================================================================= *)
(** * An executable runtime

    Numbers are the kernel's binary64 floats, so [add], [sub], [div] and the
    comparisons are those of JavaScript.  [Number] reads the numeric
    literals of ECMAScript (decimal with fraction and exponent, [Infinity],
    hexadecimal, octal and binary integers) between white space, and
    [String] prints the shortest decimal that reads back as the same double.
    [localeCompare] collates by code unit, which is the order of the root
    locale on strings of digits and ASCII letters of one case.  Strings are
    sequences of 8-bit code units. *)

Module Engine.
Import App.

(** The double nearest to [n / d] (ties to even). *)
Definition nearest (neg : bool) (n d : positive) : float :=
  let '(q, e, l) := SFdiv_core_binary prec emax (Zpos n) 0 (Zpos d) 0 in
  SF2Prim (binary_round_aux prec emax neg q e l).

Definition of_Z (neg : bool) (z : Z) : float :=
  match z with
  | Zpos p => nearest neg p 1
  | _ => if neg then neg_zero else PrimFloat.zero
  end.

Definition E_ofNat (n : nat) : float := of_Z false (Z.of_nat n).

Definition E_toBoolean (x : float) : bool :=
  negb (PrimFloat.is_nan x || PrimFloat.eqb x 0).

Definition E_sign (x : float) : comparison :=
  if PrimFloat.ltb x 0 then Lt else if PrimFloat.ltb 0 x then Gt else Eq.

(** ** Reading numbers *)

Definition digit_of (radix : N) (a : ascii) : option N :=
  let c := N_of_ascii a in
  let v :=
    if (48 <=? c)%N && (c <=? 57)%N then Some (c - 48)%N
    else if (97 <=? c)%N && (c <=? 122)%N then Some (c - 87)%N
    else if (65 <=? c)%N && (c <=? 90)%N then Some (c - 55)%N
    else None in
  match v with
  | Some d => if (d <? radix)%N then Some d else None
  | None => None
  end.

(** The longest prefix of digits, as (value, number of digits), and the rest. *)
Fixpoint span_digits (radix : N) (s : string) (acc : N) (len : nat)
  : N * nat * string :=
  match s with
  | String a s' =>
      match digit_of radix a with
      | Some d => span_digits radix s' (acc * radix + d)%N (S len)
      | None => (acc, len, s)
      end
  | EmptyString => (acc, len, s)
  end.

(** The white space and line terminators among the 8-bit code units: tab
    to carriage return, the space and the no-break space. *)
Definition is_space (a : ascii) : bool :=
  let c := N_of_ascii a in
  (c =? 32)%N || ((9 <=? c)%N && (c <=? 13)%N) || (c =? 160)%N.

Fixpoint trim_left (s : string) : string :=
  match s with
  | String a s' => if is_space a then trim_left s' else s
  | EmptyString => s
  end.

Definition trim (s : string) : string :=
  String.rev (trim_left (String.rev (trim_left s))).

Definition take_sign (s : string) : bool * string :=
  match s with
  | String "-" s' => (true, s')
  | String "+" s' => (false, s')
  | _ => (false, s)
  end.

(** [m * 10 ^ e] as a double.  A [p] of [bits] binary digits lies between
    [10 ^ ((bits - 1) / 4)] and [10 ^ (bits / 3 + 1)]: beyond [10 ^ 400] the
    double is an infinity and below [10 ^ -400] a zero, and the division is
    only carried out in between. *)
Definition scale10 (neg : bool) (m : N) (e : Z) : float :=
  match m with
  | N0 => if neg then neg_zero else PrimFloat.zero
  | Npos p =>
      let bits := Z.of_nat (Pos.size_nat p) in
      if (400 <? (bits - 1) / 4 + e)%Z
      then (if neg then neg_infinity else infinity)
      else if (bits / 3 + 1 + e <? -400)%Z
      then (if neg then neg_zero else PrimFloat.zero)
      else
        match e with
        | Zneg k => nearest neg p (10 ^ k)%positive
        | Z0 => nearest neg p 1
        | Zpos k => nearest neg (p * 10 ^ k)%positive 1
        end
  end.

Definition exponent_part (s : string) : option Z :=
  match s with
  | EmptyString => Some 0%Z
  | String c s' =>
      if bool_decide (c = "e"%char) || bool_decide (c = "E"%char) then
        let '(neg, s'') := take_sign s' in
        match span_digits 10 s'' 0 0 with
        | (_, O, _) => None
        | (v, _, EmptyString) =>
            Some (if neg then (- Z.of_N v)%Z else Z.of_N v)
        | _ => None
        end
      else None
  end.

Definition decimal_literal (neg : bool) (s : string) : float :=
  let '(ip, li, r1) := span_digits 10 s 0 0 in
  let '(m, lf, r2) :=
    match r1 with
    | String "." r => let '(m, l, r') := span_digits 10 r ip li in
                      (m, (l - li)%nat, r')
    | _ => (ip, O, r1)
    end in
  match (li + lf)%nat with
  | O => nan
  | S _ =>
      match exponent_part r2 with
      | Some e => scale10 neg m (e - Z.of_nat lf)
      | None => nan
      end
  end.

Definition radix_literal (radix : N) (s : string) : float :=
  match span_digits radix s 0 0 with
  | (_, O, _) => nan
  | (v, _, EmptyString) => of_Z false (Z.of_N v)
  | _ => nan
  end.

Definition E_stringToNumber (s : string) : float :=
  match trim s with
  | EmptyString => PrimFloat.zero
  | String "0" (String "x" r) | String "0" (String "X" r) => radix_literal 16 r
  | String "0" (String "o" r) | String "0" (String "O" r) => radix_literal 8 r
  | String "0" (String "b" r) | String "0" (String "B" r) => radix_literal 2 r
  | t =>
      let '(neg, r) := take_sign t in
      if bool_decide (r = "Infinity")
      then (if neg then neg_infinity else infinity)
      else decimal_literal neg r
  end.

Definition E_parseInt (s : string) : float :=
  let '(neg, r) := take_sign (trim_left s) in
  let '(radix, r) :=
    match r with
    | String "0" (String "x" r') | String "0" (String "X" r') => (16%N, r')
    | _ => (10%N, r)
    end in
  match span_digits radix r 0 0 with
  | (_, O, _) => nan
  | (v, _, _) => of_Z neg (Z.of_N v)
  end.

(** ** Printing numbers: Number::toString *)

(** [10 ^ (n - 1) <= a / b < 10 ^ n], found by stepping from a guess. *)
Definition pow10_le (n : Z) (a b : Z) : bool :=
  (* 10 ^ n <= a / b *)
  match n with
  | Zneg k => (b <=? a * 10 ^ Zpos k)%Z
  | _ => (b * 10 ^ n <=? a)%Z
  end.

Fixpoint magnitude_up (fuel : nat) (n : Z) (a b : Z) : Z :=
  match fuel with
  | O => n
  | S f => if pow10_le n a b then magnitude_up f (n + 1) a b else n
  end.

Fixpoint magnitude_down (fuel : nat) (n : Z) (a b : Z) : Z :=
  match fuel with
  | O => n
  | S f => if pow10_le (n - 1) a b then n else magnitude_down f (n - 1) a b
  end.

Definition magnitude (a b : Z) : Z :=
  let guess := ((Z.log2 a - Z.log2 b) * 3 / 10)%Z in
  magnitude_down 8 (magnitude_up 8 guess a b) a b.

(** Rationals as pairs, compared by cross multiplication. *)
Definition q_le (x y : Z * Z) : bool := (x.1 * y.2 <=? y.1 * x.2)%Z.
Definition q_lt (x y : Z * Z) : bool := (x.1 * y.2 <? y.1 * x.2)%Z.
Definition q_dist (x y : Z * Z) : Z * Z :=
  (Z.abs (x.1 * y.2 - y.1 * x.2), x.2 * y.2)%Z.

(** [s * 10 ^ e] as a rational. *)
Definition dec (s : Z) (e : Z) : Z * Z :=
  match e with
  | Zneg k => (s, 10 ^ Zpos k)%Z
  | _ => (s * 10 ^ e, 1)%Z
  end.

(** The shortest digit string [s] (with [k] digits) and exponent [n] such
    that [s * 10 ^ (n - k)] lies in the rounding interval [lo, hi] of [v];
    among the candidates of that length, the one nearest to [v]. *)
Fixpoint shortest (fuel : nat) (k : Z) (n : Z) (v lo hi : Z * Z)
    (closed : bool) : Z * Z * Z :=
  let e := (n - k)%Z in
  let s0 :=
    match e with
    | Zneg j => (v.1 * 10 ^ Zpos j / v.2)%Z
    | _ => (v.1 / (v.2 * 10 ^ e))%Z
    end in
  let inside x := if closed then q_le lo x && q_le x hi
                  else q_lt lo x && q_lt x hi in
  let c0 := dec s0 e in
  let c1 := dec (s0 + 1) e in
  let pick :=
    match inside c0 && (0 <? s0)%Z, inside c1 with
    | true, true =>
        let d0 := q_dist c0 v in
        let d1 := q_dist c1 v in
        if q_lt d0 d1 then Some s0
        else if q_lt d1 d0 then Some (s0 + 1)%Z
        else Some (if Z.even s0 then s0 else (s0 + 1)%Z)
    | true, false => Some s0
    | false, true => Some (s0 + 1)%Z
    | false, false => None
    end in
  match pick, fuel with
  | Some s, _ =>
      if (s =? 10 ^ k)%Z then (10 ^ (k - 1), k, n + 1)%Z else (s, k, n)
  | None, S f => shortest f (k + 1) n v lo hi closed
  | None, O => (s0, k, n)
  end.

Fixpoint zeros (n : nat) : string :=
  match n with O => "" | S n' => String "0" (zeros n') end.

Definition take_str (n : nat) (s : string) : string := String.substring 0 n s.
Definition drop_str (n : nat) (s : string) : string :=
  String.substring n (String.length s - n) s.

Definition format (digits : string) (k n : Z) : string :=
  if (k <=? n)%Z && (n <=? 21)%Z then
    digits +:+ zeros (Z.to_nat (n - k))
  else if (0 <? n)%Z && (n <=? 21)%Z then
    take_str (Z.to_nat n) digits +:+ "." +:+ drop_str (Z.to_nat n) digits
  else if (-6 <? n)%Z && (n <=? 0)%Z then
    "0." +:+ zeros (Z.to_nat (- n)) +:+ digits
  else
    let e := (n - 1)%Z in
    let es := (if (e <? 0)%Z then "-" else "+") +:+ pretty (Z.to_N (Z.abs e)) in
    if (k =? 1)%Z then digits +:+ "e" +:+ es
    else take_str 1 digits +:+ "." +:+ drop_str 1 digits +:+ "e" +:+ es.

(** [m * 2 ^ e] as a rational. *)
Definition bin (m : Z) (e : Z) : Z * Z :=
  match e with
  | Zneg k => (m, 2 ^ Zpos k)%Z
  | _ => (m * 2 ^ e, 1)%Z
  end.

Definition mid (x y : Z * Z) : Z * Z :=
  (x.1 * y.2 + y.1 * x.2, 2 * x.2 * y.2)%Z.

Definition E_numToString (x : float) : string :=
  match Prim2SF x with
  | S754_nan => "NaN"
  | S754_zero _ => "0"
  | S754_infinity s => if s then "-Infinity" else "Infinity"
  | S754_finite s m e =>
      let v := bin (Zpos m) e in
      (* the neighbours of [v]; below a power of two the gap halves *)
      let up := bin (Zpos m + 1) e in
      let down :=
        if (Zpos m =? 2 ^ 52)%Z && (SpecFloat.emin prec emax <? e)%Z
        then bin (2 * Zpos m - 1) (e - 1)
        else bin (Zpos m - 1) e in
      let '(d, k, n) :=
        shortest 20 1 (magnitude v.1 v.2) v (mid down v) (mid v up)
          (Z.even (Zpos m)) in
      (if s then "-" else "") +:+ format (pretty (Z.to_N d)) k n
  end.

(** ** Collation *)

Definition E_localeCompare (a b : string) : float :=
  match String.compare a b with
  | Lt => (-1)%float
  | Eq => 0%float
  | Gt => 1%float
  end.

(** ** [Object.prototype]

    A built-in function converts to its source text, here in the form V8
    prints it; the prototype object itself converts to [[object Object]]. *)

Definition native (name : string) : builtin :=
  Builtin ("function " +:+ name +:+ "() { [native code] }") false.

Definition E_objectPrototype (k : string) : option builtin :=
  if bool_decide (k = "__proto__") then Some (Builtin "[object Object]" true)
  else if bool_decide (k = "constructor") then Some (native "Object")
  else if bool_decide (k ∈ ["toString"; "toLocaleString"; "valueOf";
                            "hasOwnProperty"; "isPrototypeOf";
                            "propertyIsEnumerable"; "__defineGetter__";
                            "__defineSetter__"; "__lookupGetter__";
                            "__lookupSetter__"])
  then Some (native k)
  else None.

(** ** Array-index keys: the canonical decimals below [2 ^ 32 - 1] *)

Definition E_arrayIndex (k : string) : option N :=
  match span_digits 10 k 0 0 with
  | (_, O, _) => None
  | (v, _, EmptyString) =>
      if bool_decide (pretty v = k) && (v <? 4294967295)%N then Some v else None
  | _ => None
  end.

Global Instance runtime : Runtime := {|
  num := float;
  NaN := nan;
  ofNat := E_ofNat;
  add := PrimFloat.add;
  sub := PrimFloat.sub;
  div := PrimFloat.div;
  isNaN := PrimFloat.is_nan;
  toBoolean := E_toBoolean;
  sign := E_sign;
  numToString := E_numToString;
  stringToNumber := E_stringToNumber;
  parseInt := E_parseInt;
  localeCompare := E_localeCompare;
  objectPrototype := E_objectPrototype;
  arrayIndex := E_arrayIndex;
|}.

(** ** [JSON.parse]

    A recursive-descent reader of JSON texts.  [fuel] bounds the nesting of
    calls; [JSON_parse] supplies more than a text can use.  An escape
    [\uXXXX] beyond one 8-bit code unit is not supported: the reader
    rejects the text. *)

Definition quote : ascii := "034"%char.
Definition backslash : ascii := "092"%char.

Definition is_ws (a : ascii) : bool :=
  let c := N_of_ascii a in
  (c =? 32)%N || (c =? 9)%N || (c =? 10)%N || (c =? 13)%N.

Fixpoint skip_ws (s : string) : string :=
  match s with
  | String a s' => if is_ws a then skip_ws s' else s
  | EmptyString => s
  end.

(** Drops the prefix [p] of [s]. *)
Fixpoint strip (p s : string) : option string :=
  match p, s with
  | EmptyString, _ => Some s
  | String a p', String b s' => if bool_decide (a = b) then strip p' s' else None
  | _, _ => None
  end.

Definition unescape (e : ascii) : option ascii :=
  if bool_decide (e = quote) then Some quote
  else if bool_decide (e = backslash) then Some backslash
  else if bool_decide (e = "/"%char) then Some "/"%char
  else if bool_decide (e = "b"%char) then Some "008"%char
  else if bool_decide (e = "f"%char) then Some "012"%char
  else if bool_decide (e = "n"%char) then Some "010"%char
  else if bool_decide (e = "r"%char) then Some "013"%char
  else if bool_decide (e = "t"%char) then Some "009"%char
  else None.

Definition hex4 (a b c d : ascii) : option ascii :=
  match digit_of 16 a, digit_of 16 b, digit_of 16 c, digit_of 16 d with
  | Some 0%N, Some 0%N, Some z, Some w => Some (ascii_of_N (z * 16 + w))
  | _, _, _, _ => None
  end.

(** The characters of a string literal after its opening quote, and the
    text behind the closing one. *)
Fixpoint string_body (s : string) (acc : list ascii)
  : option (string * string) :=
  match s with
  | EmptyString => None
  | String c s' =>
      if bool_decide (c = quote)
      then Some (string_of_list_ascii (rev acc), s')
      else if bool_decide (c = backslash) then
        match s' with
        | String "u" (String a (String b (String c' (String d r)))) =>
            match hex4 a b c' d with
            | Some x => string_body r (x :: acc)
            | None => None
            end
        | String e r =>
            match unescape e with
            | Some x => string_body r (x :: acc)
            | None => None
            end
        | EmptyString => None
        end
      else if (N_of_ascii c <? 32)%N then None
      else string_body s' (c :: acc)
  end.

(** A number: [-? (0 | [1-9] digit* ) (. digit+)? ([eE] [+-]? digit+)?] *)
Definition number (s : string) : option (float * string) :=
  let '(neg, r) :=
    match s with String "-" r => (true, r) | _ => (false, s) end in
  let '(ip, li, r1) := span_digits 10 r 0 0 in
  let leading_zero :=
    match r with String "0" _ => true | _ => false end in
  if (li =? 0)%nat || (leading_zero && negb (li =? 1)%nat) then None
  else
    let frac :=
      match r1 with
      | String "." r2 =>
          let '(m, l, r3) := span_digits 10 r2 ip li in
          if (l =? li)%nat then None else Some (m, l, (l - li)%nat, r3)
      | _ => Some (ip, li, O, r1)
      end in
    match frac with
    | None => None
    | Some (m, _, lf, r3) =>
        match r3 with
        | String c r4 =>
            if bool_decide (c = "e"%char) || bool_decide (c = "E"%char) then
              let '(eneg, r5) := take_sign r4 in
              match span_digits 10 r5 0 0 with
              | (_, O, _) => None
              | (e, _, r6) =>
                  let e := if eneg then (- Z.of_N e)%Z else Z.of_N e in
                  Some (scale10 neg m (e - Z.of_nat lf), r6)
              end
            else Some (scale10 neg m (- Z.of_nat lf), r3)
        | EmptyString => Some (scale10 neg m (- Z.of_nat lf), r3)
        end
    end.

Fixpoint value (fuel : nat) (s : string) : option (json * string) :=
  match fuel with
  | O => None
  | S fuel =>
      match skip_ws s with
      | String "[" r =>
          match skip_ws r with
          | String "]" r' => Some (JArray [], r')
          | _ => elements fuel r []
          end
      | String "{" r =>
          match skip_ws r with
          | String "}" r' => Some (JObject [], r')
          | _ => members fuel r []
          end
      | String c r =>
          if bool_decide (c = quote) then
            match string_body r [] with
            | Some (str, r') => Some (JString str, r')
            | None => None
            end
          else
            match strip "null" (String c r), strip "true" (String c r),
                  strip "false" (String c r) with
            | Some r', _, _ => Some (JNull, r')
            | _, Some r', _ => Some (JBool true, r')
            | _, _, Some r' => Some (JBool false, r')
            | _, _, _ =>
                match number (String c r) with
                | Some (x, r') => Some (JNumber x, r')
                | None => None
                end
            end
      | EmptyString => None
      end
  end
with elements (fuel : nat) (s : string) (acc : list json)
  : option (json * string) :=
  match fuel with
  | O => None
  | S fuel =>
      match value fuel s with
      | Some (v, r) =>
          match skip_ws r with
          | String "," r' => elements fuel r' (v :: acc)
          | String "]" r' => Some (JArray (rev (v :: acc)), r')
          | _ => None
          end
      | None => None
      end
  end
with members (fuel : nat) (s : string) (acc : list (string * json))
  : option (json * string) :=
  match fuel with
  | O => None
  | S fuel =>
      match skip_ws s with
      | String c r =>
          if bool_decide (c = quote) then
            match string_body r [] with
            | Some (k, r1) =>
                match skip_ws r1 with
                | String ":" r2 =>
                    match value fuel r2 with
                    | Some (v, r3) =>
                        match skip_ws r3 with
                        | String "," r4 => members fuel r4 (define acc k v)
                        | String "}" r4 => Some (JObject (define acc k v), r4)
                        | _ => None
                        end
                    | None => None
                    end
                | _ => None
                end
            | None => None
            end
          else None
      | EmptyString => None
      end
  end.

Definition JSON_parse (text : string) : option json :=
  match value (2 * String.length text + 2) text with
  | Some (v, r) =>
      match skip_ws r with
      | EmptyString => Some v
      | _ => None
      end
  | None => None
  end.

(** ** The typed reading of a stored snapshot *)

Definition asString (v : json) : string :=
  match v with JString s => s | _ => "" end.

Definition field (o : list (string * json)) (k : string) : string :=
  from_option asString "" (own o k).

Definition asChartType (s : string) : ChartType :=
  if bool_decide (s = "Line") then Line
  else if bool_decide (s = "Area") then Area
  else if bool_decide (s = "Pie") then Pie
  else if bool_decide (s = "Donut") then Donut
  else if bool_decide (s = "Scatter") then Scatter
  else Bar.

Definition asAggregation (s : string) : AggregationType :=
  if bool_decide (s = "Sum") then Sum
  else if bool_decide (s = "Count") then Count
  else if bool_decide (s = "Average") then Average
  else OtherAggregation.

Definition asChart (v : json) : ChartConfig :=
  match v with
  | JObject o =>
      mkChartConfig (field o "id") (field o "title")
        (asChartType (field o "type")) (field o "xAxis") (field o "yAxis")
        (asAggregation (field o "aggregation"))
  | _ => mkChartConfig "" "" Bar "" "" OtherAggregation
  end.

Definition asCharts (v : json) : list ChartConfig :=
  match v with JArray l => asChart <$> l | _ => [] end.

(** A snapshot as the auto-save writes it. *)
Definition quoted (s : string) : string :=
  String quote s +:+ String quote "".

Definition snapshot_text : string :=
  "{" +:+ quoted "charts" +:+ ":[{" +:+
    quoted "id" +:+ ":" +:+ quoted "1700000000000" +:+ "," +:+
    quoted "title" +:+ ":" +:+ quoted "Sales by region" +:+ "," +:+
    quoted "type" +:+ ":" +:+ quoted "Bar" +:+ "," +:+
    quoted "xAxis" +:+ ":" +:+ quoted "Region" +:+ "," +:+
    quoted "yAxis" +:+ ":" +:+ quoted "Sales" +:+ "," +:+
    quoted "aggregation" +:+ ":" +:+ quoted "Sum" +:+ "}]," +:+
  quoted "fileName" +:+ ":" +:+ quoted "sales.xlsx" +:+ "," +:+
  quoted "dashboardTitle" +:+ ":" +:+ quoted "Q1" +:+ "}".

(** ** [JSON.stringify]

    [QuoteJSONString] escapes the quote, the backslash and the control
    characters; every other code unit stands for itself.  A number that is
    not finite is written as [null]. *)

Definition hex_digit (n : N) : ascii :=
  if (n <? 10)%N then ascii_of_N (48 + n) else ascii_of_N (87 + n).

Definition escape (a : ascii) : string :=
  let c := N_of_ascii a in
  if bool_decide (a = quote) then String backslash (String quote "")
  else if bool_decide (a = backslash) then String backslash (String backslash "")
  else if (c =? 8)%N then String backslash "b"
  else if (c =? 12)%N then String backslash "f"
  else if (c =? 10)%N then String backslash "n"
  else if (c =? 13)%N then String backslash "r"
  else if (c =? 9)%N then String backslash "t"
  else if (c <? 32)%N then
    String backslash
      (String "u" (String "0" (String "0"
         (String (hex_digit (c / 16)) (String (hex_digit (c mod 16)) "")))))
  else String a "".

Fixpoint escaped (s : string) : string :=
  match s with
  | EmptyString => EmptyString
  | String a s' => escape a +:+ escaped s'
  end.

Definition QuoteJSONString (s : string) : string :=
  String quote (escaped s +:+ String quote "").

(** [texts.join(sep)] *)
Fixpoint join (sep : string) (texts : list string) : string :=
  match texts with
  | [] => ""
  | [text] => text
  | text :: texts' => text +:+ sep +:+ join sep texts'
  end.

Fixpoint JSON_stringify (v : json) : string :=
  match v with
  | JNull => "null"
  | JBool b => if b then "true" else "false"
  | JNumber n => if PrimFloat.is_finite n then E_numToString n else "null"
  | JString s => QuoteJSONString s
  | JArray l => "[" +:+ join "," (List.map JSON_stringify l) +:+ "]"
  | JObject o =>
      "{" +:+
      join ","
        (List.map (λ p, let '(k, v') := p in
                        QuoteJSONString k +:+ ":" +:+ JSON_stringify v') o)
      +:+ "}"
  end.

(** ** Reading back what [JSON.stringify] wrote *)

(** The text of one member of an object. *)
Definition member_text (p : string * json) : string :=
  let '(k, v) := p in QuoteJSONString k +:+ ":" +:+ JSON_stringify v.

(** One more member read. *)
Definition put (acc : list (string * json)) (p : string * json)
  : list (string * json) :=
  define acc p.1 p.2.

(** The text of [v] reads back as [v], whatever follows it, with [k] levels
    of fuel or more; and it opens with a character that starts a value. *)
Definition reads_back (k : nat) (v : json) : Prop :=
  (∀ fuel rest, (k ≤ fuel)%nat →
     value fuel (JSON_stringify v +:+ rest) = Some (v, rest)) ∧
  (∃ c t, JSON_stringify v = String c t ∧ is_ws c = false
          ∧ c ≠ "]"%char ∧ c ≠ "}"%char).

End Engine.

(* ================================================================= *)
(** * Vocabulary of the statements *)

Section Vocabulary.
Context `{Runtime}.

(** The group key of a row: [String(row[groupBy])]. *)
Definition key_of (groupBy : string) (row : DataRow) : string :=
  ToString (get row groupBy).

(** The measure of a row: [Number(row[valueColumn])]. *)
Definition measure_of (valueColumn : string) (row : DataRow) : num :=
  ToNumber (get row valueColumn).

(** The numeric pool of a group: the measures of its rows that are numbers,
    in row order. *)
Definition pool (groupBy valueColumn key : string) (rows : list DataRow)
  : list num :=
  filter (λ v, ¬ isNaN v)
    (measure_of valueColumn <$> filter (λ row, key_of groupBy row = key) rows).

(** The number of rows of a group. *)
Definition occurrences (groupBy key : string) (rows : list DataRow) : nat :=
  length (filter (λ row, key_of groupBy row = key) rows).

(** A key that names a member of [Object.prototype]. *)
Definition inherited (k : string) : Prop := is_Some (objectPrototype k).

(** What a row adds to the numeric pool of its group. *)
Definition numeric (valueColumn : string) (row : DataRow) : list num :=
  if isNaN (measure_of valueColumn row) then [] else [measure_of valueColumn row].

(** The state of the grouping loop after [rows]: one entry per group key
    that is not an inherited name, holding the numeric pool of the group. *)
Record grouped_ok (groupBy valueColumn : string) (rows : list DataRow)
    (grouped : obj (list num)) : Prop := {
  ok_nodup : NoDup grouped.*1;
  ok_keys : ∀ k, k ∈ grouped.*1 ↔
              ¬ inherited k ∧ ∃ row, row ∈ rows ∧ key_of groupBy row = k;
  ok_pool : ∀ k vs, (k, vs) ∈ grouped → vs = pool groupBy valueColumn k rows;
}.

(** The rows on which the grouping loop throws: the group key names an
    inherited member and the measure is a number. *)
Definition throws_on (groupBy valueColumn : string) (rows : list DataRow)
  : Prop :=
  ∃ row, row ∈ rows ∧ inherited (key_of groupBy row)
         ∧ isNaN (measure_of valueColumn row) = false.

(** The order [localeCompare] puts on strings. *)
Definition locale_le (a b : string) : Prop := sign (localeCompare a b) ≠ Gt.

(** A consistent comparison function, as ECMAScript requires of
    [localeCompare]: swapping the arguments flips the sign, and the order is
    transitive. *)
Definition consistent {A} (cmp : A → A → num) : Prop :=
  (∀ a b, sign (cmp a b) = CompOpp (sign (cmp b a))) ∧
  (∀ a b c, sign (cmp a b) ≠ Gt → sign (cmp b c) ≠ Gt → sign (cmp a c) ≠ Gt).

(** With distinct columns the final [sort] orders the groups by
    [localeCompare] of their keys. *)
Definition by_key {V} (p q : string * V) : bool :=
  is_Gt (sign (localeCompare p.1 q.1)).

(** The groups with their reduced values. *)
Definition reduced (kind : AggregationType) (p : string * list num)
  : string * num := (p.1, reduce kind p.2).

(** Counting is exact up to [n]: adding one steps to the next integer, and
    positive counts are truthy.  On doubles this holds below [2 ^ 53]. *)
Definition counting_exact (n : nat) : Prop :=
  ∀ c, (c < n)%nat →
    add (ofNat c) one = ofNat (S c) ∧ toBoolean (ofNat (S c)) = true.

(** The state of the counting loop after [rows], when no key is an
    inherited name. *)
Record counts_ok (g : string) (rows : list DataRow) (counts : obj cell)
  : Prop := {
  c_nodup : NoDup counts.*1;
  c_keys : ∀ k, k ∈ counts.*1 ↔ ∃ row, row ∈ rows ∧ key_of g row = k;
  c_count : ∀ k c, (k, c) ∈ counts → c = CNum (ofNat (occurrences g k rows));
}.

End Vocabulary.

(* ================================================================= *)
(** * Vocabulary of the properties of the components *)

(** A code unit that [createSafeFileName] lets through: a lower-case ASCII
    letter, a digit or the underscore. *)
Definition file_safe (a : ascii) : bool :=
  let c := N_of_ascii a in
  ((97 <=? c)%N && (c <=? 122)%N) || ((48 <=? c)%N && (c <=? 57)%N)
  || (c =? 95)%N.

(** Every code unit of [s] passes [P]. *)
Fixpoint all_chars (P : ascii → bool) (s : string) : bool :=
  match s with
  | EmptyString => true
  | String a s' => P a && all_chars P s'
  end.

(** The extension of a download. *)
Definition extension (format : ExportFormat) : string :=
  match format with png => "png" | pdf => "pdf" end.

Section ComponentVocabulary.
Context `{Runtime}.

(** The chart that the form submits under the id [i]. *)
Definition submitted (i : string) (form : ChartConfigModal.Form)
  : ChartConfig :=
  mkChartConfig i (ChartConfigModal.form_title form)
    (ChartConfigModal.form_chartType form) (ChartConfigModal.form_xAxis form)
    (ChartConfigModal.form_yAxis form) (ChartConfigModal.form_aggregation form).

(** The chart that the assistant adds at the time [now]. *)
Definition suggested (now : num) (suggestion : ChartSuggestion) : ChartConfig :=
  mkChartConfig (numToString now) (suggestion_title suggestion)
    (suggestion_type suggestion) (suggestion_xAxis suggestion)
    (suggestion_yAxis suggestion) (suggestion_aggregation suggestion).

(** The form passes the check of [handleSubmit]. *)
Definition filled (form : ChartConfigModal.Form) : Prop :=
  ChartConfigModal.form_title form ≠ "" ∧
  ChartConfigModal.form_xAxis form ≠ "" ∧
  ChartConfigModal.form_yAxis form ≠ "".

(** The toast of a rejected chart form. *)
Definition rejected (p : App.Page) : App.Page :=
  App.addToast "Please fill out all fields: Title, X-Axis, and Y-Axis."
    Toast.error p.

(** The cells of the chart form. *)
Definition modal_cells (st : App.State)
  : bool * option ChartConfig * option ChartType :=
  (App.isBuilderOpen st, App.editingChart st, App.draggedChartType st).

(** While a chart is being edited the form is open and no chart type is
    being dragged. *)
Definition modal_ok (st : App.State) : Prop :=
  is_Some (App.editingChart st) →
  App.isBuilderOpen st = true ∧ App.draggedChartType st = None.

(** The comparator of the sort by chart type, as [sort] reads it. *)
Definition type_asc (a b : ChartConfig) : bool :=
  is_Gt (sign (localeCompare (App.ChartType_label (type a))
                 (App.ChartType_label (type b)))).

(** The sort options that [sortedCharts] knows. *)
Definition sortOptions : list string :=
  ["date-asc"; "date-desc"; "title-asc"; "title-desc"; "type-asc"].

End ComponentVocabulary.

(* ================================================================= *)
(** * Stable sorting *)

Section StableSort.
Context {A : Type} (after : A → A → bool).

Lemma insert_by_perm x l : insert_by after x l ≡ₚ x :: l.
Proof.
  induction l as [|y l IH]; simpl; [done|].
  destruct (after x y); [|done].
  rewrite IH. apply perm_swap.
Qed.

Lemma stable_sort_perm l : stable_sort after l ≡ₚ l.
Proof.
  induction l as [|x l IH]; simpl; [done|].
  unfold stable_sort in *. simpl. rewrite insert_by_perm. by f_equiv.
Qed.

Lemma stable_sort_elem x l : x ∈ stable_sort after l ↔ x ∈ l.
Proof. by rewrite stable_sort_perm. Qed.

Lemma stable_sort_length l : length (stable_sort after l) = length l.
Proof. by rewrite stable_sort_perm. Qed.

Lemma stable_sort_cons x l :
  stable_sort after (x :: l) = insert_by after x (stable_sort after l).
Proof. done. Qed.

Section Ordered.
(** The comparator is consistent: it never puts two elements behind each
    other, and "may stand before" is transitive. *)
Hypothesis after_asym : ∀ a b, after a b = true → after b a = false.
Hypothesis before_trans :
  ∀ a b c, before after a b → before after b c → before after a c.

Lemma insert_by_sorted x l :
  StronglySorted (before after) l →
  StronglySorted (before after) (insert_by after x l).
Proof.
  induction 1 as [|y l Hl IH Hy]; simpl.
  { repeat constructor. }
  destruct (after x y) eqn:Hxy.
  - constructor; [done|].
    rewrite insert_by_perm. constructor; [|done].
    by apply after_asym.
  - constructor; [by constructor|].
    constructor; [done|].
    eapply Forall_impl; [exact Hy|]. intros z Hz. by eapply before_trans.
Qed.

Lemma stable_sort_sorted l :
  StronglySorted (before after) (stable_sort after l).
Proof.
  induction l as [|x l IH]; [constructor|].
  rewrite stable_sort_cons. by apply insert_by_sorted.
Qed.

(** Two lists with the same elements, none of which tie, sort to the same
    list. *)
Lemma stable_sort_unique l l' :
  l ≡ₚ l' →
  (∀ x y, x ∈ l → y ∈ l → before after x y → before after y x → x = y) →
  stable_sort after l = stable_sort after l'.
Proof.
  intros Hp Hanti.
  apply (StronglySorted_unique_strong (before after)).
  - intros x y Hx Hy. rewrite stable_sort_elem in Hx, Hy.
    rewrite <-Hp in Hy. by apply Hanti.
  - apply stable_sort_sorted.
  - apply stable_sort_sorted.
  - by rewrite !stable_sort_perm.
Qed.

(** A sorted list is left alone. *)
Lemma insert_by_head x l :
  Forall (before after x) l → insert_by after x l = x :: l.
Proof.
  destruct l as [|y l]; [done|]. intros Hx. simpl.
  apply Forall_cons in Hx as [Hxy _]. unfold before in Hxy. by rewrite Hxy.
Qed.

Lemma stable_sort_id l :
  StronglySorted (before after) l → stable_sort after l = l.
Proof.
  induction 1 as [|x l Hl IH Hx]; [done|].
  rewrite stable_sort_cons, IH. by apply insert_by_head.
Qed.

(** Stability: when no element selected by [P] has to stand behind another
    one, sorting keeps the selected elements in their order. *)
Lemma insert_by_filter (P : A → bool) x l :
  (P x = true → ∀ y, y ∈ l → P y = true → after x y = false) →
  filter (λ y, P y = true) (insert_by after x l)
  = filter (λ y, P y = true) (x :: l).
Proof.
  induction l as [|y l IH]; intros HP; [done|]. simpl.
  destruct (after x y) eqn:Hxy; [|done].
  rewrite filter_cons, IH by (intros ? z ? ?; apply HP; [done|by right|done]).
  rewrite !filter_cons.
  destruct (decide (P x = true)) as [Hx|Hx]; [|done].
  destruct (decide (P y = true)) as [Hy|Hy]; [|done].
  rewrite HP in Hxy; [done|done|by left|done].
Qed.

Lemma stable_sort_filter (P : A → bool) l :
  (∀ x y, x ∈ l → y ∈ l → P x = true → P y = true → after x y = false) →
  filter (λ y, P y = true) (stable_sort after l) = filter (λ y, P y = true) l.
Proof.
  induction l as [|x l IH]; intros HP; [done|].
  rewrite stable_sort_cons, insert_by_filter.
  - rewrite !filter_cons, IH; [done|].
    intros a b Ha Hb. apply HP; by right.
  - intros Hx y Hy HPy. rewrite stable_sort_elem in Hy.
    apply HP; [by left|by right|done..].
Qed.

End Ordered.
End StableSort.

(** ** The sort is determined by its specification *)

Section StableUnique.
Context {A : Type} (after : A → A → bool).
Hypothesis after_asym : ∀ a b, after a b = true → after b a = false.
Hypothesis before_trans :
  ∀ a b c, before after a b → before after b c → before after a c.

Lemma after_irrefl x : after x x = false.
Proof.
  destruct (after x x) eqn:E; [|done]. by rewrite (after_asym x x E) in E.
Qed.

Lemma ties_refl x : ties after x x = true.
Proof. unfold ties. by rewrite after_irrefl. Qed.

Lemma ties_not_after z x y :
  ties after z x = true → ties after z y = true → after x y = false.
Proof.
  unfold ties. intros [Hzx Hxz]%andb_true_iff [Hzy Hyz]%andb_true_iff.
  apply negb_true_iff in Hzx, Hxz, Hzy, Hyz.
  by apply (before_trans x z y).
Qed.

(** Sorting keeps every class of ties in its order. *)
Lemma stable_sort_stable z l :
  filter (λ y, ties after z y = true) (stable_sort after l)
  = filter (λ y, ties after z y = true) l.
Proof.
  apply stable_sort_filter. intros x y _ _. apply ties_not_after.
Qed.

(** Two sorted lists with the same classes of ties in the same order are
    equal. *)
Lemma sorted_stable_unique l1 l2 :
  StronglySorted (before after) l1 → StronglySorted (before after) l2 →
  l1 ≡ₚ l2 →
  (∀ z, filter (λ y, ties after z y = true) l1
        = filter (λ y, ties after z y = true) l2) →
  l1 = l2.
Proof.
  intros Hs1. revert l2. induction Hs1 as [|x1 l1 Hs1 IH Hx1]; intros l2 Hs2 Hp Hst.
  { by apply Permutation_nil_l in Hp. }
  destruct Hs2 as [|x2 l2' Hs2 Hx2].
  { by apply Permutation_nil_r in Hp. }
  rename l2' into l2.
  assert (ties after x1 x2 = true) as Htie.
  { unfold ties. apply andb_true_iff. split; apply negb_true_iff.
    - assert (x2 ∈ x1 :: l1) as [->|Hin]%elem_of_cons by (rewrite Hp; by left).
      + apply after_irrefl.
      + by eapply Forall_forall in Hx1.
    - assert (x1 ∈ x2 :: l2) as [->|Hin]%elem_of_cons by (rewrite <-Hp; by left).
      + apply after_irrefl.
      + by eapply Forall_forall in Hx2. }
  assert (x1 = x2) as <-.
  { specialize (Hst x1).
    rewrite !filter_cons, !decide_True in Hst by (done || apply ties_refl).
    by injection Hst. }
  f_equal. apply IH; [done|by apply (inj (x1 ::.))|].
  intros z. specialize (Hst z). rewrite !filter_cons in Hst.
  case_decide; [by injection Hst|done].
Qed.

(** Whatever algorithm an engine runs: a sorted permutation that keeps
    every class of ties in its order is the list [stable_sort] returns. *)
Lemma stable_sort_characterised l l' :
  l' ≡ₚ l →
  StronglySorted (before after) l' →
  (∀ z, filter (λ y, ties after z y = true) l'
        = filter (λ y, ties after z y = true) l) →
  l' = stable_sort after l.
Proof.
  intros Hp Hs Hst. apply sorted_stable_unique.
  - done.
  - by apply stable_sort_sorted.
  - by rewrite stable_sort_perm.
  - intros z. by rewrite stable_sort_stable.
Qed.

End StableUnique.

(* ================================================================= *)
(** * Plain objects *)

Section ObjectFacts.
Context `{Runtime} {V : Type}.
Implicit Types (o : obj V) (k : string) (v : V).

Lemma own_None o k : own o k = None ↔ k ∉ o.*1.
Proof.
  induction o as [|[k' v'] o IH]; simpl.
  - split; [intros _; apply not_elem_of_nil|done].
  - rewrite not_elem_of_cons. case_decide; subst.
    + split; [done|]. by intros [? _].
    + rewrite IH. split; [by split|by intros [_ ?]].
Qed.

Lemma own_Some_elem o k v : own o k = Some v → (k, v) ∈ o.
Proof.
  induction o as [|[k' v'] o IH]; simpl; [done|].
  case_decide; subst.
  - intros [= ->]. by left.
  - intros. right. by apply IH.
Qed.

Lemma elem_own o k v : NoDup o.*1 → (k, v) ∈ o → own o k = Some v.
Proof.
  induction o as [|[k' v'] o IH]; simpl; intros Hnd Hin.
  { by apply elem_of_nil in Hin. }
  apply NoDup_cons in Hnd as [Hk' Hnd].
  apply elem_of_cons in Hin as [[= -> ->]|Hin].
  - by rewrite decide_True.
  - rewrite decide_False; [by apply IH|].
    intros ->. apply Hk'. by apply (list_elem_of_fmap_2 fst _ (k, v)).
Qed.

Lemma own_app o1 o2 k :
  own (o1 ++ o2) k = match own o1 k with Some v => Some v | None => own o2 k end.
Proof.
  induction o1 as [|[k' v'] o1 IH]; simpl; [done|]. by case_decide.
Qed.

Lemma update_keys o k v : (update o k v).*1 = o.*1.
Proof.
  induction o as [|[k' v'] o IH]; simpl; [done|].
  case_decide; csimpl; [done|]. by rewrite IH.
Qed.

Lemma update_app_new o k v0 v :
  own o k = None → update (o ++ [(k, v0)]) k v = o ++ [(k, v)].
Proof.
  induction o as [|[k' v'] o IH]; simpl.
  - by rewrite decide_True.
  - case_decide; [done|]. intros. by rewrite IH.
Qed.

Lemma elem_update o k v k' v' :
  NoDup o.*1 → k ∈ o.*1 →
  (k', v') ∈ update o k v ↔ (k' = k ∧ v' = v) ∨ (k' ≠ k ∧ (k', v') ∈ o).
Proof.
  induction o as [|[k0 v0] o IH]; simpl; intros Hnd Hk.
  { by apply elem_of_nil in Hk. }
  apply NoDup_cons in Hnd as [Hk0 Hnd].
  case_decide as Heq; subst.
  - rewrite !elem_of_cons. split.
    + intros [[= -> ->]|Hin]; [by left|]. right. split; [|by right].
      intros ->. apply Hk0. by apply (list_elem_of_fmap_2 fst _ (k, v')).
    + intros [[-> ->]|[Hne [[= -> ->]|Hin]]]; [by left|done|by right].
  - apply elem_of_cons in Hk as [->|Hk]; [done|].
    rewrite !elem_of_cons, IH by done. split.
    + intros [[= -> ->]|[[-> ->]|[Hne Hin]]].
      * right. split; [done|by left].
      * by left.
      * right. split; [done|by right].
    + intros [[-> ->]|[Hne [[= -> ->]|Hin]]].
      * right. by left.
      * by left.
      * right. right. done.
Qed.

Lemma entries_perm o : entries o ≡ₚ o.
Proof.
  unfold entries. rewrite stable_sort_perm. apply filter_app_complement.
Qed.

Lemma elem_entries o p : p ∈ entries o ↔ p ∈ o.
Proof. by rewrite entries_perm. Qed.

Lemma entries_nil : entries ([] : obj V) = [].
Proof. done. Qed.

End ObjectFacts.

(** [forEach] over a list extended at its end. *)
Lemma forEach_snoc {A S} (f : S → A → result S) s l x :
  forEach f s (l ++ [x]) = (s' ← forEach f s l; f s' x).
Proof.
  revert s. induction l as [|y l IH]; intros s; simpl.
  - by destruct (f s x).
  - destruct (f s y) as [s'|]; simpl; [apply IH|done].
Qed.

(** [forEach] with a callback that never throws is a left fold. *)
Lemma forEach_total {A S} (f : S → A → S) s l :
  forEach (λ s x, Return (f s x)) s l = Return (foldl f s l).
Proof. revert s. induction l as [|y l IH]; intros s; simpl; [done|apply IH]. Qed.

(* ================================================================= *)
(** * The grouping loop *)

Lemma filter_none {A} (P : A → Prop) `{∀ x, Decision (P x)} (l : list A) :
  (∀ x, x ∈ l → ¬ P x) → filter P l = [].
Proof.
  induction l as [|x l IH]; intros HP; [done|].
  rewrite filter_cons_False by (apply HP; by left).
  apply IH. intros y Hy. apply HP. by right.
Qed.

Section Grouping.
Context `{Runtime}.
Variables (g m : string).
Implicit Types (rows : list DataRow) (grouped : obj (list num)).

Lemma pool_snoc key rows row :
  pool g m key (rows ++ [row]) =
  pool g m key rows ++ (if decide (key_of g row = key) then numeric m row else []).
Proof.
  unfold pool, numeric. rewrite filter_app, fmap_app, filter_app. f_equal.
  rewrite filter_cons, filter_nil. case_decide; [|done].
  csimpl. rewrite filter_cons, filter_nil.
  destruct (isNaN (measure_of m row)); by case_decide.
Qed.

Lemma pool_unseen key rows :
  (∀ row, row ∈ rows → key_of g row ≠ key) → pool g m key rows = [].
Proof. intros Hk. unfold pool. by rewrite (filter_none _ rows). Qed.

Lemma group_row_eq grouped row :
  group_row g m grouped row =
  match own grouped (key_of g row) with
  | Some vs =>
      Return (if isNaN (measure_of m row) then grouped
              else update grouped (key_of g row) (vs ++ [measure_of m row]))
  | None =>
      match objectPrototype (key_of g row) with
      | None => Return (grouped ++ [(key_of g row, numeric m row)])
      | Some _ => if isNaN (measure_of m row) then Return grouped else TypeError
      end
  end.
Proof.
  unfold group_row, numeric, get, assign, measure_of, key_of.
  set (k := ToString _). set (v := ToNumber _).
  destruct (own grouped k) as [vs|] eqn:Hown.
  - rewrite Hown. by destruct (isNaN v).
  - destruct (objectPrototype k) as [b|] eqn:Hp.
    + rewrite ?Hown, ?Hp. by destruct (isNaN v).
    + rewrite ?Hown, ?Hp, own_app, ?Hown. simpl. rewrite decide_True by done.
      destruct (isNaN v); [done|]. by rewrite update_app_new.
Qed.

Lemma grouped_ok_nil : grouped_ok g m [] [].
Proof.
  split.
  - constructor.
  - intros k. split; [by intros ?%elem_of_nil|].
    by intros [_ (row & ?%elem_of_nil & _)].
  - by intros k vs ?%elem_of_nil.
Qed.

Lemma not_inherited k : ¬ inherited k ↔ objectPrototype k = None.
Proof. unfold inherited. by rewrite eq_None_not_Some. Qed.

(** One more row, its group already open. *)
Lemma grouped_ok_known rows grouped row vs :
  grouped_ok g m rows grouped →
  own grouped (key_of g row) = Some vs →
  grouped_ok g m (rows ++ [row])
    (if isNaN (measure_of m row) then grouped
     else update grouped (key_of g row) (vs ++ [measure_of m row])).
Proof.
  intros [Hnd Hkeys Hpool] Hown.
  assert (key_of g row ∈ grouped.*1) as Hin.
  { apply own_Some_elem in Hown. by apply (list_elem_of_fmap_2 fst _ (_, vs)). }
  assert (vs = pool g m (key_of g row) rows) as Hvs.
  { by apply Hpool, own_Some_elem. }
  assert (∀ k, k ∈ grouped.*1 ↔
     ¬ inherited k ∧ ∃ r, r ∈ rows ++ [row] ∧ key_of g r = k) as Hkeys'.
  { intros k. rewrite Hkeys. split.
    - intros [? (r & ? & ?)]. split; [done|]. exists r. split; [|done].
      apply elem_of_app. by left.
    - intros [? (r & [?| ->%list_elem_of_singleton]%elem_of_app & <-)].
      + split; [done|]. by exists r.
      + by apply Hkeys. }
  destruct (isNaN (measure_of m row)) eqn:Hnan.
  - split; [done|done|]. intros k vs' Hk. rewrite pool_snoc.
    unfold numeric. rewrite Hnan. rewrite (Hpool k vs' Hk).
    case_decide; by rewrite app_nil_r.
  - split.
    + by rewrite update_keys.
    + intros k. by rewrite update_keys.
    + intros k vs'. rewrite elem_update by done.
      rewrite pool_snoc. unfold numeric. rewrite Hnan.
      intros [[-> ->]|[Hne Hk]].
      * rewrite decide_True by done. by rewrite Hvs.
      * rewrite decide_False by done. rewrite app_nil_r. by apply Hpool.
Qed.

(** One more row that opens a group. *)
Lemma grouped_ok_new rows grouped row :
  grouped_ok g m rows grouped →
  own grouped (key_of g row) = None →
  objectPrototype (key_of g row) = None →
  grouped_ok g m (rows ++ [row]) (grouped ++ [(key_of g row, numeric m row)]).
Proof.
  intros [Hnd Hkeys Hpool] Hown Hp.
  apply own_None in Hown.
  assert (∀ r, r ∈ rows → key_of g r ≠ key_of g row) as Hunseen.
  { intros r Hr Heq. apply Hown, Hkeys. split; [by apply not_inherited|].
    by exists r. }
  split.
  - rewrite fmap_app. apply NoDup_app. split; [done|]. split.
    + intros k Hk ->%list_elem_of_singleton. done.
    + apply NoDup_singleton.
  - intros k. rewrite fmap_app, elem_of_app, Hkeys. csimpl.
    rewrite list_elem_of_singleton. split.
    + intros [[? (r & ? & ?)]| ->].
      * split; [done|]. exists r. split; [|done]. apply elem_of_app. by left.
      * split; [by apply not_inherited|]. exists row. split; [|done].
        apply elem_of_app. right. by apply list_elem_of_singleton.
    + intros [? (r & [?| ->%list_elem_of_singleton]%elem_of_app & <-)].
      * left. split; [done|]. by exists r.
      * by right.
  - intros k vs. rewrite elem_of_app, list_elem_of_singleton, pool_snoc.
    intros [Hk|[= -> ->]].
    + rewrite decide_False, app_nil_r; [by apply Hpool|].
      intros <-. apply Hown. by apply (list_elem_of_fmap_2 fst _ (_, vs)).
    + rewrite decide_True by done. by rewrite pool_unseen.
Qed.

(** One more row under an inherited name, its measure not a number: the
    row leaves no trace. *)
Lemma grouped_ok_skipped rows grouped row :
  grouped_ok g m rows grouped →
  inherited (key_of g row) →
  isNaN (measure_of m row) = true →
  grouped_ok g m (rows ++ [row]) grouped.
Proof.
  intros [Hnd Hkeys Hpool] Hinh Hnan. split; [done| |].
  - intros k. rewrite Hkeys. split.
    + intros [? (r & ? & ?)]. split; [done|]. exists r. split; [|done].
      apply elem_of_app. by left.
    + intros [? (r & [?| ->%list_elem_of_singleton]%elem_of_app & <-)].
      * split; [done|]. by exists r.
      * done.
  - intros k vs Hk. rewrite pool_snoc. unfold numeric. rewrite Hnan.
    rewrite (Hpool k vs Hk). case_decide; by rewrite app_nil_r.
Qed.

Lemma throws_on_snoc rows row :
  throws_on g m (rows ++ [row]) ↔
  throws_on g m rows ∨ (inherited (key_of g row) ∧ isNaN (measure_of m row) = false).
Proof.
  unfold throws_on. split.
  - intros (r & [?| ->%list_elem_of_singleton]%elem_of_app & ? & ?).
    + left. by exists r.
    + by right.
  - intros [(r & ? & ? & ?)|[? ?]].
    + exists r. split; [|done]. apply elem_of_app. by left.
    + exists row. split; [|done]. apply elem_of_app. right.
      by apply list_elem_of_singleton.
Qed.

(** What the grouping loop leaves behind, and when it throws. *)
Lemma group_rows_spec rows :
  match forEach (group_row g m) [] rows with
  | Return grouped => grouped_ok g m rows grouped ∧ ¬ throws_on g m rows
  | TypeError => throws_on g m rows
  end.
Proof.
  induction rows as [|row rows IH] using rev_ind.
  { simpl. split; [apply grouped_ok_nil|]. by intros (r & ?%elem_of_nil & _). }
  rewrite forEach_snoc.
  destruct (forEach (group_row g m) [] rows) as [grouped|]; simpl.
  2:{ apply throws_on_snoc. by left. }
  destruct IH as [Hok Hno]. rewrite group_row_eq.
  destruct (own grouped (key_of g row)) as [vs|] eqn:Hown.
  - split; [by apply grouped_ok_known|].
    rewrite throws_on_snoc. intros [?|[Hinh _]]; [done|].
    apply own_Some_elem in Hown.
    apply (list_elem_of_fmap_2 fst) in Hown. apply (ok_keys _ _ _ _ Hok) in Hown.
    by destruct Hown.
  - destruct (objectPrototype (key_of g row)) as [b|] eqn:Hp.
    + destruct (isNaN (measure_of m row)) eqn:Hnan.
      * split; [apply grouped_ok_skipped; [done| |done]|].
        { unfold inherited. by rewrite Hp. }
        rewrite throws_on_snoc. intros [?|[_ ?]]; [done|congruence].
      * apply throws_on_snoc. right. split; [|done].
        unfold inherited. by rewrite Hp.
    + split; [by apply grouped_ok_new|].
      rewrite throws_on_snoc. intros [?|[Hinh _]]; [done|].
      by apply not_inherited in Hp.
Qed.

End Grouping.

(* ================================================================= *)
(** * The aggregation engine *)

Section SortMaps.
Context {A B : Type} (f : A → B) (after : B → B → bool).

Lemma insert_by_fmap x l :
  insert_by after (f x) (f <$> l)
  = f <$> insert_by (λ a b, after (f a) (f b)) x l.
Proof.
  induction l as [|y l IH]; csimpl; [done|].
  destruct (after (f x) (f y)); csimpl; [by rewrite IH|done].
Qed.

Lemma stable_sort_fmap l :
  stable_sort after (f <$> l)
  = f <$> stable_sort (λ a b, after (f a) (f b)) l.
Proof.
  induction l as [|x l IH]; [done|].
  rewrite fmap_cons, !stable_sort_cons, IH. apply insert_by_fmap.
Qed.

End SortMaps.

Lemma stable_sort_ext {A} (after after' : A → A → bool) l :
  (∀ a b, after a b = after' a b) →
  stable_sort after l = stable_sort after' l.
Proof.
  intros Hext. induction l as [|x l IH]; [done|].
  rewrite !stable_sort_cons, IH. generalize (stable_sort after' l).
  intros k. induction k as [|y k IHk]; simpl; [done|].
  by rewrite Hext, IHk.
Qed.

(** A left fold whose steps commute does not depend on the order. *)
Lemma foldl_perm {A B} (f : A → B → A) l l' :
  (∀ a x y, f (f a x) y = f (f a y) x) →
  l ≡ₚ l' → ∀ a, foldl f a l = foldl f a l'.
Proof.
  intros Hf. induction 1 as [|x l l' _ IH|x y l|l1 l2 l3 _ IH1 _ IH2];
    intros a; simpl.
  - done.
  - apply IH.
  - by rewrite Hf.
  - by rewrite IH1.
Qed.

(** An object whose values are a function of the keys. *)
Lemma obj_by_keys {V} (o : obj V) (P : string → V) :
  (∀ k v, (k, v) ∈ o → v = P k) → o = (λ k, (k, P k)) <$> o.*1.
Proof.
  induction o as [|[k v] o IH]; intros HP; csimpl; [done|].
  rewrite (HP k v) by by left. f_equal. apply IH.
  intros k' v' Hin. apply HP. by right.
Qed.

Section AggregateFacts.
Context `{Runtime}.
Implicit Types (rows : list DataRow) (g m key : string).

Lemma output_row_distinct g m k v :
  g ≠ m → output_row g m k v = [(g, CStr k); (m, v)].
Proof.
  intros Hne. unfold output_row, define. simpl. by rewrite decide_False.
Qed.

Lemma output_row_same g k v : output_row g g k v = [(g, v)].
Proof. unfold output_row, define. simpl. by rewrite !decide_True. Qed.

Lemma get_own {V} (o : obj V) k v : own o k = Some v → get o k = Own v.
Proof. unfold get. by intros ->. Qed.

Lemma by_group_output g m k1 v1 k2 v2 :
  g ≠ m →
  by_group g (output_row g m k1 v1) (output_row g m k2 v2) = localeCompare k1 k2.
Proof.
  intros Hne. rewrite !output_row_distinct by done. unfold by_group.
  rewrite (get_own _ g (CStr k1)), (get_own _ g (CStr k2));
    [done|simpl; by rewrite decide_True..].
Qed.

Lemma key_of_output g m k v : g ≠ m → key_of g (output_row g m k v) = k.
Proof.
  intros Hne. rewrite output_row_distinct by done. unfold key_of.
  rewrite (get_own _ g (CStr k)); [done|]. simpl. by rewrite decide_True.
Qed.

Lemma aggregateData_unfold rows g m kind :
  DataProcessor.aggregateData (Some rows) g m kind =
  if is_frequency g m kind then Return (frequency rows g m)
  else
    grouped ← forEach (group_row g m) [] rows;
    Return (Array_sort (by_group g) (DataProcessor.aggregated g m kind grouped)).
Proof. destruct rows; [|done]. simpl. by destruct (is_frequency g m kind). Qed.

Lemma variant_unfold rows g m kind :
  DataProcessorVariant.aggregateData (Some rows) g m kind =
  if is_frequency g m kind then Return (frequency rows g m)
  else
    grouped ← forEach (group_row g m) [] rows;
    Return (Array_sort (by_group g)
              (DataProcessorVariant.aggregated g m kind grouped)).
Proof. destruct rows; [|done]. simpl. by destruct (is_frequency g m kind). Qed.

Lemma sort_aggregated g m kind (l : obj (list num)) :
  g ≠ m →
  Array_sort (by_group g)
    ((λ p, output_row g m p.1 (CNum (reduce kind p.2))) <$> l)
  = (λ p, output_row g m p.1 (CNum (reduce kind p.2))) <$> stable_sort by_key l.
Proof.
  intros Hne. unfold Array_sort. rewrite stable_sort_fmap. f_equal.
  apply stable_sort_ext. intros a b. unfold by_key.
  by rewrite by_group_output.
Qed.

Lemma by_key_asym {V} :
  consistent localeCompare →
  ∀ p q : string * V, by_key p q = true → by_key q p = false.
Proof.
  intros [Hflip _] p q. unfold by_key. rewrite (Hflip q.1 p.1).
  by destruct (sign (localeCompare p.1 q.1)).
Qed.

Lemma by_key_trans {V} :
  consistent localeCompare →
  ∀ p q r : string * V,
    before by_key p q → before by_key q r → before by_key p r.
Proof.
  intros [_ Htrans] p q r. unfold before, by_key. intros Hpq Hqr.
  assert (sign (localeCompare p.1 r.1) ≠ Gt) as Hpr.
  { apply (Htrans _ q.1); intros E; by rewrite E in *. }
  by destruct (sign (localeCompare p.1 r.1)).
Qed.

Lemma before_by_key {V} (p q : string * V) :
  before by_key p q ↔ locale_le p.1 q.1.
Proof.
  unfold before, by_key, locale_le.
  destruct (sign (localeCompare p.1 q.1)); naive_solver.
Qed.

Lemma pool_perm g m key rows rows' :
  rows ≡ₚ rows' → pool g m key rows ≡ₚ pool g m key rows'.
Proof. intros Hp. unfold pool. by rewrite Hp. Qed.

Lemma throws_on_perm g m rows rows' :
  rows ≡ₚ rows' → throws_on g m rows → throws_on g m rows'.
Proof.
  intros Hp (row & Hin & ?). exists row. split; [|done]. by rewrite <-Hp.
Qed.

Lemma reduce_perm kind (vs vs' : list num) :
  (kind = Sum ∨ kind = Average → foldl add zero vs = foldl add zero vs') →
  vs ≡ₚ vs' → reduce kind vs = reduce kind vs'.
Proof.
  intros Hadd Hp. pose proof (Permutation_length Hp) as Hlen.
  destruct kind; simpl.
  - apply Hadd; by left.
  - by rewrite Hlen.
  - rewrite Hlen. f_equal. apply Hadd; by right.
  - done.
Qed.

Lemma reduced_perm g m kind rows rows' grouped grouped' :
  (kind = Sum ∨ kind = Average →
     ∀ r, r ∈ rows →
       foldl add zero (pool g m (key_of g r) rows')
       = foldl add zero (pool g m (key_of g r) rows)) →
  rows ≡ₚ rows' →
  grouped_ok g m rows grouped → grouped_ok g m rows' grouped' →
  reduced kind <$> entries grouped ≡ₚ reduced kind <$> entries grouped'.
Proof.
  intros Hadd Hp [Hnd Hkeys Hpool] [Hnd' Hkeys' Hpool'].
  rewrite !entries_perm.
  rewrite (obj_by_keys grouped _ Hpool), (obj_by_keys grouped' _ Hpool').
  rewrite <-!list_fmap_compose, !(list_fmap_compose fst).
  assert (grouped.*1 ≡ₚ grouped'.*1) as ->.
  { apply NoDup_Permutation; [done..|]. intros k. rewrite Hkeys, Hkeys'.
    by setoid_rewrite Hp. }
  erewrite list_fmap_ext; [done|]. intros i k Hk%list_elem_of_lookup_2.
  unfold reduced, compose. simpl. f_equal.
  apply reduce_perm; [|by apply pool_perm].
  intros Hkind. apply Hkeys' in Hk as [_ (r & Hr & <-)].
  symmetry. apply (Hadd Hkind). by rewrite Hp.
Qed.

Lemma sort_reduced kind (l : obj (list num)) :
  reduced kind <$> stable_sort by_key l
  = stable_sort by_key (reduced kind <$> l).
Proof. by rewrite stable_sort_fmap. Qed.

End AggregateFacts.

Lemma filter_all {A} (P : A → Prop) `{∀ x, Decision (P x)} (l : list A) :
  (∀ x, x ∈ l → P x) → filter P l = l.
Proof.
  induction l as [|x l IH]; intros HP; [done|].
  rewrite filter_cons_True by (apply HP; by left).
  f_equal. apply IH. intros y Hy. apply HP. by right.
Qed.

Section Outcomes.
Context `{Runtime}.
Implicit Types (rows : list DataRow) (g m key : string).

Lemma Array_sort_elem {A} (cmp : A → A → num) l x :
  x ∈ Array_sort cmp l ↔ x ∈ l.
Proof. apply stable_sort_elem. Qed.

(** The general path throws exactly on the rows of [throws_on]. *)
Lemma aggregateData_TypeError rows g m kind :
  DataProcessor.aggregateData (Some rows) g m kind = TypeError ↔
  is_frequency g m kind = false ∧ throws_on g m rows.
Proof.
  rewrite aggregateData_unfold.
  destruct (is_frequency g m kind); [by split; [|intros [? _]]|].
  pose proof (group_rows_spec g m rows) as Hspec.
  destruct (forEach (group_row g m) [] rows); simpl.
  - split; [done|]. intros [_ ?]. by destruct Hspec.
  - done.
Qed.

Lemma aggregateData_returns rows g m kind :
  ¬ throws_on g m rows →
  ∃ out, DataProcessor.aggregateData (Some rows) g m kind = Return out.
Proof.
  intros Hno.
  destruct (DataProcessor.aggregateData (Some rows) g m kind) as [out|] eqn:E.
  - by exists out.
  - apply aggregateData_TypeError in E as [_ ?]. done.
Qed.

Lemma aggregateData_no_rows g m kind :
  DataProcessor.aggregateData None g m kind = Return [] ∧
  DataProcessor.aggregateData (Some []) g m kind = Return [].
Proof. done. Qed.

(** The variant leaves out every group whose numeric pool is empty. *)
Lemma variant_omits_empty_groups rows g m kind out key :
  is_frequency g m kind = false →
  DataProcessorVariant.aggregateData (Some rows) g m kind = Return out →
  pool g m key rows = [] →
  ∀ r, r ∈ out → get r g ≠ Own (CStr key).
Proof.
  intros Hfreq Hout Hpool r Hr. rewrite variant_unfold, Hfreq in Hout.
  pose proof (group_rows_spec g m rows) as Hspec.
  destruct (forEach (group_row g m) [] rows) as [grouped|]; [|done].
  destruct Hspec as [Hok _]. simpl in Hout. injection Hout as <-.
  apply Array_sort_elem in Hr. unfold DataProcessorVariant.aggregated in Hr.
  apply list_elem_of_fmap in Hr as ([k vs] & -> & Hp).
  apply list_elem_of_filter in Hp as [Hlen Hp]. rewrite elem_entries in Hp.
  simpl in *. destruct (decide (g = m)) as [<-|Hne].
  - rewrite output_row_same. unfold get. simpl. by rewrite decide_True.
  - rewrite output_row_distinct by done. unfold get. simpl.
    rewrite decide_True by done. intros [= ->].
    apply (ok_pool _ _ _ _ Hok) in Hp. rewrite Hpool in Hp. by subst.
Qed.

(** Both modules return the same rows as long as no group has an empty
    numeric pool; they always agree on the frequency path and on an absent
    or empty row set. *)
Lemma variant_agrees data g m kind :
  (∀ rows row, data = Some rows → row ∈ rows → ¬ inherited (key_of g row) →
     is_frequency g m kind = false → pool g m (key_of g row) rows ≠ []) →
  DataProcessorVariant.aggregateData data g m kind
  = DataProcessor.aggregateData data g m kind.
Proof.
  destruct data as [rows|]; [|done]. intros Hfull.
  rewrite variant_unfold, aggregateData_unfold.
  destruct (is_frequency g m kind) eqn:Hfreq; [done|].
  pose proof (group_rows_spec g m rows) as Hspec.
  destruct (forEach (group_row g m) [] rows) as [grouped|]; [|done].
  destruct Hspec as [Hok _]. simpl. do 2 f_equal.
  unfold DataProcessorVariant.aggregated, DataProcessor.aggregated. f_equal.
  apply filter_all. intros [k vs] Hp. rewrite elem_entries in Hp. simpl.
  pose proof (ok_pool _ _ _ _ Hok _ _ Hp) as ->.
  destruct (proj1 (ok_keys _ _ _ _ Hok k)) as [Hinh (row & Hrow & <-)].
  { by apply (list_elem_of_fmap_2 fst _ (k, pool g m k rows)). }
  intros Hlen. apply (Hfull rows row); [done..|]. by apply nil_length_inv.
Qed.

End Outcomes.

(** With distinct columns, an output is sorted by group key, and it is the
    output for every permutation of the rows in which no two keys tie and
    every group adds up to the same sum. *)
Lemma sorted_and_order_independent `{Runtime}
    (rows : list DataRow) (g m : string) (kind : AggregationType)
    (out : list DataRow) :
  g ≠ m →
  consistent localeCompare →
  DataProcessor.aggregateData (Some rows) g m kind = Return out →
  StronglySorted (λ a b, locale_le (key_of g a) (key_of g b)) out ∧
  ∀ rows',
    rows ≡ₚ rows' →
    (∀ r1 r2, r1 ∈ rows → r2 ∈ rows →
       sign (localeCompare (key_of g r1) (key_of g r2)) = Eq →
       key_of g r1 = key_of g r2) →
    (kind = Sum ∨ kind = Average →
       ∀ r, r ∈ rows →
         foldl add zero (pool g m (key_of g r) rows')
         = foldl add zero (pool g m (key_of g r) rows)) →
    DataProcessor.aggregateData (Some rows') g m kind = Return out.
Proof.
  intros Hne Hcons Hout. rewrite aggregateData_unfold in Hout.
  assert (is_frequency g m kind = false) as Hfreq.
  { unfold is_frequency. rewrite (bool_decide_eq_false_2 (g = m)) by done.
    apply andb_false_r. }
  rewrite Hfreq in Hout. pose proof (group_rows_spec g m rows) as Hspec.
  destruct (forEach (group_row g m) [] rows) as [grouped|]; [|done].
  destruct Hspec as [Hok Hno]. simpl in Hout. injection Hout as <-.
  unfold DataProcessor.aggregated. rewrite sort_aggregated by done. split.
  - eapply (StronglySorted_fmap _ (before by_key)).
    + intros p q. rewrite !key_of_output by done. apply before_by_key.
    + apply stable_sort_sorted; [by apply by_key_asym|by apply by_key_trans].
  - intros rows' Hp Hdist Hadd. rewrite aggregateData_unfold, Hfreq.
    pose proof (group_rows_spec g m rows') as Hspec'.
    destruct (forEach (group_row g m) [] rows') as [grouped'|]; simpl.
    2:{ destruct Hno. by eapply throws_on_perm. }
    destruct Hspec' as [Hok' _]. f_equal.
    unfold DataProcessor.aggregated. rewrite sort_aggregated by done.
    change (λ p : string * list num, output_row g m p.1 (CNum (reduce kind p.2)))
      with ((λ p : string * num, output_row g m p.1 (CNum p.2)) ∘ reduced kind).
    rewrite !list_fmap_compose. f_equal.
    rewrite !sort_reduced.
    symmetry. apply stable_sort_unique.
    + by apply by_key_asym.
    + by apply by_key_trans.
    + by eapply reduced_perm.
    + intros x y (p & -> & Hp1)%list_elem_of_fmap (q & -> & Hq)%list_elem_of_fmap.
      rewrite elem_entries in Hp1, Hq. destruct p as [k1 vs1], q as [k2 vs2].
      unfold before, by_key, reduced. simpl. intros H1 H2.
      destruct Hcons as [Hflip _]. rewrite (Hflip k2 k1) in H2.
      assert (sign (localeCompare k1 k2) = Eq) as Heq
        by (destruct (sign (localeCompare k1 k2)); naive_solver).
      assert (k1 = k2) as ->.
      { destruct (proj1 (ok_keys _ _ _ _ Hok k1)) as [_ (r1 & Hr1 & <-)].
        { by apply (list_elem_of_fmap_2 fst _ (_, vs1)). }
        destruct (proj1 (ok_keys _ _ _ _ Hok k2)) as [_ (r2 & Hr2 & <-)].
        { by apply (list_elem_of_fmap_2 fst _ (_, vs2)). }
        by apply Hdist. }
      by rewrite (ok_pool _ _ _ _ Hok _ _ Hp1), (ok_pool _ _ _ _ Hok _ _ Hq).
Qed.

(** ** The frequency path *)

Section Frequency.
Context `{Runtime}.
Implicit Types (rows : list DataRow) (g key : string) (counts : obj cell).

Lemma occurrences_snoc g key rows row :
  occurrences g key (rows ++ [row])
  = (occurrences g key rows + (if decide (key_of g row = key) then 1 else 0))%nat.
Proof.
  unfold occurrences. rewrite filter_app, length_app. f_equal.
  rewrite filter_cons, filter_nil. by case_decide.
Qed.

Lemma occurrences_le g key rows : (occurrences g key rows ≤ length rows)%nat.
Proof. apply length_filter. Qed.

Lemma occurrences_pos g rows row :
  row ∈ rows → (0 < occurrences g (key_of g row) rows)%nat.
Proof.
  intros Hin. unfold occurrences.
  assert (row ∈ filter (λ r, key_of g r = key_of g row) rows) as Hf
    by by apply list_elem_of_filter.
  destruct (filter _ rows); [by apply elem_of_nil in Hf|simpl; lia].
Qed.

Lemma occurrences_unseen g key rows :
  (∀ row, row ∈ rows → key_of g row ≠ key) → occurrences g key rows = 0.
Proof. intros Hk. unfold occurrences. by rewrite (filter_none _ rows). Qed.

Lemma count_row_eq g counts row :
  count_row g counts row =
  match own counts (key_of g row) with
  | Some c => update counts (key_of g row) (plus (or_else (Own c) zero) one)
  | None =>
      match objectPrototype (key_of g row) with
      | None => counts ++ [(key_of g row, CNum (add zero one))]
      | Some b =>
          if builtin_accessor b then counts
          else counts ++ [(key_of g row,
                           CStr (builtin_text b +:+ numToString one))]
      end
  end.
Proof.
  unfold count_row, key_of, get, assign. set (k := ToString _).
  destruct (own counts k) as [c|]; [done|].
  by destruct (objectPrototype k) as [b|].
Qed.

Lemma counts_ok_nil g : counts_ok g [] [].
Proof.
  split.
  - constructor.
  - intros k. split; [by intros ?%elem_of_nil|].
    by intros (row & ?%elem_of_nil & _).
  - by intros k c ?%elem_of_nil.
Qed.

Lemma counts_ok_step g rows counts row :
  counting_exact (S (length rows)) →
  ¬ inherited (key_of g row) →
  counts_ok g rows counts →
  counts_ok g (rows ++ [row]) (count_row g counts row).
Proof.
  intros Hexact Hinh [Hnd Hkeys Hcount]. rewrite count_row_eq.
  apply not_inherited in Hinh. rewrite Hinh.
  assert (∀ k, (∃ r, r ∈ rows ++ [row] ∧ key_of g r = k) ↔
               (∃ r, r ∈ rows ∧ key_of g r = k) ∨ k = key_of g row) as Hex.
  { intros k. split.
    - intros (r & [?| ->%list_elem_of_singleton]%elem_of_app & <-);
        [left; by exists r|by right].
    - intros [(r & ? & ?)| ->].
      + exists r. split; [|done]. apply elem_of_app. by left.
      + exists row. split; [|done]. apply elem_of_app. right.
        by apply list_elem_of_singleton. }
  destruct (own counts (key_of g row)) as [c|] eqn:Hown.
  - assert (key_of g row ∈ counts.*1) as Hin.
    { apply own_Some_elem in Hown. by apply (list_elem_of_fmap_2 fst _ (_, c)). }
    pose proof (Hcount _ _ (own_Some_elem _ _ _ Hown)) as ->.
    destruct (proj1 (Hkeys _) Hin) as (r & Hr & Hkr).
    pose proof (occurrences_pos g rows r Hr) as Hpos. rewrite Hkr in Hpos.
    pose proof (occurrences_le g (key_of g row) rows) as Hle.
    destruct (occurrences g (key_of g row) rows) as [|n] eqn:Hocc; [lia|].
    destruct (Hexact n) as [_ Htrue]; [lia|].
    destruct (Hexact (S n)) as [Hadd _]; [lia|].
    unfold or_else, truthy. rewrite Htrue. simpl. rewrite Hadd.
    split.
    + by rewrite update_keys.
    + intros k. rewrite update_keys, Hex, Hkeys. split; [by left|].
      intros [?| ->]; [done|]. by apply Hkeys.
    + intros k c. rewrite elem_update by done. rewrite occurrences_snoc.
      intros [[-> ->]|[Hne Hk]].
      * rewrite decide_True by done. rewrite Hocc. do 2 f_equal. lia.
      * rewrite decide_False by done. rewrite Nat.add_0_r. by apply Hcount.
  - apply own_None in Hown.
    assert (∀ r, r ∈ rows → key_of g r ≠ key_of g row) as Hunseen.
    { intros r Hr Heq. apply Hown, Hkeys. by exists r. }
    destruct (Hexact 0) as [Hadd _]; [lia|]. unfold zero. rewrite Hadd.
    split.
    + rewrite fmap_app. apply NoDup_app. split; [done|]. split.
      * intros k Hk ->%list_elem_of_singleton. done.
      * apply NoDup_singleton.
    + intros k. rewrite fmap_app, elem_of_app, Hex, Hkeys. csimpl.
      by rewrite list_elem_of_singleton.
    + intros k c. rewrite elem_of_app, list_elem_of_singleton, occurrences_snoc.
      intros [Hk|[= -> ->]].
      * rewrite decide_False, Nat.add_0_r; [by apply Hcount|].
        intros <-. apply Hown. by apply (list_elem_of_fmap_2 fst _ (_, c)).
      * rewrite decide_True by done. by rewrite occurrences_unseen.
Qed.

Lemma counting_exact_le n n' :
  (n ≤ n')%nat → counting_exact n' → counting_exact n.
Proof. intros Hle Hex c Hc. apply Hex. lia. Qed.

Lemma counts_spec g rows :
  counting_exact (length rows) →
  (∀ row, row ∈ rows → ¬ inherited (key_of g row)) →
  counts_ok g rows (foldl (count_row g) [] rows).
Proof.
  induction rows as [|row rows IH] using rev_ind; intros Hexact Hinh.
  { apply counts_ok_nil. }
  rewrite length_app in Hexact. simpl in Hexact.
  rewrite foldl_snoc. apply counts_ok_step.
  - apply (counting_exact_le _ (length rows + 1)); [lia|done].
  - apply Hinh, elem_of_app. right. by apply list_elem_of_singleton.
  - apply IH.
    + apply (counting_exact_le _ (length rows + 1)); [lia|done].
    + intros r Hr. apply Hinh, elem_of_app. by left.
Qed.

(** Every row is counted once. *)
Lemma sum_occurrences g (keys : list string) rows :
  NoDup keys →
  (∀ row, row ∈ rows → key_of g row ∈ keys) →
  sum_list ((λ k, occurrences g k rows) <$> keys) = length rows.
Proof.
  intros Hnd. induction rows as [|row rows IH] using rev_ind; intros Hcover.
  { induction keys as [|k keys IHk]; [done|]. csimpl.
    apply NoDup_cons in Hnd as [_ Hnd]. apply IHk; [done|].
    by intros ? ?%elem_of_nil. }
  rewrite length_app. simpl. rewrite <-IH.
  2:{ intros r Hr. apply Hcover, elem_of_app. by left. }
  assert (key_of g row ∈ keys) as Hin.
  { apply Hcover, elem_of_app. right. by apply list_elem_of_singleton. }
  clear IH Hcover. induction keys as [|k keys IHk]; [by apply elem_of_nil in Hin|].
  apply NoDup_cons in Hnd as [Hk Hnd]. csimpl. rewrite occurrences_snoc.
  apply elem_of_cons in Hin as [Heq|Hin].
  - rewrite decide_True by done. subst k.
    assert (sum_list ((λ k, occurrences g k (rows ++ [row])) <$> keys)
            = sum_list ((λ k, occurrences g k rows) <$> keys)) as ->; [|lia].
    f_equal. apply list_fmap_ext. intros _ k Hk'%list_elem_of_lookup_2.
    rewrite occurrences_snoc, decide_False, Nat.add_0_r; [done|].
    by intros <-.
  - rewrite decide_False by (intros <-; done). rewrite IHk by done. lia.
Qed.

(** The frequency path, on rows whose keys are no inherited names: one row
    per distinct key, in enumeration order, holding the number of rows with
    that key; the counts add up to the number of rows. *)
Lemma frequency_counts rows col :
  counting_exact (length rows) →
  (∀ row, row ∈ rows → ¬ inherited (key_of col row)) →
  ∃ keys,
    NoDup keys ∧
    (∀ k, k ∈ keys ↔ ∃ row, row ∈ rows ∧ key_of col row = k) ∧
    DataProcessor.aggregateData (Some rows) col col Count
    = Return ((λ k, [(col, CNum (ofNat (occurrences col k rows)))]) <$> keys) ∧
    sum_list ((λ k, occurrences col k rows) <$> keys) = length rows.
Proof.
  intros Hexact Hinh. pose proof (counts_spec col rows Hexact Hinh) as Hok.
  set (counts := foldl (count_row col) [] rows) in *.
  destruct Hok as [Hnd Hkeys Hcount].
  assert (NoDup (Object_keys counts)) as Hnd'.
  { unfold Object_keys. by rewrite entries_perm. }
  assert (∀ k, k ∈ Object_keys counts ↔ ∃ row, row ∈ rows ∧ key_of col row = k)
    as Hkeys'.
  { intros k. unfold Object_keys. by rewrite entries_perm. }
  exists (Object_keys counts). split_and!; [done|done| |].
  - rewrite aggregateData_unfold. unfold is_frequency.
    rewrite !bool_decide_eq_true_2 by done. simpl. f_equal.
    unfold frequency. fold counts. unfold Object_keys.
    rewrite <-list_fmap_compose. apply list_fmap_ext.
    intros _ [k c] Hp%list_elem_of_lookup_2. rewrite elem_entries in Hp.
    simpl. rewrite output_row_same. by rewrite (Hcount k c Hp).
  - apply sum_occurrences; [done|]. intros row Hrow. apply Hkeys'. by exists row.
Qed.

(** The frequency path reads the rows through their keys only. *)
Lemma frequency_by_keys rows rows' col :
  key_of col <$> rows = key_of col <$> rows' →
  frequency rows col col = frequency rows' col col.
Proof.
  intros Hkeys. unfold frequency. do 2 f_equal.
  assert (∀ rs counts,
    foldl (count_row col) counts rs
    = foldl (λ counts key,
        assign counts key (plus (or_else (get counts key) zero) one))
        counts (key_of col <$> rs)) as Hfold.
  { induction rs as [|r rs IH]; intros counts; [done|]. csimpl. apply IH. }
  by rewrite !Hfold, Hkeys.
Qed.

End Frequency.

(* ================================================================= *)
(** * Facts about the executable runtime *)

Module EngineFacts.
Import Engine.

Lemma sign_localeCompare a b :
  sign (localeCompare a b) = String.compare a b.
Proof.
  change (E_sign (E_localeCompare a b) = String.compare a b).
  unfold E_localeCompare. by destruct (String.compare a b).
Qed.

Lemma compare_le_trans a b c :
  String.compare a b ≠ Gt → String.compare b c ≠ Gt → String.compare a c ≠ Gt.
Proof.
  revert b c. induction a as [|x a IH]; intros [|y b] [|z c]; simpl; try done.
  unfold Ascii.compare.
  destruct (N.compare_spec (N_of_ascii x) (N_of_ascii y)) as [Hxy|Hxy|Hxy];
    [|clear IH|done];
  destruct (N.compare_spec (N_of_ascii y) (N_of_ascii z)) as [Hyz|Hyz|Hyz];
    try done.
  - rewrite Hxy, Hyz, N.compare_refl. apply IH.
  - rewrite Hxy. by rewrite (proj2 (N.compare_lt_iff _ _) Hyz).
  - rewrite <-Hyz. by rewrite (proj2 (N.compare_lt_iff _ _) Hxy).
  - assert (N_of_ascii x < N_of_ascii z)%N as Hxz by lia.
    by rewrite (proj2 (N.compare_lt_iff _ _) Hxz).
Qed.

Lemma localeCompare_consistent : consistent (localeCompare (Runtime := runtime)).
Proof.
  split.
  - intros a b. rewrite !sign_localeCompare. apply String.compare_antisym.
  - intros a b c. rewrite !sign_localeCompare. apply compare_le_trans.
Qed.

(** Code-unit collation never ties two different strings. *)
Lemma localeCompare_Eq a b : sign (localeCompare a b) = Eq → a = b.
Proof. rewrite sign_localeCompare. apply String.compare_eq_iff. Qed.

End EngineFacts.

(* ================================================================= *)
(** * The file-name helper *)

Import FileUtils App.

Section FileNames.

Lemma lastIndexOf_from_absent i c s found :
  occurs c s = false → lastIndexOf_from i c s found = found.
Proof.
  revert i found. induction s as [|a s IH]; intros i found; simpl; [done|].
  intros [Ha Hs]%orb_false_iff. rewrite Ha. by apply IH.
Qed.

Lemma lastIndexOf_from_last i c s1 s2 found :
  occurs c s2 = false →
  lastIndexOf_from i c (s1 +:+ String c s2) found
  = (i + Z.of_nat (String.length s1))%Z.
Proof.
  intros Hs2. revert i found.
  induction s1 as [|a s1 IH]; intros i found; simpl.
  - rewrite bool_decide_eq_true_2 by done.
    rewrite lastIndexOf_from_absent by done. lia.
  - rewrite IH. lia.
Qed.

Lemma substring_prefix s1 s2 :
  String.substring 0 (String.length s1) (s1 +:+ s2) = s1.
Proof.
  induction s1 as [|a s1 IH]; simpl; [by destruct s2|]. by rewrite IH.
Qed.

Lemma length_append s1 s2 :
  String.length (s1 +:+ s2) = (String.length s1 + String.length s2)%nat.
Proof. induction s1 as [|a s1 IH]; simpl; [done|]. by rewrite IH. Qed.

(** The name up to its last dot, when something stands before that dot. *)
Lemma getFileNameWithoutExtension_strips stem ext :
  stem ≠ "" → occurs "." ext = false →
  getFileNameWithoutExtension (stem +:+ "." +:+ ext) = stem.
Proof.
  intros Hstem Hext. unfold getFileNameWithoutExtension, lastIndexOf.
  change (stem +:+ "." +:+ ext) with (stem +:+ String "." ext).
  rewrite lastIndexOf_from_last by done. unfold substring.
  rewrite length_append. simpl String.length.
  replace (Z.min (Z.max 0 0) _) with 0%Z by lia.
  replace (Z.min (Z.max (0 + Z.of_nat (String.length stem)) 0) _)
    with (Z.of_nat (String.length stem)) by lia.
  replace (Z.min 0 _) with 0%Z by lia.
  replace (Z.max 0 _) with (Z.of_nat (String.length stem)) by lia.
  rewrite Z.sub_0_r, Nat2Z.id. simpl Z.to_nat.
  rewrite substring_prefix. by destruct stem.
Qed.

(** A name without a dot, or with nothing before its only dot, is kept. *)
Lemma getFileNameWithoutExtension_keeps name :
  occurs "." name = false → getFileNameWithoutExtension name = name.
Proof.
  intros Hno. unfold getFileNameWithoutExtension, lastIndexOf.
  rewrite lastIndexOf_from_absent by done. unfold substring.
  replace (Z.min (Z.max 0 0) _) with 0%Z by lia.
  replace (Z.min (Z.max (-1) 0) _) with 0%Z by lia.
  simpl. by destruct name.
Qed.

End FileNames.

(* ================================================================= *)
(** * The dashboard controller *)

Lemma StronglySorted_reverse {A} (R : relation A) l :
  StronglySorted R l → StronglySorted (flip R) (reverse l).
Proof.
  induction 1 as [|x l Hl IH Hx]; [constructor|].
  rewrite reverse_cons. apply StronglySorted_app_2.
  - intros y z Hy ->%list_elem_of_singleton. unfold flip.
    rewrite elem_of_reverse in Hy. by eapply Forall_forall in Hx.
  - done.
  - repeat constructor.
Qed.

Section ControllerFacts.
Context `{Runtime}.

(** ** [sortedCharts] *)

Lemma sorted_list_asc l : sorted_list "title-asc" l = stable_sort title_asc l.
Proof. done. Qed.

Lemma sorted_list_desc l : sorted_list "title-desc" l = stable_sort title_desc l.
Proof. done. Qed.

Section Consistent.
Hypothesis Hcons : consistent localeCompare.

Lemma title_asc_asym a b : title_asc a b = true → title_asc b a = false.
Proof.
  destruct Hcons as [Hflip _]. unfold title_asc.
  rewrite (Hflip (title b) (title a)).
  by destruct (sign (localeCompare (title a) (title b))).
Qed.

Lemma title_asc_trans a b c :
  before title_asc a b → before title_asc b c → before title_asc a c.
Proof.
  destruct Hcons as [_ Htrans]. unfold before, title_asc. intros Hab Hbc.
  assert (sign (localeCompare (title a) (title c)) ≠ Gt) as Hac.
  { apply (Htrans _ (title b)); intros E; by rewrite E in *. }
  by destruct (sign (localeCompare (title a) (title c))).
Qed.

Lemma title_desc_asym a b : title_desc a b = true → title_desc b a = false.
Proof. intros. by apply (title_asc_asym b a). Qed.

Lemma title_desc_trans a b c :
  before title_desc a b → before title_desc b c → before title_desc a c.
Proof. intros Hab Hbc. by apply (title_asc_trans c b a). Qed.

Lemma tied_not_after t a b :
  tied t a = true → tied t b = true → title_asc a b = false.
Proof.
  destruct Hcons as [Hflip Htrans]. unfold tied, title_asc. intros Ha Hb.
  assert (sign (localeCompare (title a) (title b)) ≠ Gt) as Hab.
  { apply (Htrans _ t).
    - by destruct (sign (localeCompare (title a) t)).
    - rewrite Hflip. by destruct (sign (localeCompare (title b) t)). }
  by destruct (sign (localeCompare (title a) (title b))).
Qed.

(** Both title sorts are stable. *)
Lemma title_asc_stable t l :
  filter (λ c, tied t c = true) (stable_sort title_asc l)
  = filter (λ c, tied t c = true) l.
Proof.
  apply stable_sort_filter. intros x y _ _. apply tied_not_after.
Qed.

Lemma title_desc_stable t l :
  filter (λ c, tied t c = true) (stable_sort title_desc l)
  = filter (λ c, tied t c = true) l.
Proof.
  apply stable_sort_filter. intros x y _ _ Hx Hy.
  by apply (tied_not_after t y x).
Qed.

(** The descending sort of an ascending list without ties is its
    reverse. *)
Lemma title_desc_of_asc l :
  (∀ a b, a ∈ l → b ∈ l →
     sign (localeCompare (title a) (title b)) = Eq → a = b) →
  stable_sort title_desc (stable_sort title_asc l)
  = reverse (stable_sort title_asc l).
Proof.
  intros Hties. set (l1 := stable_sort title_asc l).
  assert (StronglySorted (before title_asc) l1) as Hs1
    by (apply stable_sort_sorted; [apply title_asc_asym|apply title_asc_trans]).
  assert (StronglySorted (before title_desc) (reverse l1)) as Hs2
    by by apply StronglySorted_reverse in Hs1.
  transitivity (stable_sort title_desc (reverse l1));
    [|by apply stable_sort_id].
  apply stable_sort_unique;
    [apply title_desc_asym|apply title_desc_trans|by rewrite reverse_Permutation|].
  intros a b Ha Hb. unfold l1 in Ha, Hb. rewrite stable_sort_elem in Ha, Hb.
  unfold before, title_desc. intros Hab Hba. apply Hties; [done..|].
  destruct Hcons as [Hflip _]. rewrite (Hflip (title a) (title b)) in Hba |- *.
  destruct (sign (localeCompare (title b) (title a))); simpl in *; done.
Qed.

End Consistent.

(** ** The heap *)

Lemma spread_spec (h : heap) a l :
  h !! a = Some l →
  ∃ b, spread a h = (b, <[b := l]> h) ∧ h !! b = None ∧ b ≠ a.
Proof.
  intros Ha. exists (fresh (dom h)).
  assert (h !! fresh (dom h) = None) as Hfresh.
  { apply not_elem_of_dom, is_fresh. }
  split_and!; [|done|].
  - unfold spread, array_at. by rewrite Ha.
  - intros E. by rewrite E, Ha in Hfresh.
Qed.

(** [sortedCharts] returns a new array holding the sorted list and leaves
    every array of the heap as it was. *)
Lemma sortedCharts_spec sortOption (h : heap) a l :
  h !! a = Some l →
  ∃ b, sortedCharts sortOption a h = (b, <[b := sorted_list sortOption l]> h)
       ∧ h !! b = None ∧ b ≠ a.
Proof.
  intros Ha. destruct (spread_spec h a l Ha) as (b & Hsp & Hb & Hne).
  exists b. split_and!; [|done..].
  unfold sortedCharts. rewrite Hsp. cbv beta iota.
  unfold sort_in_place, array_at.
  rewrite lookup_insert_eq. simpl. by rewrite insert_insert_eq.
Qed.

End ControllerFacts.

(* ================================================================= *)
(** * The claims of the specification *)

Import Engine EngineFacts.

(** ** The code on concrete inputs *)

(** [getFileNameWithoutExtension] on the example of its documentation and
    on names without a stem or without a dot. *)
Example file_name_stems :
  getFileNameWithoutExtension "my-data-file.xlsx" = "my-data-file" ∧
  getFileNameWithoutExtension "sales.2024.csv" = "sales.2024" ∧
  getFileNameWithoutExtension ".bashrc" = ".bashrc" ∧
  getFileNameWithoutExtension "README" = "README".
Proof. repeat split; reflexivity. Qed.

(** The session restored from a snapshot as the auto-save writes it. *)
Example restore_snapshot :
  let st :=
    mkState true None [] [] "Untitled Dashboard" "" false false None None in
  let ls : localStorage := {[ INSIGHTHUB_AUTOSAVE_KEY := snapshot_text ]} in
  restore JSON_parse asCharts asString st ls
  = (mkState true None []
       [mkChartConfig "1700000000000" "Sales by region" Bar "Region" "Sales" Sum]
       "Q1" "sales.xlsx" true false None None,
     ls).
Proof. reflexivity. Qed.

(** Re-uploading the restored file keeps the charts; any other file resets
    them. *)
Example upload_after_restore :
  let c := mkChartConfig "1700000000000" "Sales by region" Bar "Region" "Sales" Sum in
  let st := mkState true None [] [c] "Q1" "sales.xlsx" true false None None in
  let rows := [[("Region", CStr "East"); ("Sales", CNum 100%float)]] in
  handleFileUpload "sales.xlsx" rows st
  = mkState true (Some rows) ["Region"; "Sales"] [c] "Q1" "sales.xlsx"
      false false None None
  ∧ handleFileUpload "costs.2024.xlsx" rows st
    = mkState true (Some rows) ["Region"; "Sales"] [] "costs.2024"
        "costs.2024.xlsx" false false None None.
Proof. split; reflexivity. Qed.

(** [String] and [Number] of the executable runtime on a few doubles. *)
Example number_conversions :
  numToString <$> (stringToNumber <$>
    ["0.1"; "1e21"; "1e-7"; "2020"; "-2.5"; "n/a"; " 12.50 "; ""; "0x10";
     "1e3"; "-Infinity"; "12px"])
  = ["0.1"; "1e+21"; "1e-7"; "2020"; "-2.5"; "NaN"; "12.5"; "0"; "16";
     "1000"; "-Infinity"; "NaN"]
  ∧ numToString (add (stringToNumber "0.1") (stringToNumber "0.2"))
    = "0.30000000000000004"
  ∧ numToString (div (ofNat 0) (ofNat 0)) = "NaN".
Proof. repeat split; reflexivity. Qed.

(* ================================================================= *)
(** * The aggregation engine: claims *)

(** The example of the specification: averages per region, East before
    West. *)
Example aggregate_regions :
  DataProcessor.aggregateData
    (Some [[("Region", CStr "East"); ("Sales", CNum 100%float)];
           [("Region", CStr "East"); ("Sales", CNum 50%float)];
           [("Region", CStr "West"); ("Sales", CNum 80%float)]])
    "Region" "Sales" Average
  = Return [[("Region", CStr "East"); ("Sales", CNum 75%float)];
            [("Region", CStr "West"); ("Sales", CNum 80%float)]].
Proof. reflexivity. Qed.

(** C1: a group whose measure never coerces to a number has an empty
    numeric pool, and the module that the chart widget imports still emits
    it: with 0 for Sum and for Count, with NaN for Average.  The variant of
    the module omits the group in all three cases. *)
Theorem aggregateData_emits_empty_group :
  let rows := [[("Region", CStr "East"); ("Sales", CStr "n/a")]] in
  pool "Region" "Sales" "East" rows = [] ∧
  DataProcessor.aggregateData (Some rows) "Region" "Sales" Sum
    = Return [[("Region", CStr "East"); ("Sales", CNum 0%float)]] ∧
  DataProcessor.aggregateData (Some rows) "Region" "Sales" Count
    = Return [[("Region", CStr "East"); ("Sales", CNum 0%float)]] ∧
  DataProcessor.aggregateData (Some rows) "Region" "Sales" Average
    = Return [[("Region", CStr "East"); ("Sales", CNum nan)]] ∧
  DataProcessorVariant.aggregateData (Some rows) "Region" "Sales" Sum
    = Return [] ∧
  DataProcessorVariant.aggregateData (Some rows) "Region" "Sales" Count
    = Return [] ∧
  DataProcessorVariant.aggregateData (Some rows) "Region" "Sales" Average
    = Return [].
Proof. repeat split; reflexivity. Qed.

(** C2: numeric group keys are not sorted as numbers.  Both copies of the
    module turn every group key into a string before they group, so the
    branch of the comparator that subtracts two numbers is never taken, and
    the keys 9, 10 and 100 come out in the order of their digits: "10",
    "100", "9".  The output rows hold the keys as strings. *)
Theorem aggregateData_sorts_numbers_as_text :
  let row q := [("Qty", CNum q); ("Sales", CNum 1%float)] in
  let out k := [("Qty", CStr k); ("Sales", CNum 1%float)] in
  let rows := [row 9%float; row 10%float; row 100%float] in
  sign (sub 9%float 10%float) = Lt ∧
  sign (sub 10%float 100%float) = Lt ∧
  sign (localeCompare "100" "9") = Lt ∧
  DataProcessor.aggregateData (Some rows) "Qty" "Sales" Sum
    = Return [out "10"; out "100"; out "9"] ∧
  DataProcessorVariant.aggregateData (Some rows) "Qty" "Sales" Sum
    = Return [out "10"; out "100"; out "9"].
Proof. repeat split; reflexivity. Qed.

(** The frequency path does not sort at all: the rows come out in the
    order in which the keys were first seen, so two orders of the same rows
    give different outputs, and the first output lists key "b" before key
    "a". *)
Lemma aggregate_frequency_follows_row_order :
  let b := [("Region", CStr "b")] in
  let a := [("Region", CStr "a")] in
  [b; a; a] ≡ₚ [a; a; b] ∧
  Object_keys (foldl (count_row "Region") [] [b; a; a]) = ["b"; "a"] ∧
  DataProcessor.aggregateData (Some [b; a; a]) "Region" "Region" Count
    = Return [[("Region", CNum 1%float)]; [("Region", CNum 2%float)]] ∧
  DataProcessor.aggregateData (Some [a; a; b]) "Region" "Region" Count
    = Return [[("Region", CNum 2%float)]; [("Region", CNum 1%float)]] ∧
  DataProcessor.aggregateData (Some [b; a; a]) "Region" "Region" Count
    ≠ DataProcessor.aggregateData (Some [a; a; b]) "Region" "Region" Count.
Proof.
  intros b a. split_and!.
  - apply (Permutation_app_comm [b] [a; a]).
  - reflexivity.
  - reflexivity.
  - reflexivity.
  - intros E.
    apply (f_equal (λ r : result (list (list (string * @cell runtime))),
                      match r with
                      | Return ([(_, CNum x)] :: _) => PrimFloat.eqb x 1
                      | _ => false
                      end)) in E.
    vm_compute in E. discriminate.
Qed.

(** X25: on the general path with distinct group and measure columns, on
    rows where [aggregateData] does not throw, the output is sorted
    ascending by group key under [localeCompare] (a consistent comparison,
    as ECMAScript requires).  The output is the same for a permutation of
    the rows in which no two different group keys collate as equal and, for
    Sum and Average, every group adds up to the same sum as before; Count
    needs no such condition. *)
Theorem aggregate_sorted_and_order_independent `{Runtime}
    (rows : list DataRow) (g m : string) (kind : AggregationType) :
  g ≠ m →
  consistent localeCompare →
  ¬ throws_on g m rows →
  ∃ out,
    DataProcessor.aggregateData (Some rows) g m kind = Return out ∧
    StronglySorted (λ a b, locale_le (key_of g a) (key_of g b)) out ∧
    ∀ rows',
      rows ≡ₚ rows' →
      (∀ r1 r2, r1 ∈ rows → r2 ∈ rows →
         sign (localeCompare (key_of g r1) (key_of g r2)) = Eq →
         key_of g r1 = key_of g r2) →
      (kind = Sum ∨ kind = Average →
         ∀ r, r ∈ rows →
           foldl add zero (pool g m (key_of g r) rows')
           = foldl add zero (pool g m (key_of g r) rows)) →
      DataProcessor.aggregateData (Some rows') g m kind = Return out.
Proof.
  intros Hne Hcons Hno.
  destruct (aggregateData_returns rows g m kind Hno) as [out Hout].
  exists out. split; [done|].
  by apply (sorted_and_order_independent rows g m kind).
Qed.

Lemma aggregate_sorted_and_order_independent_witness :
  let west := [("Region", CStr "West"); ("Sales", CNum 80%float)] in
  let east1 := [("Region", CStr "East"); ("Sales", CNum 100%float)] in
  let east2 := [("Region", CStr "East"); ("Sales", CNum 50%float)] in
  let east3 := [("Region", CStr "East"); ("Sales", CStr "n/a")] in
  ∃ out,
    DataProcessor.aggregateData (Some [west; east1; east2; east3])
      "Region" "Sales" Sum = Return out ∧
    out = [[("Region", CStr "East"); ("Sales", CNum 150%float)];
           [("Region", CStr "West"); ("Sales", CNum 80%float)]] ∧
    StronglySorted
      (λ a b, locale_le (key_of "Region" a) (key_of "Region" b)) out ∧
    DataProcessor.aggregateData (Some [east3; east2; west; east1])
      "Region" "Sales" Sum = Return out.
Proof.
  intros west east1 east2 east3.
  destruct (aggregate_sorted_and_order_independent
              [west; east1; east2; east3] "Region" "Sales" Sum)
    as (out & Hout & Hsorted & Hperm).
  - done.
  - apply localeCompare_consistent.
  - intros (row & Hin & Hinh & _).
    repeat (apply elem_of_cons in Hin as [->|Hin]);
      [vm_compute in Hinh; by destruct Hinh..|].
    by apply elem_of_nil in Hin.
  - exists out. split_and!; [done| |done|].
    + assert (DataProcessor.aggregateData (Some [west; east1; east2; east3])
                "Region" "Sales" Sum
              = Return [[("Region", CStr "East"); ("Sales", CNum 150%float)];
                        [("Region", CStr "West"); ("Sales", CNum 80%float)]])
        as Hval by reflexivity.
      rewrite Hval in Hout. by injection Hout as <-.
    + apply Hperm.
      * etrans; [apply (Permutation_app_comm [west; east1; east2] [east3])|].
        apply perm_skip.
        apply (Permutation_app_comm [west; east1] [east2]).
      * intros r1 r2 _ _. apply localeCompare_Eq.
      * intros _ r Hin.
        repeat (apply elem_of_cons in Hin as [->|Hin]); [reflexivity..|].
        by apply elem_of_nil in Hin.
Defined.



(** The frequency path on rows whose values name no inherited member: one
    row per distinct value, holding its number of rows. *)
Example frequency_of_regions :
  let rows := [[("Region", CStr "West")]; [("Region", CStr "East")];
               [("Region", CStr "West")]] in
  ∃ keys,
    NoDup keys ∧
    (∀ k, k ∈ keys ↔ ∃ row, row ∈ rows ∧ key_of "Region" row = k) ∧
    DataProcessor.aggregateData (Some rows) "Region" "Region" Count
    = Return ((λ k, [("Region", CNum (ofNat (occurrences "Region" k rows)))])
                <$> keys) ∧
    sum_list ((λ k, occurrences "Region" k rows) <$> keys) = 3%nat.
Proof.
  intros rows. apply (frequency_counts rows "Region").
  - intros c Hc. simpl in Hc.
    destruct c as [|[|[|c]]]; [split; reflexivity..|lia].
  - intros row Hin Hinh.
    repeat (apply elem_of_cons in Hin as [->|Hin]);
      [vm_compute in Hinh; by destruct Hinh..|].
    by apply elem_of_nil in Hin.
Qed.

(** C3: the frequency path miscounts a value that names a member of
    [Object.prototype].  The counter of "constructor" starts from the
    inherited function, so its "count" is a string and not 1; the assignment
    to "__proto__" creates no property, so that value gets no output row at
    all and the counts no longer add up to the number of rows. *)
Theorem frequency_miscounts_inherited_names :
  DataProcessor.aggregateData (Some [[("Role", CStr "constructor")]])
    "Role" "Role" Count
  = Return [[("Role", CStr "function Object() { [native code] }1")]]
  ∧ DataProcessor.aggregateData (Some [[("Role", CStr "__proto__")]])
      "Role" "Role" Count
    = Return []
  ∧ DataProcessor.aggregateData
      (Some [[("Role", CStr "__proto__")]; [("Role", CStr "admin")]])
      "Role" "Role" Count
    = Return [[("Role", CNum 1%float)]].
Proof. repeat split; reflexivity. Qed.

(** C9: [aggregateData] throws a [TypeError] when a group key names a
    member of [Object.prototype] and the measure is a number: the group is
    never opened, and [push] is called on the inherited member.  Absent and
    empty row sets return the empty sequence. *)
Theorem aggregateData_throws_on_inherited_key :
  DataProcessor.aggregateData
    (Some [[("Role", CStr "constructor"); ("Sales", CNum 1%float)]])
    "Role" "Sales" Sum
  = TypeError
  ∧ DataProcessorVariant.aggregateData
      (Some [[("Role", CStr "constructor"); ("Sales", CNum 1%float)]])
      "Role" "Sales" Sum
    = TypeError
  ∧ DataProcessor.aggregateData None "Role" "Sales" Sum = Return []
  ∧ DataProcessor.aggregateData (Some []) "Role" "Sales" Sum = Return [].
Proof. repeat split; reflexivity. Qed.

(** C10: the two modules differ on a group without a numeric measure: one
    returns a row for it, the other returns none. *)
Theorem variant_differs_on_empty_pool :
  let rows := [[("Region", CStr "East"); ("Sales", CStr "n/a")];
               [("Region", CStr "West"); ("Sales", CNum 80%float)]] in
  DataProcessor.aggregateData (Some rows) "Region" "Sales" Sum
    = Return [[("Region", CStr "East"); ("Sales", CNum 0%float)];
              [("Region", CStr "West"); ("Sales", CNum 80%float)]]
  ∧ DataProcessorVariant.aggregateData (Some rows) "Region" "Sales" Sum
    = Return [[("Region", CStr "West"); ("Sales", CNum 80%float)]]
  ∧ DataProcessorVariant.aggregateData (Some rows) "Region" "Sales" Sum
    ≠ DataProcessor.aggregateData (Some rows) "Region" "Sales" Sum.
Proof.
  intros rows. split_and!; [reflexivity..|].
  intros E. apply (f_equal (λ r : result (list (list (string * @cell runtime))),
                              match r with Return l => length l | _ => 0%nat end))
    in E.
  vm_compute in E. discriminate.
Qed.

(* ================================================================= *)
(** * The dashboard controller: claims *)

Section ControllerClaims.
Context `{Runtime}.

(** C4 (amended): [handleSaveChart] decides by the edit mode and not by the
    id.  While a chart is being edited the list keeps its length and every
    chart with the id of the config is replaced by the config; otherwise the
    config is appended and the list is exactly one longer. *)
Theorem handleSaveChart_by_mode (config : ChartConfig) (st : State) :
  let st' := handleSaveChart config st in
  (is_Some (editingChart st) →
     length (charts st') = length (charts st) ∧
     charts st'
     = (λ chart, if decide (id chart = id config) then config else chart)
         <$> charts st ∧
     ∀ chart, chart ∈ charts st' → id chart = id config → chart = config) ∧
  (editingChart st = None →
     charts st' = charts st ++ [config] ∧
     length (charts st') = S (length (charts st))).
Proof.
  unfold handleSaveChart. split.
  - intros [e He]. rewrite He. simpl. split_and!.
    + by rewrite length_fmap.
    + done.
    + intros chart (c & -> & _)%list_elem_of_fmap. by case_decide.
  - intros ->. simpl. split; [done|]. rewrite length_app. simpl. lia.
Qed.

(** C6: [handleFileUpload] on a file called [name]: unless the session is
    restored and [name] is the stored file name, the chart list becomes
    empty and the title becomes the name without its extension (the part
    before the last dot; the whole name when there is no dot); for the
    restored file name the chart list (and the title) stay.  The stored file
    name becomes [name] and the restored flag is cleared. *)
Theorem handleFileUpload_resets_or_keeps
    (name : string) (jsonData : list DataRow) (st : State) :
  let st' := handleFileUpload name jsonData st in
  (fileName st ≠ name ∨ isRestored st = false →
     charts st' = [] ∧
     dashboardTitle st' = getFileNameWithoutExtension name ∧
     (∀ stem ext, name = stem +:+ "." +:+ ext → stem ≠ "" →
        occurs "." ext = false → dashboardTitle st' = stem) ∧
     (occurs "." name = false → dashboardTitle st' = name)) ∧
  (isRestored st = true ∧ fileName st = name →
     charts st' = charts st ∧ dashboardTitle st' = dashboardTitle st) ∧
  fileName st' = name ∧
  isRestored st' = false ∧
  data st' = Some jsonData.
Proof.
  unfold handleFileUpload. split_and!.
  - intros Hnew.
    assert (negb (isRestored st) || negb (bool_decide (fileName st = name))
            = true) as ->.
    { destruct Hnew as [Hne| ->]; [|done].
      rewrite (bool_decide_eq_false_2 _ Hne). apply orb_true_r. }
    split_and!; [by destruct jsonData..| |].
    + intros stem ext -> ? ?. destruct jsonData; simpl;
        by apply getFileNameWithoutExtension_strips.
    + intros ?. destruct jsonData; simpl;
        by apply getFileNameWithoutExtension_keeps.
  - intros [-> ->]. rewrite bool_decide_eq_true_2 by done. simpl.
    by destruct jsonData.
  - done.
  - done.
  - by destruct jsonData, (_ || _).
Qed.

(** C7: [handleClearDashboard] empties the chart list and leaves every other
    cell, the title and the file name among them, as it was. *)
Theorem handleClearDashboard_frame (st : State) :
  let st' := handleClearDashboard st in
  charts st' = [] ∧
  dashboardTitle st' = dashboardTitle st ∧
  fileName st' = fileName st ∧
  isAuthenticated st' = isAuthenticated st ∧
  data st' = data st ∧
  columns st' = columns st ∧
  isRestored st' = isRestored st ∧
  isBuilderOpen st' = isBuilderOpen st ∧
  editingChart st' = editingChart st ∧
  draggedChartType st' = draggedChartType st.
Proof. done. Qed.

End ControllerClaims.

Section ControllerClaims2.
Context `{Runtime}.

(** C5 (amended): sorting by title ascending and sorting that result by
    title descending.  Neither sort changes the array it is given (nor any
    other array of the heap it starts from); both results are permutations
    of the input, sorted under [localeCompare], and both sorts are stable:
    configs whose titles collate as equal keep their order, so the second
    result is the exact reverse of the first precisely as far as there are
    no ties: it is the reverse when no two different configs of the list
    have titles that collate as equal. *)
Theorem title_sorts_stable_and_inverse
    (h : heap) (c : nat) (l : list ChartConfig) :
  consistent localeCompare →
  h !! c = Some l →
  let '(r1, h1) := sortedCharts "title-asc" c h in
  let '(r2, h2) := sortedCharts "title-desc" r1 h1 in
  let l1 := array_at h1 r1 in
  let l2 := array_at h2 r2 in
  h1 !! c = Some l ∧ h2 !! c = Some l ∧ h2 !! r1 = Some l1 ∧
  l1 ≡ₚ l ∧ l2 ≡ₚ l ∧
  StronglySorted (before title_asc) l1 ∧
  StronglySorted (before title_desc) l2 ∧
  (∀ t, filter (λ x, tied t x = true) l1 = filter (λ x, tied t x = true) l ∧
        filter (λ x, tied t x = true) l2 = filter (λ x, tied t x = true) l1) ∧
  ((∀ a b, a ∈ l → b ∈ l →
      sign (localeCompare (title a) (title b)) = Eq → a = b) →
   l2 = reverse l1).
Proof.
  intros Hcons Hc.
  destruct (sortedCharts_spec "title-asc" h c l Hc) as (b1 & -> & Hb1 & Hne1).
  set (h1 := <[b1 := sorted_list "title-asc" l]> h).
  assert (h1 !! b1 = Some (sorted_list "title-asc" l)) as Hh1
    by apply lookup_insert_eq.
  destruct (sortedCharts_spec "title-desc" h1 b1 _ Hh1)
    as (b2 & -> & Hb2 & Hne2).
  assert (h1 !! c = Some l) as Hc1.
  { unfold h1. by rewrite lookup_insert_ne. }
  assert (b2 ≠ c) as Hne3.
  { intros ->. by rewrite Hc1 in Hb2. }
  unfold array_at. rewrite lookup_insert_eq, Hh1. simpl.
  rewrite sorted_list_asc, sorted_list_desc.
  split_and!.
  - done.
  - by rewrite lookup_insert_ne.
  - by rewrite lookup_insert_ne.
  - apply stable_sort_perm.
  - by rewrite !stable_sort_perm.
  - apply stable_sort_sorted;
      [by apply title_asc_asym|by apply title_asc_trans].
  - apply stable_sort_sorted;
      [by apply title_desc_asym|by apply title_desc_trans].
  - intros t. split; [by apply title_asc_stable|by apply title_desc_stable].
  - by apply title_desc_of_asc.
Qed.

(** What the restore effect does to the cells as stored is what
    [restore] does to their typed reading. *)
Lemma restore_typed_reading
    (JSON_parse : string → option json)
    (asCharts : json → list ChartConfig) (asString : json → string)
    (st : State) (ls : localStorage) (c : Startup.Cells) :
  ∃ c' ls',
    Startup.restore JSON_parse c ls = Startup.Normal (c', ls') ∧
    restore JSON_parse asCharts asString
      (Startup.typed_state asCharts asString c st) ls
    = (Startup.typed_state asCharts asString c' st, ls').
Proof.
  unfold Startup.restore, restore. simpl.
  destruct (Startup.isAuthenticated c); simpl; [|by eexists _, _].
  destruct (ls !! INSIGHTHUB_AUTOSAVE_KEY) as [text|]; [|by eexists _, _].
  case_bool_decide; [by eexists _, _|].
  unfold Startup.try_block, restore_from.
  destruct (JSON_parse text) as [v|]; simpl; [|by eexists _, _].
  destruct (member v "charts") as [savedCharts|]; simpl; [|by eexists _, _].
  destruct (member v "fileName") as [savedFileName|]; simpl;
    [|by eexists _, _].
  destruct (json_truthy savedCharts && json_truthy savedFileName);
    simpl; [|by eexists _, _].
  destruct (member v "dashboardTitle") as [savedTitle|]; simpl;
    [|by eexists _, _].
  destruct (json_truthy savedTitle); by eexists _, _.
Qed.

(** C8 (amended): the restore effect.  Without an entry under the key, and
    with an empty string stored there, nothing is restored and the storage
    is left alone; a non-empty entry that [JSON.parse] rejects is removed
    and nothing is restored.  The effect never throws, also on the cells as
    they are stored: whatever is thrown inside the [try] ends in the
    [catch], which removes the entry and sets no cell; and in the three
    cases above the cells are those from before the effect. *)
Theorem restore_absent_or_corrupt
    (JSON_parse : string → option json)
    (asCharts : json → list ChartConfig) (asString : json → string)
    (st : State) (ls : localStorage) (c : Startup.Cells) :
  let r := restore JSON_parse asCharts asString st ls in
  (ls !! INSIGHTHUB_AUTOSAVE_KEY = None → r = (st, ls)) ∧
  (ls !! INSIGHTHUB_AUTOSAVE_KEY = Some "" → r = (st, ls)) ∧
  (∀ s, ls !! INSIGHTHUB_AUTOSAVE_KEY = Some s → s ≠ "" →
        JSON_parse s = None → isAuthenticated st = true →
        r = (st, delete INSIGHTHUB_AUTOSAVE_KEY ls) ∧
        r.2 !! INSIGHTHUB_AUTOSAVE_KEY = None) ∧
  (isAuthenticated st = false → r = (st, ls)) ∧
  ∃ c' ls',
    Startup.restore JSON_parse c ls = Startup.Normal (c', ls') ∧
    restore JSON_parse asCharts asString
      (Startup.typed_state asCharts asString c st) ls
    = (Startup.typed_state asCharts asString c' st, ls') ∧
    (ls !! INSIGHTHUB_AUTOSAVE_KEY = None
     ∨ ls !! INSIGHTHUB_AUTOSAVE_KEY = Some ""
     ∨ Startup.isAuthenticated c = false →
     c' = c ∧ ls' = ls) ∧
    (∀ s, ls !! INSIGHTHUB_AUTOSAVE_KEY = Some s → s ≠ "" →
          Startup.isAuthenticated c = true →
          (JSON_parse s = None
           ∨ ∃ e, Startup.try_block JSON_parse s c = Startup.Thrown e) →
          c' = c ∧ ls' = delete INSIGHTHUB_AUTOSAVE_KEY ls) ∧
    (ls' = ls ∨ c' = c ∧ ls' = delete INSIGHTHUB_AUTOSAVE_KEY ls).
Proof.
  split_and!.
  - unfold restore. intros ->. by destruct (isAuthenticated st).
  - unfold restore. intros ->. by destruct (isAuthenticated st).
  - unfold restore. intros s -> Hs Hparse ->. simpl.
    rewrite (bool_decide_eq_false_2 _ Hs), Hparse. split; [done|].
    apply lookup_delete_eq.
  - unfold restore. by intros ->.
  - destruct (restore_typed_reading JSON_parse asCharts asString st ls c)
      as (c' & ls' & Hraw & Htyped).
    exists c', ls'. split; [done|]. split; [done|].
    clear Htyped. unfold Startup.restore in Hraw. split_and!.
    + intros [Hls|[Hls|Hauth]].
      * rewrite Hls in Hraw. destruct (Startup.isAuthenticated c);
          simpl in Hraw; by simplify_eq.
      * rewrite Hls in Hraw. destruct (Startup.isAuthenticated c);
          simpl in Hraw; by simplify_eq.
      * rewrite Hauth in Hraw. simpl in Hraw. by simplify_eq.
    + intros s Hls Hs Hauth Hthrown.
      rewrite Hauth, Hls, (bool_decide_eq_false_2 _ Hs) in Hraw.
      simpl in Hraw.
      assert (∃ e, Startup.try_block JSON_parse s c = Startup.Thrown e)
        as [e He].
      { destruct Hthrown as [Hparse|?]; [|done].
        exists Startup.SyntaxError. unfold Startup.try_block.
        by rewrite Hparse. }
      rewrite He in Hraw. simpl in Hraw. by simplify_eq.
    + destruct (Startup.isAuthenticated c); simpl in Hraw;
        [|left; by simplify_eq].
      destruct (ls !! INSIGHTHUB_AUTOSAVE_KEY) as [s|];
        [|left; by simplify_eq].
      case_bool_decide; [left; by simplify_eq|].
      destruct (Startup.try_block JSON_parse s c) as [c1|e];
        simpl in Hraw; simplify_eq; [by left|by right].
Qed.

End ControllerClaims2.

(** C4, as stated, fails both ways: with no chart being edited a config
    whose id is already in the list is appended (two charts, one id), and
    while a chart is being edited a config with a new id is dropped. *)
Lemma handleSaveChart_ignores_the_id :
  let c := mkChartConfig "1700000000000" "Sales" Bar "Region" "Sales" Sum in
  let d := mkChartConfig "1700000000000" "Sales again" Line "Region" "Sales" Sum in
  let e := mkChartConfig "1700000000001" "Count" Pie "Region" "Region" Count in
  let creating :=
    mkState true (Some []) ["Region"; "Sales"] [c] "sales" "sales.xlsx"
      false false None None in
  let editing :=
    mkState true (Some []) ["Region"; "Sales"] [c] "sales" "sales.xlsx"
      false true (Some c) None in
  (valid d = true ∧ id d ∈ (id <$> charts creating) ∧
   charts (handleSaveChart d creating) = [c; d] ∧
   length (charts (handleSaveChart d creating)) ≠ length (charts creating)) ∧
  (valid e = true ∧ ¬ (id e ∈ (id <$> charts editing)) ∧
   charts (handleSaveChart e editing) = [c] ∧
   length (charts (handleSaveChart e editing))
   ≠ S (length (charts editing))).
Proof.
  intros c d e creating editing. split; split_and!;
    try reflexivity; try (simpl; lia).
  - by left.
  - intros [E|E%elem_of_nil]%elem_of_cons; [discriminate|done].
Qed.

(** C5, as stated, fails when two configs have equal titles: the stable
    descending sort keeps the tied configs in the order of the first result,
    which therefore is not reversed. *)
Lemma title_sorts_keep_ties :
  let a := mkChartConfig "1" "Sales" Bar "Region" "Sales" Sum in
  let b := mkChartConfig "2" "Sales" Line "Month" "Sales" Average in
  let h : heap := {[ 0%nat := [a; b] ]} in
  let '(r1, h1) := sortedCharts "title-asc" 0%nat h in
  let '(r2, h2) := sortedCharts "title-desc" r1 h1 in
  array_at h1 r1 = [a; b] ∧
  array_at h2 r2 = [a; b] ∧
  reverse (array_at h1 r1) = [b; a] ∧
  array_at h2 r2 ≠ reverse (array_at h1 r1).
Proof. vm_compute. split_and!; [reflexivity..|discriminate]. Qed.

Lemma title_sorts_stable_and_inverse_witness :
  let a := mkChartConfig "1" "Revenue" Bar "Region" "Sales" Sum in
  let b := mkChartConfig "2" "Costs" Line "Month" "Costs" Average in
  let c := mkChartConfig "3" "Orders" Pie "Region" "Region" Count in
  let h : heap := {[ 7%nat := [a; b; c] ]} in
  let '(r1, h1) := sortedCharts "title-asc" 7%nat h in
  let '(r2, h2) := sortedCharts "title-desc" r1 h1 in
  h2 !! 7%nat = Some [a; b; c] ∧
  array_at h1 r1 = [b; c; a] ∧
  array_at h2 r2 = reverse (array_at h1 r1).
Proof.
  intros a b c h.
  pose proof (title_sorts_stable_and_inverse h 7%nat [a; b; c]
                localeCompare_consistent eq_refl) as W.
  destruct (sortedCharts "title-asc" 7%nat h) as [r1 h1] eqn:E1.
  destruct (sortedCharts "title-desc" r1 h1) as [r2 h2] eqn:E2.
  destruct W as (_ & Hkept & _ & _ & _ & _ & _ & _ & Hrev).
  split_and!.
  - exact Hkept.
  - vm_compute in E1. by injection E1 as <- <-.
  - apply Hrev. intros x y Hx Hy Heq%localeCompare_Eq.
    set_unfold. destruct Hx as [->|[->|[->|[]]]], Hy as [->|[->|[->|[]]]];
      done || discriminate.
Defined.

(** C8, as stated, fails twice.  An empty stored string is not JSON, and
    the effect leaves it where it is.  And a session start can throw: the
    entry [{"charts":1,"fileName":"f.csv"}] parses, the effect stores the
    number 1 in the chart list and keeps the entry, and the copy
    [[...charts]] of the render that follows throws a [TypeError]. *)
Lemma restore_empty_and_mistyped_entry :
  let st :=
    mkState true None [] [] "Untitled Dashboard" "" false false None None in
  let ls : localStorage := {[ INSIGHTHUB_AUTOSAVE_KEY := "" ]} in
  let text :=
    "{" +:+ quoted "charts" +:+ ":1," +:+ quoted "fileName" +:+ ":" +:+
      quoted "f.csv" +:+ "}" in
  let stored : localStorage := {[ INSIGHTHUB_AUTOSAVE_KEY := text ]} in
  let one := Startup.Parsed (Some (JNumber 1%float)) in
  (JSON_parse "" = None ∧
   restore JSON_parse asCharts asString st ls = (st, ls) ∧
   (restore JSON_parse asCharts asString st ls).2 !! INSIGHTHUB_AUTOSAVE_KEY
   = Some "") ∧
  (JSON_parse text
   = Some (JObject [("charts", JNumber 1%float);
                    ("fileName", JString "f.csv")]) ∧
   Startup.restore JSON_parse Startup.loggedIn stored
   = Startup.Normal
       (Startup.mkCells true one
          (Startup.Parsed (Some (JString "f.csv")))
          (Startup.Typed "Untitled Dashboard") true,
        stored) ∧
   Startup.spread one = Startup.Thrown Startup.TypeError).
Proof. split; split_and!; reflexivity. Qed.

(** The restore effect on a corrupt and on a well-formed entry. *)
Example restore_corrupt_entry :
  let st :=
    mkState true None [] [] "Untitled Dashboard" "" false false None None in
  let ls : localStorage := {[ INSIGHTHUB_AUTOSAVE_KEY := "{charts" ]} in
  restore JSON_parse asCharts asString st ls = (st, ∅).
Proof. reflexivity. Qed.

(* ================================================================= *)
(** * Further properties of the code *)

(** ** More on sorting and filtering *)

Lemma filter_swap {A} (P Q : A → Prop) `{∀ x, Decision (P x)}
    `{∀ x, Decision (Q x)} (l : list A) :
  filter P (filter Q l) = filter Q (filter P l).
Proof.
  rewrite !list_filter_filter. apply list_filter_iff. intros x. tauto.
Qed.

Lemma filter_fmap_list {A B} (f : A → B) (P : B → Prop)
    `{∀ x, Decision (P x)} (l : list A) :
  filter P (f <$> l) = f <$> filter (λ x, P (f x)) l.
Proof.
  induction l as [|x l IH]; [done|]. csimpl.
  rewrite !filter_cons, IH. by case_decide.
Qed.

Lemma filter_ext_in {A} (P Q : A → Prop) `{∀ x, Decision (P x)}
    `{∀ x, Decision (Q x)} (l : list A) :
  (∀ x, x ∈ l → P x ↔ Q x) → filter P l = filter Q l.
Proof.
  induction l as [|x l IH]; intros HPQ; [done|].
  rewrite !filter_cons, IH by (intros y Hy; apply HPQ; by right).
  destruct (decide (P x)) as [HP|HP], (decide (Q x)) as [HQ|HQ]; try done.
  - destruct HQ. apply HPQ; [by left|done].
  - destruct HP. apply HPQ; [by left|done].
Qed.

Lemma StronglySorted_filter {A} (R : relation A) (P : A → Prop)
    `{∀ x, Decision (P x)} l :
  StronglySorted R l → StronglySorted R (filter P l).
Proof.
  induction 1 as [|x l Hl IH Hx]; [constructor|].
  rewrite filter_cons. case_decide; [|done].
  constructor; [done|]. apply Forall_forall. intros y Hy%list_elem_of_filter.
  eapply Forall_forall in Hx; [done|]. by destruct Hy.
Qed.

Lemma StronglySorted_mono {A} (R R' : relation A) l :
  (∀ a b, R a b → R' a b) → StronglySorted R l → StronglySorted R' l.
Proof.
  intros HR. induction 1 as [|x l Hl IH Hx]; constructor; [done|].
  eapply Forall_impl; [done|]. apply HR.
Qed.

Section SortAndFilter.
Context {A : Type} (after : A → A → bool).
Hypothesis after_asym : ∀ a b, after a b = true → after b a = false.
Hypothesis before_trans :
  ∀ a b c, before after a b → before after b c → before after a c.

(** Sorting commutes with leaving elements out. *)
Lemma stable_sort_filter_comm (P : A → Prop) `{∀ x, Decision (P x)} l :
  filter P (stable_sort after l) = stable_sort after (filter P l).
Proof.
  apply stable_sort_characterised; [done..| | |].
  - by rewrite stable_sort_perm.
  - apply StronglySorted_filter. by apply stable_sort_sorted.
  - intros z. rewrite filter_swap. rewrite stable_sort_stable by done.
    apply filter_swap.
Qed.

End SortAndFilter.

(** ** The aggregation engine, group by group *)

Section Groups.
Context `{Runtime}.
Implicit Types (rows : list DataRow) (g m key : string).

Lemma is_frequency_distinct g m kind : g ≠ m → is_frequency g m kind = false.
Proof.
  intros Hne. unfold is_frequency.
  rewrite (bool_decide_eq_false_2 (g = m)) by done. apply andb_false_r.
Qed.

Lemma is_frequency_not_Count g m kind :
  kind ≠ Count → is_frequency g m kind = false.
Proof.
  intros Hne. unfold is_frequency.
  by rewrite (bool_decide_eq_false_2 (kind = Count)).
Qed.

Lemma is_frequency_false g m kind :
  is_frequency g m kind = false ↔ ¬ (kind = Count ∧ g = m).
Proof.
  unfold is_frequency. rewrite andb_false_iff, !bool_decide_eq_false.
  split; [tauto|]. intros Hno.
  destruct (decide (kind = Count)); [right|left]; tauto.
Qed.

(** The groups that the loop has opened, put in the order of the final
    sort. *)
Lemma sorted_groups g m rows grouped :
  grouped_ok g m rows grouped →
  let l := stable_sort by_key (entries grouped) in
  NoDup l.*1 ∧
  (∀ k, k ∈ l.*1 ↔ ¬ inherited k ∧ ∃ row, row ∈ rows ∧ key_of g row = k) ∧
  l = (λ k, (k, pool g m k rows)) <$> l.*1.
Proof.
  intros [Hnd Hkeys Hpool] l.
  assert (l ≡ₚ grouped) as Hl.
  { unfold l. by rewrite stable_sort_perm, entries_perm. }
  split_and!.
  - by rewrite Hl.
  - intros k. by rewrite Hl.
  - apply obj_by_keys. intros k vs Hin. apply Hpool. by rewrite <-Hl.
Qed.

Lemma variant_TypeError rows g m kind :
  DataProcessorVariant.aggregateData (Some rows) g m kind = TypeError ↔
  is_frequency g m kind = false ∧ throws_on g m rows.
Proof.
  rewrite variant_unfold.
  destruct (is_frequency g m kind); [by split; [|intros [? _]]|].
  pose proof (group_rows_spec g m rows) as Hspec.
  destruct (forEach (group_row g m) [] rows); simpl.
  - split; [done|]. intros [_ ?]. by destruct Hspec.
  - done.
Qed.

Lemma update_length {V} (o : obj V) k v : length (update o k v) = length o.
Proof. by rewrite <-(length_fmap fst), update_keys, length_fmap. Qed.

Lemma count_rows_length g rows counts :
  (length (foldl (count_row g) counts rows) ≤ length counts + length rows)%nat.
Proof.
  revert counts. induction rows as [|row rows IH]; intros counts; simpl; [lia|].
  etrans; [apply IH|]. rewrite count_row_eq.
  repeat case_match; rewrite ?update_length, ?length_app; simpl; lia.
Qed.

Lemma group_rows_length g m rows grouped grouped' :
  forEach (group_row g m) grouped rows = Return grouped' →
  (length grouped' ≤ length grouped + length rows)%nat.
Proof.
  revert grouped. induction rows as [|row rows IH]; intros grouped; simpl.
  { intros [= ->]. lia. }
  destruct (group_row g m grouped row) as [grouped1|] eqn:E; [|done]. simpl.
  intros Hrest%IH. etrans; [exact Hrest|].
  rewrite group_row_eq in E.
  repeat case_match; simplify_eq; rewrite ?update_length, ?length_app;
    simpl; lia.
Qed.

Lemma frequency_length rows g m :
  (length (frequency rows g m) ≤ length rows)%nat.
Proof.
  unfold frequency. rewrite length_fmap, entries_perm.
  apply (count_rows_length g rows []).
Qed.

End Groups.

(** Discharges [¬ throws_on g m rows] on a literal list of rows of the
    executable runtime. *)
Ltac no_inherited_key :=
  let row := fresh "row" in
  let Hin := fresh "Hin" in
  let Hinh := fresh "Hinh" in
  intros (row & Hin & Hinh & _);
  repeat (apply elem_of_cons in Hin as [->|Hin];
          [vm_compute in Hinh; by destruct Hinh|]);
  by apply elem_of_nil in Hin.

(** X1: on the general path with distinct group and measure columns, and
    on rows on which it does not throw, [aggregateData] returns exactly one
    row per group key that is no inherited name: the row holds the key
    under the group column and, under the measure column, the reduction of
    the numeric pool of the group (the sum, the number of numeric cells,
    the mean, or 0 for an unknown aggregation).  No key appears twice. *)
Theorem aggregateData_one_row_per_group `{Runtime}
    (rows : list DataRow) (g m : string) (kind : AggregationType) :
  g ≠ m → ¬ throws_on g m rows →
  ∃ keys,
    NoDup keys ∧
    (∀ k, k ∈ keys ↔ ¬ inherited k ∧ ∃ row, row ∈ rows ∧ key_of g row = k) ∧
    DataProcessor.aggregateData (Some rows) g m kind
    = Return ((λ k, [(g, CStr k); (m, CNum (reduce kind (pool g m k rows)))])
                <$> keys).
Proof.
  intros Hne Hno. rewrite aggregateData_unfold, is_frequency_distinct by done.
  pose proof (group_rows_spec g m rows) as Hspec.
  destruct (forEach (group_row g m) [] rows) as [grouped|]; [|done].
  destruct Hspec as [Hok _]. simpl.
  unfold DataProcessor.aggregated. rewrite sort_aggregated by done.
  destruct (sorted_groups g m rows grouped Hok) as (Hnd & Hkeys & Hl).
  exists (stable_sort by_key (entries grouped)).*1. split_and!; [done..|].
  f_equal. rewrite Hl at 1. rewrite <-list_fmap_compose.
  apply list_fmap_ext. intros _ k _. simpl. by apply output_row_distinct.
Qed.

Lemma aggregateData_one_row_per_group_witness :
  let rows := [[("Region", CStr "West"); ("Sales", CNum 80%float)];
               [("Region", CStr "East"); ("Sales", CNum 100%float)];
               [("Region", CStr "East"); ("Sales", CStr "n/a")]] in
  ∃ keys,
    NoDup keys ∧
    (∀ k, k ∈ keys ↔
       ¬ inherited k ∧ ∃ row, row ∈ rows ∧ key_of "Region" row = k) ∧
    DataProcessor.aggregateData (Some rows) "Region" "Sales" Sum
    = Return ((λ k, [("Region", CStr k);
                     ("Sales", CNum (reduce Sum (pool "Region" "Sales" k rows)))])
                <$> keys).
Proof.
  intros rows.
  apply (aggregateData_one_row_per_group rows "Region" "Sales" Sum);
    [done|no_inherited_key].
Defined.

(** X2: both modules throw a [TypeError] exactly when they are off the
    frequency path and some row has a group key that names a member of
    [Object.prototype] together with a measure that is a number. *)
Theorem aggregateData_throws_exactly `{Runtime}
    (rows : list DataRow) (g m : string) (kind : AggregationType) :
  (DataProcessor.aggregateData (Some rows) g m kind = TypeError ↔
     ¬ (kind = Count ∧ g = m) ∧
     ∃ row, row ∈ rows ∧ inherited (key_of g row)
            ∧ isNaN (measure_of m row) = false) ∧
  (DataProcessorVariant.aggregateData (Some rows) g m kind = TypeError ↔
     ¬ (kind = Count ∧ g = m) ∧
     ∃ row, row ∈ rows ∧ inherited (key_of g row)
            ∧ isNaN (measure_of m row) = false).
Proof.
  rewrite aggregateData_TypeError, variant_TypeError, is_frequency_false.
  done.
Qed.

(** X3: the variant of the module, under the same conditions, returns one
    row per group key that is no inherited name and whose numeric pool is
    not empty; a group without a numeric measure gets no row. *)
Theorem variant_one_row_per_numeric_group `{Runtime}
    (rows : list DataRow) (g m : string) (kind : AggregationType) :
  g ≠ m → ¬ throws_on g m rows →
  ∃ keys,
    NoDup keys ∧
    (∀ k, k ∈ keys ↔
       (¬ inherited k ∧ ∃ row, row ∈ rows ∧ key_of g row = k)
       ∧ pool g m k rows ≠ []) ∧
    DataProcessorVariant.aggregateData (Some rows) g m kind
    = Return ((λ k, [(g, CStr k); (m, CNum (reduce kind (pool g m k rows)))])
                <$> keys).
Proof.
  intros Hne Hno. rewrite variant_unfold, is_frequency_distinct by done.
  pose proof (group_rows_spec g m rows) as Hspec.
  destruct (forEach (group_row g m) [] rows) as [grouped|]; [|done].
  destruct Hspec as [Hok _]. simpl.
  unfold DataProcessorVariant.aggregated. rewrite sort_aggregated by done.
  destruct Hok as [Hnd Hkeys Hpool].
  set (Q := λ p : string * list num, length p.2 ≠ 0).
  set (l := stable_sort by_key (filter Q (entries grouped))).
  assert (l ≡ₚ filter Q grouped) as Hl.
  { unfold l. by rewrite stable_sort_perm, entries_perm. }
  assert (∀ k vs, (k, vs) ∈ l → vs = pool g m k rows ∧ vs ≠ []) as Hin.
  { intros k vs. rewrite Hl. intros [Hlen Hk]%list_elem_of_filter.
    split; [by apply Hpool|]. intros ->. by apply Hlen. }
  exists l.*1. split_and!.
  - rewrite Hl. eapply sublist_NoDup; [exact Hnd|].
    apply fmap_sublist, sublist_filter.
  - intros k. rewrite <-Hkeys. split.
    + intros ([k' vs] & -> & Hk)%list_elem_of_fmap. simpl.
      destruct (Hin _ _ Hk) as [Hvs Hne']. split; [|by rewrite <-Hvs].
      rewrite Hl in Hk. apply list_elem_of_filter in Hk as [_ Hk].
      by apply (list_elem_of_fmap_2 fst _ (k', vs)).
    + intros [([k' vs] & -> & Hk)%list_elem_of_fmap Hne']. simpl in *.
      apply (list_elem_of_fmap_2 fst _ (k', vs)). rewrite Hl.
      apply list_elem_of_filter. split; [|done]. unfold Q. simpl.
      rewrite (Hpool _ _ Hk). intros E. by apply Hne', nil_length_inv.
  - f_equal. rewrite (obj_by_keys l (λ k, pool g m k rows)) at 1
      by (intros k vs Hk; by apply Hin).
    rewrite <-list_fmap_compose.
    apply list_fmap_ext. intros _ k _. simpl. by apply output_row_distinct.
Qed.

Lemma variant_one_row_per_numeric_group_witness :
  let rows := [[("Region", CStr "West"); ("Sales", CNum 80%float)];
               [("Region", CStr "East"); ("Sales", CStr "n/a")]] in
  ∃ keys,
    NoDup keys ∧
    (∀ k, k ∈ keys ↔
       (¬ inherited k ∧ ∃ row, row ∈ rows ∧ key_of "Region" row = k)
       ∧ pool "Region" "Sales" k rows ≠ []) ∧
    DataProcessorVariant.aggregateData (Some rows) "Region" "Sales" Average
    = Return ((λ k, [("Region", CStr k);
                     ("Sales",
                      CNum (reduce Average (pool "Region" "Sales" k rows)))])
                <$> keys).
Proof.
  intros rows.
  apply (variant_one_row_per_numeric_group rows "Region" "Sales" Average);
    [done|no_inherited_key].
Defined.

(** X4: with distinct columns and a consistent [localeCompare], the output
    of the variant is the output of [src/utils/dataProcessor.ts] without the
    rows of the groups whose numeric pool is empty, in the same order. *)
Theorem variant_is_the_filtered_output `{Runtime}
    (rows : list DataRow) (g m : string) (kind : AggregationType) :
  g ≠ m → consistent localeCompare → ¬ throws_on g m rows →
  ∃ out,
    DataProcessor.aggregateData (Some rows) g m kind = Return out ∧
    DataProcessorVariant.aggregateData (Some rows) g m kind
    = Return (filter (λ r, pool g m (key_of g r) rows ≠ []) out).
Proof.
  intros Hne Hcons Hno.
  rewrite aggregateData_unfold, variant_unfold, is_frequency_distinct by done.
  pose proof (group_rows_spec g m rows) as Hspec.
  destruct (forEach (group_row g m) [] rows) as [grouped|]; [|done].
  destruct Hspec as [[Hnd Hkeys Hpool] _]. simpl. eexists. split; [done|].
  f_equal. unfold DataProcessorVariant.aggregated, DataProcessor.aggregated.
  rewrite !sort_aggregated by done. rewrite filter_fmap_list. f_equal.
  rewrite <-(stable_sort_filter_comm by_key)
    by (by apply by_key_asym || by apply by_key_trans).
  apply filter_ext_in. intros [k vs] Hin. simpl.
  rewrite stable_sort_elem, elem_entries in Hin.
  rewrite key_of_output by done. rewrite <-(Hpool _ _ Hin).
  split; intros Hk E; apply Hk; [by rewrite E|by apply nil_length_inv].
Qed.

Lemma variant_is_the_filtered_output_witness :
  let rows := [[("Region", CStr "West"); ("Sales", CNum 80%float)];
               [("Region", CStr "East"); ("Sales", CStr "n/a")]] in
  ∃ out,
    DataProcessor.aggregateData (Some rows) "Region" "Sales" Sum = Return out ∧
    DataProcessorVariant.aggregateData (Some rows) "Region" "Sales" Sum
    = Return (filter (λ r, pool "Region" "Sales" (key_of "Region" r) rows ≠ [])
                out).
Proof.
  intros rows.
  apply (variant_is_the_filtered_output rows "Region" "Sales" Sum);
    [done|apply localeCompare_consistent|no_inherited_key].
Defined.

(** X5: the frequency path (Count with one column for both roles), on rows
    none of whose values names a member of [Object.prototype] and as long
    as counting is exact: both modules return one row per distinct
    stringified value, holding the number of rows with that value, and the
    counts add up to the number of rows. *)
Theorem frequency_one_row_per_value `{Runtime}
    (rows : list DataRow) (col : string) :
  counting_exact (length rows) →
  (∀ row, row ∈ rows → ¬ inherited (key_of col row)) →
  ∃ keys,
    NoDup keys ∧
    (∀ k, k ∈ keys ↔ ∃ row, row ∈ rows ∧ key_of col row = k) ∧
    DataProcessor.aggregateData (Some rows) col col Count
    = Return ((λ k, [(col, CNum (ofNat (occurrences col k rows)))]) <$> keys) ∧
    DataProcessorVariant.aggregateData (Some rows) col col Count
    = DataProcessor.aggregateData (Some rows) col col Count ∧
    sum_list ((λ k, occurrences col k rows) <$> keys) = length rows.
Proof.
  intros Hexact Hinh.
  destruct (frequency_counts rows col Hexact Hinh)
    as (keys & Hnd & Hkeys & Hout & Hsum).
  exists keys. split_and!; [done..| |done].
  rewrite variant_unfold, aggregateData_unfold. unfold is_frequency.
  by rewrite !bool_decide_eq_true_2.
Qed.

Lemma frequency_one_row_per_value_witness :
  let rows := [[("Region", CStr "West")]; [("Region", CStr "East")];
               [("Region", CStr "West")]] in
  ∃ keys,
    NoDup keys ∧
    (∀ k, k ∈ keys ↔ ∃ row, row ∈ rows ∧ key_of "Region" row = k) ∧
    DataProcessor.aggregateData (Some rows) "Region" "Region" Count
    = Return ((λ k, [("Region", CNum (ofNat (occurrences "Region" k rows)))])
                <$> keys) ∧
    DataProcessorVariant.aggregateData (Some rows) "Region" "Region" Count
    = DataProcessor.aggregateData (Some rows) "Region" "Region" Count ∧
    sum_list ((λ k, occurrences "Region" k rows) <$> keys) = 3%nat.
Proof.
  intros rows. apply (frequency_one_row_per_value rows "Region").
  - intros c Hc. simpl in Hc.
    destruct c as [|[|[|c]]]; [split; reflexivity..|lia].
  - intros row Hin Hinh.
    repeat (apply elem_of_cons in Hin as [->|Hin];
            [vm_compute in Hinh; by destruct Hinh|]).
    by apply elem_of_nil in Hin.
Defined.

(** X6: with one column in both roles and an aggregation other than Count,
    the object literal of an output row names the same property twice, and
    the reduced value overwrites the group key: every output row has the
    single property [g], holding the reduction of the pool of one group.
    There is one such row per group key that is no inherited name. *)
Theorem aggregateData_same_column_loses_keys `{Runtime}
    (rows : list DataRow) (g : string) (kind : AggregationType) :
  kind ≠ Count → ¬ throws_on g g rows →
  ∃ keys out,
    NoDup keys ∧
    (∀ k, k ∈ keys ↔ ¬ inherited k ∧ ∃ row, row ∈ rows ∧ key_of g row = k) ∧
    DataProcessor.aggregateData (Some rows) g g kind = Return out ∧
    out ≡ₚ (λ k, [(g, CNum (reduce kind (pool g g k rows)))]) <$> keys.
Proof.
  intros Hkind Hno.
  rewrite aggregateData_unfold, is_frequency_not_Count by done.
  pose proof (group_rows_spec g g rows) as Hspec.
  destruct (forEach (group_row g g) [] rows) as [grouped|]; [|done].
  destruct Hspec as [[Hnd Hkeys Hpool] _]. simpl.
  exists grouped.*1. eexists. split_and!; [done|done|done|].
  unfold Array_sort. rewrite stable_sort_perm.
  unfold DataProcessor.aggregated. rewrite entries_perm.
  rewrite (obj_by_keys grouped (λ k, pool g g k rows)) at 1 by done.
  rewrite <-list_fmap_compose.
  erewrite list_fmap_ext; [done|]. intros _ k _. simpl.
  by rewrite output_row_same.
Qed.

Lemma aggregateData_same_column_loses_keys_witness :
  let rows := [[("Sales", CNum 80%float)]; [("Sales", CNum 100%float)];
               [("Sales", CNum 80%float)]] in
  ∃ keys out,
    NoDup keys ∧
    (∀ k, k ∈ keys ↔ ¬ inherited k ∧ ∃ row, row ∈ rows ∧ key_of "Sales" row = k) ∧
    DataProcessor.aggregateData (Some rows) "Sales" "Sales" Sum = Return out ∧
    out ≡ₚ (λ k, [("Sales", CNum (reduce Sum (pool "Sales" "Sales" k rows)))])
             <$> keys.
Proof.
  intros rows.
  apply (aggregateData_same_column_loses_keys rows "Sales" Sum);
    [done|no_inherited_key].
Defined.

(** X7: neither module ever returns more rows than it is given, on any
    path. *)
Theorem aggregateData_never_longer `{Runtime}
    (data : option (list DataRow)) (g m : string) (kind : AggregationType)
    (out : list DataRow) :
  DataProcessor.aggregateData data g m kind = Return out
  ∨ DataProcessorVariant.aggregateData data g m kind = Return out →
  (length out ≤ length (default [] data))%nat.
Proof.
  destruct data as [rows|]; [|by intros [[= <-]|[= <-]]].
  change (default [] (Some rows)) with rows.
  rewrite aggregateData_unfold, variant_unfold.
  destruct (is_frequency g m kind).
  { intros [[= <-]|[= <-]]; apply frequency_length. }
  destruct (forEach (group_row g m) [] rows) as [grouped|] eqn:E;
    [|by intros [?|?]].
  apply group_rows_length in E. simpl in *.
  intros [[= <-]|[= <-]]; unfold Array_sort; rewrite stable_sort_length.
  - unfold DataProcessor.aggregated. by rewrite length_fmap, entries_perm.
  - unfold DataProcessorVariant.aggregated. rewrite length_fmap.
    etrans; [apply length_filter|]. by rewrite entries_perm.
Qed.

Lemma aggregateData_never_longer_witness :
  let rows := [[("Region", CStr "West"); ("Sales", CNum 80%float)];
               [("Region", CStr "East"); ("Sales", CNum 100%float)];
               [("Region", CStr "East"); ("Sales", CNum 50%float)]] in
  let out := [[("Region", CStr "East"); ("Sales", CNum 150%float)];
              [("Region", CStr "West"); ("Sales", CNum 80%float)]] in
  (length out ≤ length rows)%nat.
Proof.
  intros rows out.
  apply (aggregateData_never_longer (Some rows) "Region" "Sales" Sum out).
  left. reflexivity.
Defined.

(** ** The file-name helpers *)

Section SafeNames.

Lemma append_cons x (a b : string) : String x a +:+ b = String x (a +:+ b).
Proof. done. Qed.

Lemma append_nil_l (a : string) : "" +:+ a = a.
Proof. done. Qed.

Lemma append_assoc (a b c : string) : (a +:+ b) +:+ c = a +:+ (b +:+ c).
Proof. induction a as [|x a IH]; [done|]. by rewrite !append_cons, IH. Qed.

Lemma append_nil_r (a : string) : a +:+ "" = a.
Proof. induction a as [|x a IH]; [done|]. by rewrite append_cons, IH. Qed.

Lemma lower_replace_safe a :
  file_safe (lower (if is_alnum a then a else "_"%char)) = true.
Proof. by destruct a as [[] [] [] [] [] [] [] []]. Qed.

Lemma lower_safe a : file_safe a = true → lower a = a.
Proof. by destruct a as [[] [] [] [] [] [] [] []]. Qed.

Lemma alnum_safe a :
  file_safe a = true → (if is_alnum a then a else "_"%char) = a.
Proof. by destruct a as [[] [] [] [] [] [] [] []]. Qed.

Lemma sanitize_safe s :
  all_chars file_safe (toLowerCase (replace_non_alnum s)) = true.
Proof.
  induction s as [|a s IH]; [done|]. simpl. by rewrite lower_replace_safe, IH.
Qed.

Lemma sanitize_length s :
  String.length (toLowerCase (replace_non_alnum s)) = String.length s.
Proof. induction s as [|a s IH]; [done|]. simpl. by rewrite IH. Qed.

Lemma sanitize_fixed s :
  all_chars file_safe s = true → toLowerCase (replace_non_alnum s) = s.
Proof.
  induction s as [|a s IH]; [done|]. simpl.
  intros [Ha Hs]%andb_true_iff. by rewrite alnum_safe, lower_safe, IH.
Qed.

Lemma createSafeFileName_nonempty title fallback :
  title ≠ "" →
  createSafeFileName title fallback = toLowerCase (replace_non_alnum title).
Proof. by destruct title. Qed.

Lemma safe_no_dot s : all_chars file_safe s = true → occurs "." s = false.
Proof.
  induction s as [|a s IH]; [done|]. simpl. intros [Ha Hs]%andb_true_iff.
  rewrite IH by done. rewrite orb_false_r. apply bool_decide_eq_false.
  by intros ->.
Qed.

(** Every name with a dot splits at its last dot. *)
Lemma last_dot name :
  occurs "." name = true →
  ∃ stem ext, name = stem +:+ "." +:+ ext ∧ occurs "." ext = false.
Proof.
  induction name as [|a name IH]; [done|]. simpl.
  destruct (occurs "." name) eqn:Hocc.
  - intros _. destruct (IH eq_refl) as (stem & ext & -> & Hext).
    by exists (String a stem), ext.
  - rewrite orb_false_r. intros ->%bool_decide_eq_true.
    by exists "", name.
Qed.

Lemma getFileNameWithoutExtension_hidden ext :
  occurs "." ext = false →
  getFileNameWithoutExtension ("." +:+ ext) = "." +:+ ext.
Proof.
  intros Hext. unfold getFileNameWithoutExtension, lastIndexOf.
  change ("." +:+ ext) with ("" +:+ String "." ext).
  by rewrite lastIndexOf_from_last.
Qed.

Lemma download_name_extension safe format :
  download_name safe format = safe +:+ "." +:+ extension format.
Proof. by destruct format. Qed.

End SafeNames.

Lemma getFileNameWithoutExtension_split stem ext :
  occurs "." ext = false →
  getFileNameWithoutExtension (stem +:+ "." +:+ ext)
  = if decide (stem = "") then stem +:+ "." +:+ ext else stem.
Proof.
  intros Hext. case_decide as Hstem.
  - subst stem. by apply getFileNameWithoutExtension_hidden.
  - by apply getFileNameWithoutExtension_strips.
Qed.

Lemma getFileNameWithoutExtension_nonempty name :
  name ≠ "" → getFileNameWithoutExtension name ≠ "".
Proof.
  intros Hname. destruct (occurs "." name) eqn:Hocc.
  - destruct (last_dot name Hocc) as (stem & ext & -> & Hext).
    rewrite getFileNameWithoutExtension_split by done. by case_decide.
  - by rewrite getFileNameWithoutExtension_keeps.
Qed.

(** X8: [getFileNameWithoutExtension] returns the part of the name before
    its last dot; a name without a dot, and a name with nothing before its
    last dot (a hidden file like ".bashrc"), is returned whole.  These
    cases cover every name.  The result is always an initial part of the
    name, and it is empty only for the empty name. *)
Theorem getFileNameWithoutExtension_spec (name : string) :
  (occurs "." name = false → getFileNameWithoutExtension name = name) ∧
  (∀ stem ext, name = stem +:+ "." +:+ ext → occurs "." ext = false →
     getFileNameWithoutExtension name
     = if decide (stem = "") then name else stem) ∧
  (occurs "." name = false
   ∨ ∃ stem ext, name = stem +:+ "." +:+ ext ∧ occurs "." ext = false) ∧
  (∃ rest, name = getFileNameWithoutExtension name +:+ rest) ∧
  (name ≠ "" → getFileNameWithoutExtension name ≠ "").
Proof.
  split_and!.
  - apply getFileNameWithoutExtension_keeps.
  - intros stem ext -> Hext. by apply getFileNameWithoutExtension_split.
  - destruct (occurs "." name) eqn:Hocc; [right|by left]. by apply last_dot.
  - destruct (occurs "." name) eqn:Hocc.
    + destruct (last_dot name Hocc) as (stem & ext & -> & Hext).
      rewrite getFileNameWithoutExtension_split by done. case_decide.
      * exists "". by rewrite append_nil_r.
      * by exists ("." +:+ ext).
    + exists "". rewrite getFileNameWithoutExtension_keeps by done.
      by rewrite append_nil_r.
  - apply getFileNameWithoutExtension_nonempty.
Qed.

(** X9: [createSafeFileName] of a non-empty title has the length of the
    title and consists of lower-case ASCII letters, digits and underscores
    only; it is a fixed point of the function (sanitizing twice changes
    nothing), and it holds no dot.  The fallback is returned for the empty
    title and for no other, and it is ['file'] when none is given. *)
Theorem createSafeFileName_safe (title : string) (fallback : option string) :
  let safe := createSafeFileName title fallback in
  (title = "" → safe = default "file" fallback) ∧
  (title ≠ "" →
     safe = toLowerCase (replace_non_alnum title) ∧
     safe ≠ "" ∧
     String.length safe = String.length title ∧
     all_chars file_safe safe = true ∧
     occurs "." safe = false ∧
     createSafeFileName safe fallback = safe).
Proof.
  intros safe. split; [by intros ->|]. intros Htitle. unfold safe.
  rewrite createSafeFileName_nonempty by done.
  pose proof (sanitize_safe title) as Hsafe.
  pose proof (sanitize_length title) as Hlen.
  assert (toLowerCase (replace_non_alnum title) ≠ "") as Hne.
  { intros E. rewrite E in Hlen. by destruct title. }
  split_and!; [done|done|done|done|by apply safe_no_dot|].
  rewrite createSafeFileName_nonempty by done. by apply sanitize_fixed.
Qed.

Lemma createSafeFileName_fallback title fallback :
  fallback ≠ "" → all_chars file_safe fallback = true →
  createSafeFileName title (Some fallback) ≠ "" ∧
  all_chars file_safe (createSafeFileName title (Some fallback)) = true.
Proof.
  intros Hne Hsafe. destruct (decide (title = "")) as [->|Htitle]; [done|].
  rewrite createSafeFileName_nonempty by done. split; [|apply sanitize_safe].
  intros E. pose proof (sanitize_length title) as Hlen. rewrite E in Hlen.
  by destruct title.
Qed.

Lemma download_name_stem stem format :
  stem ≠ "" → all_chars file_safe stem = true →
  getFileNameWithoutExtension (download_name stem format) = stem.
Proof.
  intros Hne Hsafe. rewrite download_name_extension.
  apply getFileNameWithoutExtension_strips; [done|by destruct format].
Qed.

(** X10: the files that [exportChart] and [exportDashboard] save are named
    by the safe form of the title, or by "chart" respectively "dashboard"
    when the title is empty, followed by ".png" or ".pdf".  The part before
    the extension is never empty and holds only lower-case letters, digits
    and underscores; the dot of the extension is the only one, so that
    [getFileNameWithoutExtension] gives that part back. *)
Theorem export_file_names `{Runtime}
    (format : ExportFormat) (config : ChartConfig) (st : State) :
  let chart := createSafeFileName (title config) (Some "chart") in
  let board := createSafeFileName (dashboardTitle st) (Some "dashboard") in
  ChartWidget.exportChart format config = chart +:+ "." +:+ extension format ∧
  exportDashboard format st = board +:+ "." +:+ extension format ∧
  (title config = "" → chart = "chart") ∧
  (dashboardTitle st = "" → board = "dashboard") ∧
  chart ≠ "" ∧ board ≠ "" ∧
  all_chars file_safe chart = true ∧ all_chars file_safe board = true ∧
  getFileNameWithoutExtension (ChartWidget.exportChart format config) = chart ∧
  getFileNameWithoutExtension (exportDashboard format st) = board.
Proof.
  intros chart board.
  destruct (createSafeFileName_fallback (title config) "chart") as [? ?];
    [done..|].
  destruct (createSafeFileName_fallback (dashboardTitle st) "dashboard")
    as [? ?]; [done..|].
  unfold ChartWidget.exportChart, exportDashboard.
  split_and!; try done.
  - apply download_name_extension.
  - apply download_name_extension.
  - intros E. unfold chart. by rewrite E.
  - intros E. unfold board. by rewrite E.
  - by apply download_name_stem.
  - by apply download_name_stem.
Qed.

(** ** The controller: uploads and the chart list *)

Section Uploads.
Context `{Runtime}.

Lemma handleFileUpload_charts name rows st :
  charts (handleFileUpload name rows st)
  = if isRestored st && bool_decide (fileName st = name) then charts st else [].
Proof.
  unfold handleFileUpload.
  destruct (isRestored st), (bool_decide (fileName st = name)), rows; done.
Qed.

Lemma handleFileUpload_title name rows st :
  dashboardTitle (handleFileUpload name rows st)
  = if isRestored st && bool_decide (fileName st = name) then dashboardTitle st
    else getFileNameWithoutExtension name.
Proof.
  unfold handleFileUpload.
  destruct (isRestored st), (bool_decide (fileName st = name)), rows; done.
Qed.

Lemma handleFileUpload_data name rows st :
  data (handleFileUpload name rows st) = Some rows.
Proof. unfold handleFileUpload. by destruct rows, (_ || _). Qed.

Lemma handleFileUpload_columns name rows st :
  columns (handleFileUpload name rows st)
  = match rows with first :: _ => Object_keys first | [] => columns st end.
Proof. unfold handleFileUpload. by destruct rows, (_ || _). Qed.

End Uploads.

(** X11: two uploads in a row.  The second upload always starts a new
    dashboard, even for the same file: no chart is left and the title is
    the name of the second file without its extension, which is not empty
    unless the name is.  The charts of a restored session so survive
    exactly one upload, that of the restored file.  An upload of a sheet
    without rows keeps the columns that were there before. *)
Theorem second_upload_resets `{Runtime}
    (name1 name2 : string) (rows1 rows2 : list DataRow) (st : State) :
  let st1 := handleFileUpload name1 rows1 st in
  let st2 := handleFileUpload name2 rows2 st1 in
  charts st2 = [] ∧
  dashboardTitle st2 = getFileNameWithoutExtension name2 ∧
  fileName st2 = name2 ∧
  data st2 = Some rows2 ∧
  (name2 ≠ "" → dashboardTitle st2 ≠ "") ∧
  (isRestored st = true ∧ fileName st = name1 → charts st1 = charts st) ∧
  (rows2 = [] → columns st2 = columns st1).
Proof.
  intros st1 st2.
  assert (dashboardTitle st2 = getFileNameWithoutExtension name2) as Htitle.
  { unfold st2. by rewrite handleFileUpload_title. }
  split_and!.
  - unfold st2. by rewrite handleFileUpload_charts.
  - done.
  - done.
  - apply handleFileUpload_data.
  - rewrite Htitle. apply getFileNameWithoutExtension_nonempty.
  - intros [Hr Hf]. unfold st1. rewrite handleFileUpload_charts, Hr.
    by rewrite bool_decide_eq_true_2.
  - intros ->. unfold st2. by rewrite handleFileUpload_columns.
Qed.

(** X12: creating a chart and removing it again.  [removeChart] drops
    every chart with the given id, so the list is the old one without the
    charts that shared the id of the new chart; it is the old list exactly
    when the id was new. *)
Theorem create_then_remove `{Runtime} (config : ChartConfig) (st : State) :
  editingChart st = None →
  let st' := removeChart (id config) (handleSaveChart config st) in
  charts st' = filter (λ chart, id chart ≠ id config) (charts st) ∧
  (id config ∉ (id <$> charts st) → charts st' = charts st) ∧
  (∀ chart, chart ∈ charts st' → id chart ≠ id config).
Proof.
  intros Hedit st'.
  assert (charts st' = filter (λ chart, id chart ≠ id config) (charts st))
    as Hst'.
  { unfold st', removeChart, handleSaveChart. rewrite Hedit. simpl.
    rewrite filter_app, filter_cons, filter_nil.
    rewrite decide_False by (intros E; by apply E). by rewrite app_nil_r. }
  split_and!; [done| |].
  - intros Hfresh. rewrite Hst'. apply filter_all.
    intros chart Hin E. apply Hfresh. rewrite <-E.
    by apply list_elem_of_fmap_2.
  - intros chart. rewrite Hst'. by intros [? _]%list_elem_of_filter.
Qed.

Lemma create_then_remove_witness :
  let c := mkChartConfig "1700000000000" "Sales" Bar "Region" "Sales" Sum in
  let d := mkChartConfig "1700000000001" "Count" Pie "Region" "Region" Count in
  let st : State :=
    mkState true (Some []) ["Region"; "Sales"] [c] "sales" "sales.xlsx"
      false false None None in
  charts (removeChart (id d) (handleSaveChart d st)) = [c].
Proof.
  intros c d st.
  destruct (create_then_remove d st eq_refl) as (_ & Hfresh & _).
  apply Hfresh. intros [E|E%elem_of_nil]%elem_of_cons; [discriminate|done].
Defined.

(** ** The controller: the chart form *)

Section Forms.
Context `{Runtime}.
Implicit Types (st : State) (p : Page) (form : ChartConfigModal.Form).

Lemma submitChart_filled now form p :
  filled form →
  submitChart now form p
  = onCells handleCloseModal
      (onCells (handleSaveChart
         (submitted (match editingChart (page_cells p) with
                     | Some c => id c
                     | None => numToString now
                     end) form)) p).
Proof.
  intros (Ht & Hx & Hy). unfold submitChart, ChartConfigModal.handleSubmit.
  by rewrite !bool_decide_eq_false_2.
Qed.

Lemma submitChart_rejected now form p :
  ¬ filled form → submitChart now form p = rejected p.
Proof.
  intros Hno. unfold submitChart, ChartConfigModal.handleSubmit.
  destruct (decide (ChartConfigModal.form_title form = "")) as [->|Ht]; [done|].
  destruct (decide (ChartConfigModal.form_xAxis form = "")) as [->|Hx].
  { by rewrite (bool_decide_eq_false_2 _ Ht). }
  destruct (decide (ChartConfigModal.form_yAxis form = "")) as [->|Hy].
  { by rewrite (bool_decide_eq_false_2 _ Ht), (bool_decide_eq_false_2 _ Hx). }
  by destruct Hno.
Qed.

Lemma find_first i (l : list ChartConfig) :
  i ∈ (id <$> l) →
  ∃ c, List.find (λ c, bool_decide (id c = i)) l = Some c ∧ c ∈ l ∧ id c = i.
Proof.
  induction l as [|c l IH]; csimpl; [by intros ?%elem_of_nil|].
  intros Hin. case_bool_decide as Hc.
  - exists c. split_and!; [done|by left|done].
  - apply elem_of_cons in Hin as [->|Hin]; [done|].
    destruct (IH Hin) as (c' & ? & ? & ?).
    exists c'. split_and!; [done|by right|done].
Qed.

Lemma find_absent i (l : list ChartConfig) :
  i ∉ (id <$> l) → List.find (λ c, bool_decide (id c = i)) l = None.
Proof.
  induction l as [|c l IH]; csimpl; [done|].
  intros Hin. rewrite bool_decide_eq_false_2.
  - apply IH. intros ?. apply Hin. by right.
  - intros E. apply Hin. rewrite E. by left.
Qed.

Lemma replace_unique (c : ChartConfig) (l : list ChartConfig) :
  NoDup (id <$> l) → c ∈ l →
  (λ chart, if decide (id chart = id c) then c else chart) <$> l = l.
Proof.
  intros Hnd Hc. induction l as [|x l IH]; [done|]. csimpl in *.
  apply NoDup_cons in Hnd as [Hx Hnd].
  apply elem_of_cons in Hc as [->|Hc].
  - rewrite decide_True by done. f_equal.
    erewrite list_fmap_ext; [apply list_fmap_id|].
    intros _ y Hy%list_elem_of_lookup_2. simpl. rewrite decide_False; [done|].
    intros E. apply Hx. rewrite <-E. by apply list_elem_of_fmap_2.
  - rewrite decide_False.
    + f_equal. by apply IH.
    + intros E. apply Hx. rewrite E. by apply list_elem_of_fmap_2.
Qed.

Lemma handleOpenEditModal_found i st c :
  List.find (λ c, bool_decide (id c = i)) (charts st) = Some c →
  handleOpenEditModal i st
  = setIsBuilderOpen true
      (setDraggedChartType None (setEditingChart (Some c) st)).
Proof. unfold handleOpenEditModal. by intros ->. Qed.

Lemma ChartType_round_trip t : ChartType_of_label (ChartType_label t) = Some t.
Proof. by destruct t. Qed.

Lemma ChartType_label_listed t : ChartType_label t ∈ chartTypes.
Proof. destruct t; unfold chartTypes; simpl; set_unfold; tauto. Qed.

Lemma handleChartDrop_dragged t dt st :
  handleChartDrop (Toolbox.handleDragStart t dt) st
  = setIsBuilderOpen true
      (setEditingChart None (setDraggedChartType (Some t) st)).
Proof.
  unfold handleChartDrop, Toolbox.handleDragStart, getData.
  rewrite lookup_insert_eq. simpl.
  rewrite ChartType_round_trip,
    (bool_decide_eq_true_2 _ (ChartType_label_listed t)).
  by destruct t.
Qed.

End Forms.

(** X13: editing through the form.  The edit button of a chart with id
    [i] opens the form on the first chart of the list with that id; a filled
    form then replaces every chart with the id [i] by the submitted chart,
    which keeps the id, leaves every other chart and the length of the list
    alone, closes the form and shows no toast. *)
Theorem edit_through_the_form `{Runtime} (i : string) (now : num)
    (form : ChartConfigModal.Form) (p : Page) :
  i ∈ (id <$> charts (page_cells p)) →
  filled form →
  let p1 := onCells (handleOpenEditModal i) p in
  let p2 := submitChart now form p1 in
  (∃ c, List.find (λ c, bool_decide (id c = i)) (charts (page_cells p)) = Some c
        ∧ editingChart (page_cells p1) = Some c
        ∧ chartForm (page_cells p1)
          = ChartConfigModal.mkForm (title c) (type c) (xAxis c) (yAxis c)
              (aggregation c)) ∧
  isBuilderOpen (page_cells p1) = true ∧
  charts (page_cells p2)
  = (λ chart, if decide (id chart = i) then submitted i form else chart)
      <$> charts (page_cells p) ∧
  submitted i form ∈ charts (page_cells p2) ∧
  isBuilderOpen (page_cells p2) = false ∧
  editingChart (page_cells p2) = None ∧
  draggedChartType (page_cells p2) = None ∧
  page_toasts p2 = page_toasts p.
Proof.
  intros Hin Hform p1 p2.
  destruct (find_first i _ Hin) as (c & Hfind & Hc & Hid).
  pose proof (handleOpenEditModal_found _ _ _ Hfind) as Hopen.
  unfold p2. rewrite submitChart_filled by done. unfold p1. simpl.
  rewrite Hopen. simpl. unfold chartForm, handleSaveChart. simpl. rewrite Hid.
  split_and!; try done.
  - by exists c.
  - apply (list_elem_of_fmap_2' _ _ c); [done|]. by rewrite decide_True.
Qed.

Lemma edit_through_the_form_witness :
  let c := mkChartConfig "1700000000000" "Sales" Bar "Region" "Sales" Sum in
  let d := mkChartConfig "1700000000001" "Count" Pie "Region" "Region" Count in
  let form := ChartConfigModal.mkForm "Revenue" Line "Month" "Sales" Average in
  let p : Page :=
    mkPage
      (mkState true (Some []) ["Region"; "Sales"; "Month"] [c; d] "sales"
         "sales.xlsx" false false None None) ∅ ∅ [] in
  charts (page_cells
            (submitChart 0%float form
               (onCells (handleOpenEditModal "1700000000000") p)))
  = [mkChartConfig "1700000000000" "Revenue" Line "Month" "Sales" Average; d].
Proof.
  intros c d form p.
  assert (filled form) as Hform by done.
  assert ("1700000000000" ∈ (id <$> charts (page_cells p))) as Hin by by left.
  destruct (@edit_through_the_form runtime "1700000000000" 0%float form p
              Hin Hform)
    as (_ & _ & Hcharts & _).
  exact Hcharts.
Defined.

(** X14: opening a chart in the form and saving it unchanged leaves the
    chart list as it is, provided that the chart passes the check of the
    form and that no other chart shares its id. *)
Theorem edit_without_changes `{Runtime}
    (c : ChartConfig) (now : num) (p : Page) :
  c ∈ charts (page_cells p) →
  NoDup (id <$> charts (page_cells p)) →
  valid c = true →
  let p1 := onCells (handleOpenEditModal (id c)) p in
  let p2 := submitChart now (chartForm (page_cells p1)) p1 in
  editingChart (page_cells p1) = Some c ∧
  charts (page_cells p2) = charts (page_cells p) ∧
  page_toasts p2 = page_toasts p.
Proof.
  intros Hc Hnd Hvalid p1 p2.
  destruct (find_first (id c) (charts (page_cells p)))
    as (c' & Hfind & Hc' & Hid).
  { by apply list_elem_of_fmap_2. }
  assert (c' = c) as ->.
  { apply list_elem_of_lookup in Hc as [j Hj], Hc' as [j' Hj'].
    assert (j' = j) as ->; [|congruence].
    apply (NoDup_lookup (id <$> charts (page_cells p)) _ _ (id c));
      [done|rewrite list_lookup_fmap, Hj'; simpl; by f_equal
           |by rewrite list_lookup_fmap, Hj]. }
  pose proof (handleOpenEditModal_found _ _ _ Hfind) as Hopen.
  assert (filled (chartForm (page_cells p1))) as Hfilled.
  { unfold p1, chartForm. simpl. rewrite Hopen. simpl.
    unfold valid in Hvalid. apply negb_true_iff in Hvalid.
    apply orb_false_iff in Hvalid as [[Ht Hx]%orb_false_iff Hy].
    by apply bool_decide_eq_false in Ht, Hx, Hy. }
  unfold p2. rewrite submitChart_filled by done. unfold p1. simpl.
  rewrite Hopen. simpl. unfold chartForm, handleSaveChart. simpl.
  split_and!; [done| |done].
  replace (submitted (id c) _) with c by by destruct c.
  by apply replace_unique.
Qed.

Lemma edit_without_changes_witness :
  let c := mkChartConfig "1700000000000" "Sales" Bar "Region" "Sales" Sum in
  let d := mkChartConfig "1700000000001" "Count" Pie "Region" "Region" Count in
  let p : Page :=
    mkPage
      (mkState true (Some []) ["Region"; "Sales"] [c; d] "sales" "sales.xlsx"
         false false None None) ∅ ∅ [] in
  let p1 := onCells (handleOpenEditModal (id d)) p in
  charts (page_cells (submitChart 0%float (chartForm (page_cells p1)) p1))
  = [c; d].
Proof.
  intros c d p p1.
  assert (d ∈ charts (page_cells p)) as Hd by (right; by left).
  assert (NoDup (id <$> charts (page_cells p))) as Hnd by compute_done.
  destruct (@edit_without_changes runtime d 0%float p Hd Hnd eq_refl)
    as (_ & Hcharts & _).
  exact Hcharts.
Defined.

(** X15: dragging a chart type from the toolbox onto the dashboard and
    submitting the form.  The drop opens a blank form in create mode with
    the dragged type selected and changes no chart; a filled form then
    appends one chart, whose id is the time of the submission as a string,
    and closes the form; a form that is not filled changes no cell and
    shows the error toast. *)
Theorem drop_then_submit `{Runtime} (t : ChartType) (dt : DataTransfer)
    (now : num) (form : ChartConfigModal.Form) (p : Page) :
  let p1 := onCells (handleChartDrop (Toolbox.handleDragStart t dt)) p in
  let p2 := submitChart now form p1 in
  isBuilderOpen (page_cells p1) = true ∧
  editingChart (page_cells p1) = None ∧
  chartForm (page_cells p1) = ChartConfigModal.mkForm "" t "" "" Count ∧
  charts (page_cells p1) = charts (page_cells p) ∧
  (filled form →
   charts (page_cells p2)
   = charts (page_cells p) ++ [submitted (numToString now) form] ∧
   isBuilderOpen (page_cells p2) = false ∧
   editingChart (page_cells p2) = None ∧
   draggedChartType (page_cells p2) = None ∧
   page_toasts p2 = page_toasts p) ∧
  (¬ filled form →
   page_cells p2 = page_cells p1 ∧
   page_toasts p2
   = page_toasts p
     ++ [("Please fill out all fields: Title, X-Axis, and Y-Axis.",
          Toast.error)]).
Proof.
  intros p1 p2. unfold p2, p1. simpl. rewrite handleChartDrop_dragged.
  split_and!; try done.
  - intros Hform. rewrite submitChart_filled by done. simpl.
    by rewrite handleChartDrop_dragged.
  - intros Hform. rewrite submitChart_rejected by done. simpl.
    by rewrite handleChartDrop_dragged.
Qed.

(** X16: a form that is not filled is rejected: the cells and the two
    storages stay as they are and one error toast is added.  The blank form
    of create mode is never filled, so submitting it untouched is always
    rejected. *)
Theorem unfilled_form_rejected `{Runtime}
    (now : num) (form : ChartConfigModal.Form) (p : Page) :
  (¬ filled form → submitChart now form p = rejected p) ∧
  (editingChart (page_cells p) = None →
     submitChart now (chartForm (page_cells p)) p = rejected p) ∧
  page_cells (rejected p) = page_cells p ∧
  page_localStorage (rejected p) = page_localStorage p ∧
  page_sessionStorage (rejected p) = page_sessionStorage p ∧
  page_toasts (rejected p)
  = page_toasts p
    ++ [("Please fill out all fields: Title, X-Axis, and Y-Axis.", Toast.error)].
Proof.
  split_and!; try done.
  - apply submitChart_rejected.
  - intros Hedit. apply submitChart_rejected.
    unfold chartForm, filled. rewrite Hedit. simpl. by intros [? _].
Qed.

(** X17: ids and chart types that are not there change nothing: the edit
    button and [removeChart] for an id that no chart has, and a drop whose
    data is not one of the six chart types (a file, a text, nothing). *)
Theorem unknown_targets_ignored `{Runtime}
    (i : string) (dt : DataTransfer) (st : State) :
  (i ∉ (id <$> charts st) →
     handleOpenEditModal i st = st ∧ removeChart i st = st) ∧
  (getData dt "chartType" ∉ chartTypes → handleChartDrop dt st = st) ∧
  (dt !! "chartType" = None → handleChartDrop dt st = st).
Proof.
  split_and!.
  - intros Hi. split.
    + unfold handleOpenEditModal. by rewrite find_absent.
    + unfold removeChart. rewrite filter_all; [by destruct st|].
      intros c Hc E. apply Hi. rewrite <-E. by apply list_elem_of_fmap_2.
  - intros Hno. unfold handleChartDrop.
    rewrite (bool_decide_eq_false_2 _ Hno). by rewrite andb_false_r.
  - intros Hno. unfold handleChartDrop, getData. by rewrite Hno.
Qed.

(** ** The page as a whole: what holds after any sequence of events *)

Section Reachable.
Context `{Runtime}.
Variable JSON_parse : string → option json.
Variable asCharts : json → list ChartConfig.
Variable asString : json → string.
Variable JSON_stringify : json → string.

Lemma restore_from_modal v st st' :
  restore_from asCharts asString v st = Return st' →
  modal_cells st' = modal_cells st.
Proof.
  unfold restore_from. destruct (member v "charts") as [c|]; [|done]. simpl.
  destruct (member v "fileName") as [f|]; [|done]. simpl.
  destruct (json_truthy c && json_truthy f); [|by intros [= <-]].
  destruct (member v "dashboardTitle") as [t|]; [|done]. simpl.
  intros [= <-]. by destruct (json_truthy t).
Qed.

Lemma restore_modal st ls :
  modal_cells (restore JSON_parse asCharts asString st ls).1 = modal_cells st.
Proof.
  unfold restore. repeat case_match; try done. simpl.
  by eapply restore_from_modal.
Qed.

Lemma restored_modal before p :
  modal_cells
    (page_cells (Session.restored JSON_parse asCharts asString before p))
  = modal_cells (page_cells p).
Proof.
  unfold Session.restored. case_bool_decide; [done|].
  pose proof (restore_modal (page_cells p) (page_localStorage p)) as Hr.
  by destruct (restore _ _ _ _ _).
Qed.

Lemma modal_ok_cells st st' :
  modal_cells st' = modal_cells st → modal_ok st → modal_ok st'.
Proof. unfold modal_ok, modal_cells. by intros [= -> -> ->]. Qed.

Lemma dispatch_modal_ok p e :
  modal_ok (page_cells p) →
  modal_ok
    (page_cells
       (Session.dispatch JSON_parse asCharts asString JSON_stringify p e)).
Proof.
  intros Hok. unfold Session.dispatch.
  apply (modal_ok_cells _ _ (restored_modal _ _)).
  destruct e; simpl.
  - apply (modal_ok_cells (page_cells p)); [|done].
    unfold handleFileUpload, modal_cells. by repeat case_match.
  - unfold submitChart, ChartConfigModal.handleSubmit.
    case_match; [done|]. by intros [? [=]].
  - by intros [? [=]].
  - done.
  - unfold handleOpenEditModal. by case_match.
  - by intros [? [=]].
  - unfold handleChartDrop. repeat case_match; try done. by intros [? [=]].
  - done.
  - done.
  - unfold Login.handleSubmit, handleLogin.
    repeat case_match; by simplify_eq.
  - by apply (modal_ok_cells (page_cells p)).
  - by case_match.
Qed.

Lemma run_modal_ok ls ss events :
  modal_ok
    (page_cells
       (Session.run JSON_parse asCharts asString JSON_stringify ls ss events)).
Proof.
  unfold Session.run. induction events as [|e events IH] using rev_ind.
  - simpl. unfold Session.mount.
    apply (modal_ok_cells _ _ (restored_modal _ _)). by intros [? [=]].
  - rewrite foldl_snoc. by apply dispatch_modal_ok.
Qed.

End Reachable.

(** X18: after a page load and any sequence of events (uploads, submitted
    forms, added suggestions, removals, edits, closed forms, drops, clears,
    renames, logins, logouts and auto-saves, with the restore effect running
    whenever the login state changes), a chart is being edited only while
    the form is open and no chart type is being dragged.  [handleSaveChart]
    decides by that cell alone, so whenever the form is closed the Add
    button of a suggestion appends exactly the suggested chart. *)
Theorem suggestions_land_while_form_closed `{Runtime}
    (JSON_parse : string → option json)
    (asCharts : json → list ChartConfig) (asString : json → string)
    (JSON_stringify : json → string)
    (ls : localStorage) (ss : sessionStorage) (events : list Session.Event)
    (now : num) (suggestion : ChartSuggestion) :
  let st :=
    page_cells
      (Session.run JSON_parse asCharts asString JSON_stringify ls ss events) in
  (is_Some (editingChart st) →
     isBuilderOpen st = true ∧ draggedChartType st = None) ∧
  (isBuilderOpen st = false →
     charts (addSuggestion now suggestion st)
     = charts st ++ [suggested now suggestion]).
Proof.
  intros st.
  pose proof (run_modal_ok JSON_parse asCharts asString JSON_stringify ls ss
                events) as Hok.
  fold st in Hok. split; [done|]. intros Hclosed.
  unfold addSuggestion, AiAssistantModal.handleAddChart, handleSaveChart.
  destruct (editingChart st) as [c|] eqn:Hedit; [|done].
  destruct Hok as [Hopen _]; [by eexists|]. congruence.
Qed.

(** ** [sortedCharts], whatever the sort option *)

Section SortOptions.
Context `{Runtime}.

Lemma sorted_list_type l : sorted_list "type-asc" l = stable_sort type_asc l.
Proof. done. Qed.

Lemma sorted_list_default sortOption l :
  sortOption ∉ sortOptions →
  sorted_list sortOption l = sorted_list "date-desc" l.
Proof.
  intros Hno. unfold sorted_list. f_equal. unfold comparator.
  repeat (rewrite (bool_decide_eq_false_2 (sortOption = _));
          [|intros ->; apply Hno; unfold sortOptions; set_unfold; tauto]).
  done.
Qed.

End SortOptions.

(** X19: for every sort option [sortedCharts] leaves the array it is given,
    and every other array there is, as it was, and returns a new array that
    holds a permutation of the charts: no chart is lost or shown twice.  A
    sort option that is none of the five known ones sorts like
    "date-desc". *)
Theorem sortedCharts_fresh_permutation `{Runtime}
    (sortOption : string) (h : heap) (c : nat) (l : list ChartConfig) :
  h !! c = Some l →
  let '(r, h') := sortedCharts sortOption c h in
  h !! r = None ∧
  (∀ a, a ≠ r → h' !! a = h !! a) ∧
  h' !! r = Some (sorted_list sortOption l) ∧
  sorted_list sortOption l ≡ₚ l ∧
  (sortOption ∉ sortOptions →
   sorted_list sortOption l = sorted_list "date-desc" l).
Proof.
  intros Hc.
  destruct (sortedCharts_spec sortOption h c l Hc) as (b & -> & Hb & Hne).
  split_and!.
  - done.
  - intros a Ha. by rewrite lookup_insert_ne.
  - apply lookup_insert_eq.
  - apply stable_sort_perm.
  - apply sorted_list_default.
Qed.

Lemma sortedCharts_fresh_permutation_witness :
  let a := mkChartConfig "1" "Revenue" Bar "Region" "Sales" Sum in
  let b := mkChartConfig "2" "Costs" Line "Month" "Costs" Average in
  let h : heap := {[ 7%nat := [a; b] ]} in
  let '(r, h') := sortedCharts "newest" 7%nat h in
  h' !! 7%nat = Some [a; b] ∧ h' !! r = Some [b; a].
Proof.
  intros a b h.
  pose proof (@sortedCharts_fresh_permutation runtime "newest" h 7%nat [a; b]
                eq_refl) as W.
  destruct (sortedCharts "newest" 7%nat h) as [r h'] eqn:E.
  destruct W as (Hfresh & Hkept & Hsorted & _ & _). split.
  - rewrite Hkept; [done|]. intros <-. discriminate Hfresh.
  - by rewrite Hsorted.
Defined.

(** X20: the sort by chart type, under a consistent [localeCompare]: the
    result is a permutation of the charts in the order of the names of
    their types, and it is stable: the charts of one type keep the order
    they had. *)
Theorem type_sort_groups_stably `{Runtime} (l : list ChartConfig) :
  consistent localeCompare →
  let sorted := sorted_list "type-asc" l in
  sorted ≡ₚ l ∧
  StronglySorted
    (λ a b, locale_le (ChartType_label (type a)) (ChartType_label (type b)))
    sorted ∧
  ∀ t, filter (λ c, type c = t) sorted = filter (λ c, type c = t) l.
Proof.
  intros [Hflip Htrans] sorted. unfold sorted. rewrite sorted_list_type.
  split_and!.
  - apply stable_sort_perm.
  - eapply StronglySorted_mono; [|apply stable_sort_sorted].
    + intros a b. unfold before, type_asc, locale_le.
      by destruct (sign (localeCompare _ _)).
    + intros a b. unfold type_asc.
      rewrite (Hflip (ChartType_label (type b)) (ChartType_label (type a))).
      by destruct (sign (localeCompare _ _)).
    + intros a b c. unfold before, type_asc. intros Hab Hbc.
      assert (sign (localeCompare (ChartType_label (type a))
                      (ChartType_label (type c))) ≠ Gt) as Hac.
      { apply (Htrans _ (ChartType_label (type b)));
          intros E; by rewrite E in *. }
      by destruct (sign (localeCompare (ChartType_label (type a))
                           (ChartType_label (type c)))).
  - intros t.
    pose proof (stable_sort_filter type_asc
                  (λ c, bool_decide (type c = t)) l) as Hst.
    erewrite (list_filter_iff (λ c, type c = t)), Hst.
    + apply list_filter_iff. intros c. by rewrite bool_decide_eq_true.
    + intros x y _ _ Hx%bool_decide_eq_true Hy%bool_decide_eq_true.
      unfold type_asc. rewrite Hx, Hy.
      pose proof (Hflip (ChartType_label t) (ChartType_label t)) as E.
      by destruct (sign (localeCompare (ChartType_label t)
                           (ChartType_label t))).
    + intros c. by rewrite bool_decide_eq_true.
Qed.

Lemma type_sort_groups_stably_witness :
  let a := mkChartConfig "1" "Revenue" Pie "Region" "Sales" Sum in
  let b := mkChartConfig "2" "Costs" Bar "Month" "Costs" Average in
  let c := mkChartConfig "3" "Orders" Pie "Region" "Region" Count in
  sorted_list "type-asc" [a; b; c] ≡ₚ [a; b; c] ∧
  filter (λ x, type x = Pie) (sorted_list "type-asc" [a; b; c]) = [a; c].
Proof.
  intros a b c.
  destruct (@type_sort_groups_stably runtime [a; b; c]
              localeCompare_consistent) as (Hperm & _ & Hstable).
  split; [exact Hperm|]. by rewrite Hstable.
Defined.

(** ** Logging in and out *)

(** X21: [handleLogin] succeeds for the user "admin" with the password
    "admin" and for nothing else.  A successful login survives a reload of
    the page (the effect on mount reads it back from the session storage)
    until [handleLogout], after which a reload finds nobody logged in; the
    login leaves the local storage alone.  A failed login changes
    nothing. *)
Theorem login_session `{Runtime} (user pass : string) (p : Page) :
  let '(success, p') := handleLogin user pass p in
  (success = true ↔ user = "admin" ∧ pass = "admin") ∧
  (success = true →
     isAuthenticated (page_cells p') = true ∧
     isAuthenticated
       (page_cells (readLogin (load (page_localStorage p')
                                 (page_sessionStorage p')))) = true ∧
     isAuthenticated
       (page_cells (readLogin (load (page_localStorage (logout p'))
                                 (page_sessionStorage (logout p'))))) = false ∧
     page_localStorage p' = page_localStorage p) ∧
  (success = false → p' = p).
Proof.
  unfold handleLogin.
  destruct (decide (user = "admin")) as [->|Hu];
    [destruct (decide (pass = "admin")) as [->|Hp]|].
  - simpl. split_and!; try done.
    intros _. split_and!; try done.
    + unfold readLogin, load. simpl. by rewrite lookup_insert_eq.
    + unfold readLogin, load, logout. simpl. by rewrite lookup_delete_eq.
  - rewrite (bool_decide_eq_false_2 _ Hp). simpl.
    split_and!; try done. split; [done|]. by intros [_ ?].
  - rewrite (bool_decide_eq_false_2 _ Hu). simpl.
    split_and!; try done. split; [done|]. by intros [? _].
Qed.

(** X22: nothing of the dashboard survives a logout.  After [handleLogout]
    and a new login the saved snapshot is gone, so the restore effect finds
    nothing and the page shows the cells of a fresh start: no data, no
    charts, no columns, no file name, the default title.  Every other entry
    of the local storage is left alone. *)
Theorem logout_forgets_the_dashboard `{Runtime}
    (JSON_parse : string → option json)
    (asCharts : json → list ChartConfig) (asString : json → string)
    (p : Page) :
  let p1 := logout p in
  let '(success, p2) := handleLogin "admin" "admin" p1 in
  success = true ∧
  page_localStorage p2 !! INSIGHTHUB_AUTOSAVE_KEY = None ∧
  restore JSON_parse asCharts asString (page_cells p2) (page_localStorage p2)
  = (page_cells p2, page_localStorage p2) ∧
  data (page_cells p2) = None ∧
  charts (page_cells p2) = [] ∧
  columns (page_cells p2) = [] ∧
  fileName (page_cells p2) = "" ∧
  dashboardTitle (page_cells p2) = "Untitled Dashboard" ∧
  isRestored (page_cells p2) = false ∧
  (∀ k, k ≠ INSIGHTHUB_AUTOSAVE_KEY →
        page_localStorage p2 !! k = page_localStorage p !! k).
Proof.
  simpl. split_and!; try done.
  - apply lookup_delete_eq.
  - unfold restore. simpl. by rewrite lookup_delete_eq.
  - intros k Hk. by rewrite lookup_delete_ne.
Qed.

(** X23: the login form.  With the right credentials the user is logged
    in, and the next time the form is mounted it shows the remembered user
    name with the box ticked exactly when the box was ticked; with anything
    else (an empty field among them) the cells and both storages stay as
    they are and an error toast is shown.  The form touches no entry of the
    local storage but its own. *)
Theorem remember_me `{Runtime} (form : Login.Form) (p : Page) :
  let p' := Login.handleSubmit handleLogin form p in
  (Login.username form = "admin" ∧ Login.password form = "admin" →
     isAuthenticated (page_cells p') = true ∧
     Login.remember p' Login.blank
     = (if Login.rememberMe form then Login.mkForm "admin" "" true
        else Login.blank)) ∧
  (¬ (Login.username form = "admin" ∧ Login.password form = "admin") →
     page_cells p' = page_cells p ∧
     page_localStorage p' = page_localStorage p ∧
     page_sessionStorage p' = page_sessionStorage p ∧
     ∃ message, page_toasts p' = page_toasts p ++ [(message, Toast.error)]) ∧
  (∀ k, k ≠ Login.REMEMBER_ME_KEY →
        page_localStorage p' !! k = page_localStorage p !! k).
Proof.
  intros p'. unfold p', Login.handleSubmit, handleLogin. split_and!.
  - intros [-> ->]. simpl. destruct (Login.rememberMe form); simpl.
    + split; [done|]. unfold Login.remember. simpl. by rewrite lookup_insert_eq.
    + split; [done|]. unfold Login.remember. simpl. by rewrite lookup_delete_eq.
  - intros Hno.
    destruct (bool_decide (Login.username form = "")
              || bool_decide (Login.password form = "")) eqn:E.
    + simpl. split_and!; try done. by eexists.
    + assert (bool_decide (Login.username form = "admin")
              && bool_decide (Login.password form = "admin") = false) as ->.
      { apply andb_false_iff.
        destruct (decide (Login.username form = "admin")) as [Hu|Hu];
          [right|left]; apply bool_decide_eq_false; [|done].
        intros Hp. by apply Hno. }
      simpl. split_and!; try done. by eexists.
  - intros k Hk. repeat case_match; simplify_eq; simpl; try done.
    + by rewrite lookup_insert_ne.
    + by rewrite lookup_delete_ne.
Qed.

(** ** The auto-save and the restore effect *)

Section ReadingBack.

Lemma string_of_list_ascii_snoc l a s :
  string_of_list_ascii (l ++ [a]) +:+ s = string_of_list_ascii l +:+ String a s.
Proof.
  induction l as [|x l IH]; [done|]. simpl. by rewrite !append_cons, IH.
Qed.

(** Reading an escaped code unit gives the code unit. *)
Lemma string_body_escape a r acc :
  string_body (escape a +:+ r) acc = string_body r (a :: acc).
Proof. destruct a as [[] [] [] [] [] [] [] []]; reflexivity. Qed.

(** Reading back a quoted string. *)
Lemma string_body_escaped s rest acc :
  string_body (escaped s +:+ String quote rest) acc
  = Some (string_of_list_ascii (rev acc) +:+ s, rest).
Proof.
  revert acc. induction s as [|a s IH]; intros acc; simpl.
  - by rewrite append_nil_r.
  - rewrite append_assoc, string_body_escape, IH. simpl.
    by rewrite string_of_list_ascii_snoc.
Qed.

Lemma QuoteJSONString_append s rest :
  QuoteJSONString s +:+ rest = String quote (escaped s +:+ String quote rest).
Proof. unfold QuoteJSONString. by rewrite append_cons, append_assoc. Qed.

Lemma reads_back_string s : reads_back 1 (JString s).
Proof.
  split.
  - intros [|fuel] rest Hfuel; [lia|]. simpl JSON_stringify.
    rewrite QuoteJSONString_append. simpl.
    by rewrite string_body_escaped.
  - by eexists _, _.
Qed.

Lemma reads_back_mono k k' v : (k ≤ k')%nat → reads_back k v → reads_back k' v.
Proof.
  intros Hk [Hv Hc]. split; [|done]. intros fuel rest Hfuel. apply Hv. lia.
Qed.

Lemma stringify_object o :
  JSON_stringify (JObject o)
  = String "{" (join "," (List.map member_text o) +:+ "}").
Proof. done. Qed.

Lemma stringify_array l :
  JSON_stringify (JArray l)
  = String "[" (join "," (List.map JSON_stringify l) +:+ "]").
Proof. done. Qed.

Lemma join_cons sep t t' ts :
  join sep (t :: t' :: ts) = t +:+ sep +:+ join sep (t' :: ts).
Proof. done. Qed.

(** The members of an object, read one after the other. *)
Lemma members_read k o acc rest fuel :
  o ≠ [] → Forall (λ p, reads_back k p.2) o → (k + length o ≤ fuel)%nat →
  members fuel (join "," (List.map member_text o) +:+ String "}" rest) acc
  = Some (JObject (foldl put acc o), rest).
Proof.
  revert acc fuel.
  induction o as [|[key v] o IH]; intros acc fuel Hne Hall Hfuel; [done|].
  apply Forall_cons in Hall as [[Hv _] Hall]. simpl in Hv, Hfuel.
  destruct fuel as [|fuel]; [lia|].
  destruct o as [|q o].
  - simpl join. unfold member_text.
    rewrite !append_assoc, QuoteJSONString_append. simpl.
    rewrite string_body_escaped. simpl. rewrite !append_nil_l.
    by rewrite Hv by lia.
  - rewrite (join_cons _ _ _ _
               : join "," (List.map member_text ((key, v) :: q :: o)) = _).
    unfold member_text at 1.
    rewrite !append_assoc, QuoteJSONString_append. simpl.
    rewrite string_body_escaped. simpl. rewrite !append_nil_l.
    rewrite Hv by lia. simpl.
    rewrite IH; [done|done|done|simpl in *; lia].
Qed.

Lemma foldl_put acc o :
  NoDup (acc ++ o).*1 → foldl put acc o = acc ++ o.
Proof.
  revert acc. induction o as [|[k v] o IH]; intros acc Hnd; simpl.
  { by rewrite app_nil_r. }
  assert (put acc (k, v) = acc ++ [(k, v)]) as ->.
  { unfold put, define. simpl. rewrite (proj2 (own_None acc k)); [done|].
    rewrite fmap_app in Hnd. apply NoDup_app in Hnd as (_ & Hdisj & _).
    intros Hk. apply (Hdisj k Hk). by left. }
  rewrite IH; rewrite <-app_assoc; done.
Qed.

Lemma reads_back_object k o :
  NoDup o.*1 → Forall (λ p, reads_back k p.2) o →
  reads_back (k + length o + 1) (JObject o).
Proof.
  intros Hnd Hall. split; [|by eexists _, _].
  intros fuel rest Hfuel. destruct fuel as [|fuel]; [lia|].
  rewrite stringify_object. destruct o as [|[key v] o]; [done|].
  rewrite append_cons, append_assoc.
  change ("}" +:+ rest) with (String "}" rest).
  set (text := join "," (List.map member_text ((key, v) :: o))
               +:+ String "}" rest).
  assert (∃ t, text = String quote t) as [t Ht].
  { unfold text. destruct o; simpl;
      rewrite !append_assoc, QuoteJSONString_append; by eexists. }
  simpl. rewrite Ht. simpl. rewrite <-Ht. unfold text.
  rewrite (members_read k); [|done|done|simpl in *; lia].
  by rewrite (foldl_put []).
Qed.

(** The elements of an array, read one after the other. *)
Lemma elements_read k l acc rest fuel :
  l ≠ [] → Forall (reads_back k) l → (k + length l ≤ fuel)%nat →
  elements fuel (join "," (List.map JSON_stringify l) +:+ String "]" rest) acc
  = Some (JArray (rev acc ++ l), rest).
Proof.
  revert acc fuel.
  induction l as [|v l IH]; intros acc fuel Hne Hall Hfuel; [done|].
  apply Forall_cons in Hall as [[Hv _] Hall]. simpl in Hfuel.
  destruct fuel as [|fuel]; [lia|].
  destruct l as [|w l].
  - simpl. by rewrite Hv by lia.
  - rewrite (join_cons _ _ _ _
               : join "," (List.map JSON_stringify (v :: w :: l)) = _).
    rewrite !append_assoc. simpl. rewrite Hv by lia. simpl.
    rewrite IH; [|done|done|simpl in *; lia]. simpl.
    by rewrite <-app_assoc.
Qed.

Lemma skip_ws_start c t : is_ws c = false → skip_ws (String c t) = String c t.
Proof. simpl. by intros ->. Qed.

Lemma reads_back_array k l :
  Forall (reads_back k) l → reads_back (k + length l + 1) (JArray l).
Proof.
  intros Hall. split; [|by eexists _, _].
  intros fuel rest Hfuel. destruct fuel as [|fuel]; [lia|].
  rewrite stringify_array. destruct l as [|v l]; [done|].
  rewrite append_cons, append_assoc.
  change ("]" +:+ rest) with (String "]" rest).
  set (text := join "," (List.map JSON_stringify (v :: l)) +:+ String "]" rest).
  assert (∃ c t, text = String c t ∧ is_ws c = false ∧ c ≠ "]"%char)
    as (c & t & Ht & Hws & Hc).
  { pose proof Hall as [[_ (c & t & Hv & Hws & Hc & _)] _]%Forall_cons.
    exists c. unfold text. destruct l; simpl; rewrite Hv, ?append_cons;
      by eexists. }
  assert (elements fuel text [] = Some (JArray (v :: l), rest)) as Hel.
  { unfold text. rewrite (elements_read k); [done|done|done|simpl in *; lia]. }
  simpl. rewrite Ht, skip_ws_start by done. rewrite <-Ht, Hel.
  clear -Hc. by destruct c as [[] [] [] [] [] [] [] []].
Qed.

Lemma join_length texts :
  Forall (λ t, t ≠ "") texts →
  (length texts ≤ String.length (join "," texts))%nat.
Proof.
  induction texts as [|t texts IH]; intros Hall; [done|].
  apply Forall_cons in Hall as [Ht Hall]. specialize (IH Hall).
  destruct texts as [|t' texts].
  - simpl. destruct t; [done|simpl; lia].
  - rewrite join_cons, !length_append. simpl in *. lia.
Qed.

(** ** The snapshot of the dashboard *)

Lemma chart_json_reads c j : chart_json c = Some j → reads_back 8 j.
Proof.
  unfold chart_json. destruct (AggregationType_label (aggregation c)) as [a|];
    [|done]. simpl. intros [= <-].
  refine (reads_back_mono _ _ _ _ (reads_back_object 1 _ _ _));
    [simpl; lia| |].
  - simpl. compute_done.
  - repeat (apply Forall_cons; split; [apply reads_back_string|]). done.
Qed.

Lemma chart_json_asChart c j : chart_json c = Some j → asChart j = c.
Proof.
  unfold chart_json. destruct c as [i t ty x y a]. simpl.
  destruct a; simpl; intros [= <-]; by destruct ty.
Qed.

Lemma chart_json_defined c :
  aggregation c ≠ OtherAggregation → is_Some (chart_json c).
Proof. unfold chart_json. by destruct (aggregation c). Qed.

Lemma charts_json_defined cs :
  Forall (λ c, aggregation c ≠ OtherAggregation) cs →
  ∃ js, mapM chart_json cs = Some js.
Proof.
  intros Hall. apply (mapM_is_Some chart_json cs).
  eapply Forall_impl; [done|]. apply chart_json_defined.
Qed.

Lemma charts_json_asCharts cs js :
  mapM chart_json cs = Some js → asChart <$> js = cs.
Proof.
  intros Hjs%mapM_Some. induction Hjs as [|c j cs js Hc _ IH]; [done|].
  csimpl. by rewrite (chart_json_asChart c j), IH.
Qed.

(** [JSON.parse] reads the snapshot that [JSON.stringify] wrote. *)
Lemma snapshot_reads (st : State) v :
  dashboardState st = Some v → JSON_parse (JSON_stringify v) = Some v.
Proof.
  unfold dashboardState.
  destruct (mapM chart_json (charts st)) as [js|] eqn:Hjs; [|done]. simpl.
  intros [= <-]. set (v := JObject _).
  assert (Forall (reads_back 8) js) as Hall.
  { apply mapM_Some in Hjs. induction Hjs as [|c j cs js' Hc _ IH]; [done|].
    constructor; [by eapply chart_json_reads|done]. }
  assert (reads_back (length js + 13) v) as [Hv _].
  { refine (reads_back_mono _ _ _ _
              (reads_back_object (8 + length js + 1) _ _ _)); [simpl; lia| |].
    - simpl. compute_done.
    - apply Forall_cons_2; [by apply (reads_back_array 8)|].
      apply Forall_cons_2.
      { apply (reads_back_mono 1); [lia|]. apply reads_back_string. }
      apply Forall_cons_2; [|done].
      apply (reads_back_mono 1); [lia|]. apply reads_back_string. }
  unfold JSON_parse.
  rewrite <-(append_nil_r (JSON_stringify v)) at 2.
  rewrite Hv; [done|].
  assert (length js ≤ String.length (join "," (List.map JSON_stringify js)))%nat.
  { etrans; [|apply join_length].
    - by rewrite length_map.
    - apply Forall_forall. intros t (j & <- & Hj)%list_elem_of_In%in_map_iff.
      eapply Forall_forall in Hall as [_ (c & t' & -> & _)]; [done|].
      by apply list_elem_of_In. }
  unfold v. rewrite stringify_object. simpl List.map. simpl join.
  simpl String.length. rewrite !length_append. simpl String.length. lia.
Qed.

(** What the restore effect makes of a saved snapshot. *)
Lemma autosave_then_restore (st st0 : State) (ls : localStorage) :
  data st ≠ None →
  Forall (λ c, aggregation c ≠ OtherAggregation) (charts st) →
  isAuthenticated st0 = true →
  ∃ text,
    autosave JSON_stringify st ls
    = Some (<[INSIGHTHUB_AUTOSAVE_KEY := text]> ls) ∧
    ∀ ls', ls' !! INSIGHTHUB_AUTOSAVE_KEY = Some text →
      restore JSON_parse asCharts asString st0 ls'
      = (if bool_decide (fileName st = "") then st0
         else
           setIsRestored true
             ((if bool_decide (dashboardTitle st = "") then (λ s, s)
               else setDashboardTitle (dashboardTitle st))
                (setFileName (fileName st) (setCharts (charts st) st0))),
         ls').
Proof.
  intros Hdata Htyped Hauth.
  destruct (charts_json_defined _ Htyped) as [js Hjs].
  pose proof (charts_json_asCharts _ _ Hjs) as Hcharts.
  set (v := JObject [("charts", JArray js);
                     ("fileName", JString (fileName st));
                     ("dashboardTitle", JString (dashboardTitle st))]).
  assert (dashboardState st = Some v) as Hv.
  { unfold dashboardState. by rewrite Hjs. }
  pose proof (snapshot_reads st v Hv) as Hparse.
  exists (JSON_stringify v). split.
  { unfold autosave. destruct (data st); [|done]. by rewrite Hv. }
  intros ls' Hls. set (text := JSON_stringify v) in *.
  unfold restore. rewrite Hauth, Hls. simpl.
  rewrite Hparse. unfold restore_from, v. simpl. rewrite Hcharts.
  by destruct (bool_decide (fileName st = "")),
       (bool_decide (dashboardTitle st = "")).
Qed.

Lemma dispatch_upload_cells p name rows :
  page_cells (Session.dispatch JSON_parse asCharts asString JSON_stringify p
                (Session.Upload name rows))
  = handleFileUpload name rows (page_cells p).
Proof.
  unfold Session.dispatch, Session.restored.
  rewrite bool_decide_eq_true_2; [done|]. simpl.
  unfold handleFileUpload. by destruct rows, (_ || _).
Qed.

End ReadingBack.

(** X24: the auto-save and a reload of the page.  On a page with data
    loaded and charts whose aggregation is Sum, Count or Average, the timer
    of the auto-save writes one entry of the local storage and changes no
    cell, whatever characters the ids, titles, column names and file name
    hold; while the user is logged in, a reload of the page reads the entry
    back and keeps it: with a non-empty file name the page shows the saved
    charts and file name, the saved title unless it was empty (then the
    default title), no data, and the restored flag; uploading the file of
    that name then gives the charts and the title their data back.  A
    snapshot with an empty file name restores nothing. *)
Theorem autosave_survives_reload
    (p0 : Page) (other : string) (rows : list DataRow) :
  page_sessionStorage p0 !! INSIGHTHUB_AUTH_KEY = Some "true" →
  data (page_cells p0) ≠ None →
  Forall (λ c, aggregation c ≠ OtherAggregation) (charts (page_cells p0)) →
  let st := page_cells p0 in
  let saved :=
    Session.dispatch JSON_parse asCharts asString JSON_stringify p0
      (Session.AutoSave other) in
  let p :=
    Session.run JSON_parse asCharts asString JSON_stringify
      (page_localStorage saved) (page_sessionStorage saved) [] in
  let p' :=
    Session.dispatch JSON_parse asCharts asString JSON_stringify p
      (Session.Upload (fileName st) rows) in
  page_cells saved = st ∧
  (∃ text,
     page_localStorage saved
     = <[INSIGHTHUB_AUTOSAVE_KEY := text]> (page_localStorage p0) ∧
     page_localStorage p !! INSIGHTHUB_AUTOSAVE_KEY = Some text) ∧
  isAuthenticated (page_cells p) = true ∧
  data (page_cells p) = None ∧
  (fileName st ≠ "" →
     isRestored (page_cells p) = true ∧
     charts (page_cells p) = charts st ∧
     fileName (page_cells p) = fileName st ∧
     dashboardTitle (page_cells p)
     = (if decide (dashboardTitle st = "") then "Untitled Dashboard"
        else dashboardTitle st) ∧
     data (page_cells p') = Some rows ∧
     charts (page_cells p') = charts st ∧
     dashboardTitle (page_cells p') = dashboardTitle (page_cells p) ∧
     isRestored (page_cells p') = false) ∧
  (fileName st = "" →
     page_cells p = setIsAuthenticated true initialState).
Proof.
  intros Hss Hdata Htyped st saved p p'.
  destruct (autosave_then_restore st (setIsAuthenticated true initialState)
              (page_localStorage p0) Hdata Htyped eq_refl)
    as (text & Hsave & Hrestore).
  set (ls1 := <[INSIGHTHUB_AUTOSAVE_KEY := text]> (page_localStorage p0))
    in *.
  set (ls2 := <[INSIGHTHUB_THEME_KEY := initialTheme ls1]> ls1).
  assert (ls2 !! INSIGHTHUB_AUTOSAVE_KEY = Some text) as Hkept.
  { unfold ls2, ls1. by rewrite lookup_insert_ne, lookup_insert_eq. }
  assert (saved = mkPage st ls1 (page_sessionStorage p0) (page_toasts p0))
    as Hsaved.
  { unfold saved, Session.dispatch, Session.restored. fold st.
    rewrite Hsave. by rewrite bool_decide_eq_true_2. }
  set (shown :=
    if bool_decide (fileName st = "") then setIsAuthenticated true initialState
    else
      setIsRestored true
        ((if bool_decide (dashboardTitle st = "") then (λ s, s)
          else setDashboardTitle (dashboardTitle st))
           (setFileName (fileName st)
              (setCharts (charts st)
                 (setIsAuthenticated true initialState))))).
  assert (p = mkPage shown ls2 (page_sessionStorage p0) []) as Hp.
  { unfold p. rewrite Hsaved.
    cbn [page_localStorage page_sessionStorage].
    unfold Session.run, Session.mount, Session.restored, saveTheme,
      readLogin, load, onCells.
    cbn [foldl page_cells page_localStorage page_sessionStorage page_toasts].
    rewrite Hss. fold ls2.
    change (setIsAuthenticated (bool_decide (Some "true" = Some "true"))
              initialState)
      with (setIsAuthenticated true initialState).
    rewrite bool_decide_eq_false_2 by done.
    by rewrite (Hrestore ls2 Hkept). }
  split; [by rewrite Hsaved|].
  split; [exists text; by rewrite Hsaved, Hp|].
  unfold p'. rewrite !dispatch_upload_cells.
  rewrite handleFileUpload_data, handleFileUpload_charts,
    handleFileUpload_title.
  rewrite Hp. cbn [page_cells page_localStorage]. unfold shown.
  destruct (decide (fileName st = "")) as [Hf|Hf].
  { rewrite (bool_decide_eq_true_2 _ Hf). by split_and!. }
  rewrite (bool_decide_eq_false_2 _ Hf).
  destruct (decide (dashboardTitle st = "")) as [Ht|Ht].
  - rewrite (bool_decide_eq_true_2 _ Ht). simpl.
    rewrite !bool_decide_eq_true_2 by done.
    split_and!; [done|done| |by intros ?]. intros _. by split_and!.
  - rewrite (bool_decide_eq_false_2 _ Ht). simpl.
    rewrite !bool_decide_eq_true_2 by done.
    split_and!; [done|done| |by intros ?]. intros _. by split_and!.
Qed.

Lemma autosave_survives_reload_witness :
  let c := mkChartConfig "1700000000000" "Sales by region" Bar "Region" "Sales"
             Sum in
  let rows := [[("Region", CStr "East"); ("Sales", CNum 100%float)]] in
  let st : State :=
    mkState true (Some rows) ["Region"; "Sales"] [c] "Q1" "sales.xlsx" false
      false None None in
  let p0 := mkPage st ∅ {[ INSIGHTHUB_AUTH_KEY := "true" ]} [] in
  let saved :=
    Session.dispatch JSON_parse asCharts asString JSON_stringify p0
      (Session.AutoSave "") in
  charts
    (page_cells
       (Session.run JSON_parse asCharts asString JSON_stringify
          (page_localStorage saved) (page_sessionStorage saved) []))
  = [c].
Proof.
  intros c rows st p0 saved.
  assert (Forall (λ c, aggregation c ≠ OtherAggregation)
            (charts (page_cells p0))) as Htyped.
  { by repeat constructor. }
  destruct (autosave_survives_reload p0 "" rows eq_refl
              ltac:(discriminate) Htyped)
    as (_ & _ & _ & _ & Hshown & _).
  destruct Hshown as (_ & Hcharts & _); [discriminate|exact Hcharts].
Defined.
